(** * Event store of dittopub: insertion, tag indexing, search indexing,
      filter queries and stats counters.

    A shallow embedding of [src/db/events.ts] (insertEvent, getFilterQuery,
    getFiltersQuery, getFilters, deleteFilters, countFilters,
    filterIndexableTags, buildSearchContent) and of the stats module
    (updateStats and its upsert queries), followed by the modules around
    the store: the users module, the topics of the streaming controller,
    the search store, the configured uploader, the relay information
    document, and the earlier revision of the event store ([Legacy]).

    JavaScript values are modelled as follows.
    - [number]s that hold kinds and timestamps are [Z]; occurrence counters
      and row limits are [nat].
    - strings are [string]; [s.length] is [String.length s] and
      [s.substring(0, n)] is [String.substring 0 n s].
    - a value that may be [undefined] is an [option].
    - a rejected promise or a thrown exception is [Err e]; a resolved promise
      is [Ok v].
    - the SQL database is a record of tables; every table without a primary
      key is a list of rows in insertion order, the two stats tables (keyed
      by their primary key) are finite maps.

    What the code relies on and does not define is modelled as follows.
    - the helpers of other modules are parameters gathered in [Env];
    - a transaction commits when its callback resolves and rolls back to
      the tables before it when the callback rejects;
    - [Promise.all] rejects with what was thrown before the first [await]
      when something was, and else with the error of the first statement
      that fails, the statements running in the order they were issued;
    - a query denotes the rows of its relational reading (joins, conjunction
      of the [where] clauses, [union] without duplicates, then [order by] and
      [limit]). *)

From Stdlib Require Import ZArith Ascii String List Lia Permutation Sorted.
From stdpp Require Import base option list sorting strings gmap.

Local Open Scope Z_scope.

(** ** Errors and results *)

(** The values this code can throw. [SqliteError] carries the numeric result
    code of the storage engine ([error.code] in the source); 19 is the
    engine's constraint-violation code. *)
Inductive Error : Type :=
| SqliteError (code : Z)
| TypeError (msg : string)
| ZodError (msg : string)
| OtherError (msg : string).

#[global] Instance Error_eq_dec : EqDecision Error.
Proof. solve_decision. Defined.

Inductive Result (A : Type) : Type :=
| Ok (a : A)
| Err (e : Error).
Arguments Ok {A} a.
Arguments Err {A} e.

Definition bindR {A B : Type} (r : Result A) (k : A -> Result B) : Result B :=
  match r with
  | Ok a => k a
  | Err e => Err e
  end.

Definition mapR {A B : Type} (f : A -> B) (r : Result A) : Result B :=
  match r with
  | Ok a => Ok (f a)
  | Err e => Err e
  end.

Notation "'let*' x ':=' c 'in' k" := (bindR c (fun x => k))
  (at level 10, x name, c at level 100, k at level 200).

(** ** Events *)

Module Event.
Record t : Type := mk {
  id : string;
  kind : Z;
  pubkey : string;
  content : string;
  tags : list (list string);
  created_at : Z;
  sig : string
}.
End Event.

#[global] Instance Event_eq_dec : EqDecision Event.t.
Proof. solve_decision. Defined.

(** [User] of [src/db/users.ts]; [inserted_at] is kept as seconds. *)
Module User.
Record t : Type := mk {
  pubkey : string;
  username : string;
  inserted_at : Z;
  admin : bool
}.
End User.

(** [EventData]: the only field the store reads is [user], set when the
    author is a local identity. *)
Module EventData.
Record t : Type := mk { user : option User.t }.
End EventData.

(** ** Helpers imported from modules that are not part of this development

    [isNostrId] and [isURL] (from [utils.ts]), the parser of the profile
    schema [jsonMetaContentSchema.parse] (from [schemas/nostr.ts]) and the
    full-text [match] operator of the storage engine are parameters.  The
    helpers are total predicates on strings; the parser either yields the
    three fields the store reads or throws, the message of what it throws
    on the left; [fts_match search content] says whether [content] matches
    the query [JSON.stringify(search)]. *)

Module MetaContent.
Record t : Type := mk {
  name : option string;
  nip05 : option string;
  about : option string
}.
End MetaContent.

Record Env : Type := mkEnv {
  isNostrId : string -> bool;
  isURL : string -> bool;
  jsonMetaContentSchema_parse : string -> string + MetaContent.t;
  fts_match : string -> string -> bool
}.

(** Modelled from the spec: [isParameterizedReplaceableKind] of [kinds.ts]
    is "event kind is in the parameterized-replaceable range"; the range is
    the one the earlier revision of the tag table spells out inline,
    [30000 <= event.kind && event.kind < 40000]. *)
Definition isParameterizedReplaceableKind (kind : Z) : bool :=
  (30000 <=? kind) && (kind <? 40000).

(** ** JavaScript truthiness of the values met in this code *)

(** [Boolean(v)] for a string that may be undefined: false for [undefined]
    and for the empty string. *)
Definition truthy (v : option string) : bool :=
  match v with
  | Some s => negb (String.eqb s "")
  | None => false
  end.

(** A string predicate applied to a value that may be undefined.  The
    helpers reject [undefined]; the later [value &&] test discards such a
    tag in any case. *)
Definition holds (p : string -> bool) (v : option string) : bool :=
  match v with
  | Some s => p s
  | None => false
  end.

(** ** Tag indexing policy *)

(** [TagCondition]: the arguments are [event], [data], [count] and
    [value]; a condition may throw. *)
Definition TagCondition : Type :=
  Event.t -> EventData.t -> nat -> option string -> Result bool.

Definition cond_d : TagCondition := fun event _ count _ =>
  Ok (Nat.eqb count 0 && isParameterizedReplaceableKind (Event.kind event)).

Definition cond_e (env : Env) : TagCondition := fun _ _ count value =>
  Ok (Nat.ltb count 15 && holds (isNostrId env) value).

Definition cond_media (env : Env) : TagCondition := fun _ data count value =>
  Ok ((bool_decide (is_Some (EventData.user data)) || Nat.ltb count 4)
      && holds (isURL env) value).

Definition cond_p (env : Env) : TagCondition := fun event _ count value =>
  Ok ((Nat.ltb count 15 || (Event.kind event =? 3)) && holds (isNostrId env) value).

Definition cond_proxy (env : Env) : TagCondition := fun _ _ count value =>
  Ok (Nat.eqb count 0 && holds (isURL env) value).

Definition cond_q (env : Env) : TagCondition := fun event _ count value =>
  Ok (Nat.eqb count 0 && (Event.kind event =? 1) && holds (isNostrId env) value).

(** ['t']: [count < 5 && value.length < 50].  When [count < 5] holds the
    right operand is evaluated, and reading [length] of [undefined] throws. *)
Definition cond_t : TagCondition := fun _ _ count value =>
  if Nat.ltb count 5 then
    match value with
    | Some v => Ok (Nat.ltb (String.length v) 50)
    | None => Err (TypeError "Cannot read properties of undefined (reading 'length')")
    end
  else Ok false.

(** What [tagConditions[name]?.(args)] finds that is not one of the seven
    own entries.  [tagConditions] is an object literal, so the lookup also
    reaches the properties of [Object.prototype]: four of them return a
    truthy value when called this way, five return a falsy one, and three
    throw (one is not callable, two reject the missing accessor). *)
Definition inherited_truthy : list string :=
  ["constructor"; "toString"; "toLocaleString"; "valueOf"].
Definition inherited_falsy : list string :=
  ["hasOwnProperty"; "isPrototypeOf"; "propertyIsEnumerable";
   "__lookupGetter__"; "__lookupSetter__"].
Definition inherited_throwing : list string :=
  ["__proto__"; "__defineGetter__"; "__defineSetter__"].

Definition mem (s : string) (l : list string) : bool :=
  existsb (String.eqb s) l.

(** [tagConditions[name]]: [None] is [undefined]. *)
Definition tagConditions (env : Env) (name : string) : option TagCondition :=
  if String.eqb name "d" then Some cond_d
  else if String.eqb name "e" then Some (cond_e env)
  else if String.eqb name "media" then Some (cond_media env)
  else if String.eqb name "p" then Some (cond_p env)
  else if String.eqb name "proxy" then Some (cond_proxy env)
  else if String.eqb name "q" then Some (cond_q env)
  else if String.eqb name "t" then Some cond_t
  else if mem name inherited_truthy then Some (fun _ _ _ _ => Ok true)
  else if mem name inherited_falsy then Some (fun _ _ _ _ => Ok false)
  else if mem name inherited_throwing then
    Some (fun _ _ _ _ => Err (TypeError "tagConditions[name] is not a function"))
  else None.

(** [const [name, value] = tag]: a missing element is [undefined], and
    [undefined] used as a property key is the string ["undefined"]. *)
Definition tag_name (tag : list string) : string :=
  default "undefined" (head tag).
Definition tag_value (tag : list string) : option string :=
  tag !! 1%nat.

(** [tagConditions[name]?.({ event, data, count, value })]: a missing
    condition gives [undefined], which is falsy. *)
Definition shouldIndex (env : Env) (event : Event.t) (data : EventData.t)
    (name : string) (count : nat) (value : option string) : Result bool :=
  match tagConditions env name with
  | Some cond => cond event data count value
  | None => Ok false
  end.

(** [value && value.length < 200 && shouldIndex]. *)
Definition indexable (value : option string) (should : bool) : bool :=
  truthy value
  && match value with Some v => Nat.ltb (String.length v) 200 | None => false end
  && should.

(** The body of the [reduce] in [filterIndexableTags]: [tagCounts] and
    [results] are the two values the callback updates in place. *)
Fixpoint reduce_tags (env : Env) (event : Event.t) (data : EventData.t)
    (tags : list (list string)) (tagCounts : gmap string nat)
    (results : list (list string)) : Result (list (list string)) :=
  match tags with
  | [] => Ok results
  | tag :: rest =>
      let name := tag_name tag in
      let value := tag_value tag in
      let count := default 0%nat (tagCounts !! name) in
      let tagCounts' := <[name := S count]> tagCounts in
      let* should := shouldIndex env event data name count value in
      reduce_tags env event data rest tagCounts'
        (if indexable value should then results ++ [tag] else results)
  end.

(** Return only the tags that should be indexed. *)
Definition filterIndexableTags (env : Env) (event : Event.t)
    (data : EventData.t) : Result (list (list string)) :=
  reduce_tags env event data (Event.tags event) ∅ [].

(** ** Search content *)

Definition newline : string := String (ascii_of_nat 10) EmptyString.

(** [[name, nip05, about].filter(Boolean)]: keeps the values that are
    neither [undefined] nor the empty string. *)
Definition filter_Boolean (l : list (option string)) : list string :=
  omap (fun v => if truthy v then v else None) l.

(** Build search content for a user.  The parser may throw. *)
Definition buildUserSearchContent (env : Env) (event : Event.t) : Result string :=
  match jsonMetaContentSchema_parse env (Event.content event) with
  | inl msg => Err (ZodError msg)
  | inr meta =>
      Ok (String.concat newline
            (filter_Boolean [MetaContent.name meta; MetaContent.nip05 meta;
                             MetaContent.about meta]))
  end.

(** Build a search index from the event. *)
Definition buildSearchContent (env : Env) (event : Event.t) : Result string :=
  if Event.kind event =? 0 then buildUserSearchContent env event
  else if Event.kind event =? 1 then Ok (Event.content event)
  else Ok "".

(** ** The database *)

Module TagRow.
Record t : Type := mk { event_id : string; tag : string; value : string }.
End TagRow.

Module FtsRow.
Record t : Type := mk { id : string; content : string }.
End FtsRow.

(** The counters of one [pubkey_stats] row; the [pubkey] column is the key
    of the table. *)
Module PubkeyStatsRow.
Record t : Type := mk {
  followers_count : Z;
  following_count : Z;
  notes_count : Z
}.
End PubkeyStatsRow.

(** The counters of one [event_stats] row; the [event_id] column is the
    key of the table. *)
Module EventStatsRow.
Record t : Type := mk {
  replies_count : Z;
  reposts_count : Z;
  reactions_count : Z
}.
End EventStatsRow.

(** Modelled from the spec: the schema ([db.ts] and the migrations are not
    part of this development).  [events(id PK, ...)], [tags(event_id, tag,
    value)], [events_fts(id, content)], [users(pubkey PK)] of which only the
    [pubkey] column is read here, [pubkey_stats(pubkey PK, ...)] and
    [event_stats(event_id PK, ...)]. *)
Module DB.
Record t : Type := mk {
  events : list Event.t;
  tags : list TagRow.t;
  events_fts : list FtsRow.t;
  users : list string;
  pubkey_stats : gmap string PubkeyStatsRow.t;
  event_stats : gmap string EventStatsRow.t
}.
Definition empty : t := mk [] [] [] [] ∅ ∅.
End DB.

(** A statement run inside a transaction: it fails or yields the next
    state of the tables. *)
Definition Statement : Type := DB.t -> Result DB.t.

(** What the storage engine may do to the three [insert] statements of
    [insertEvent] beyond enforcing the primary key of [events]: each
    statement either runs or fails with the given error (a full disk, a
    lost connection, another constraint of the schema, ...). *)
Record Faults : Type := mkFaults {
  fault_events : option Error;
  fault_tags : option Error;
  fault_fts : option Error
}.

Definition no_faults : Faults := mkFaults None None None.

Definition id_stored (id : string) (db : DB.t) : bool :=
  mem id (map Event.id (DB.events db)).

(** [trx.insertInto('events').values(row).execute()]: the primary key
    rejects a second row with the same [id] with result code 19. *)
Definition insertInto_events (fault : option Error) (row : Event.t) : Statement :=
  fun db =>
    match fault with
    | Some e => Err e
    | None =>
        if id_stored (Event.id row) db then Err (SqliteError 19)
        else Ok (DB.mk (DB.events db ++ [row]) (DB.tags db) (DB.events_fts db)
                   (DB.users db) (DB.pubkey_stats db) (DB.event_stats db))
    end.

(** [trx.insertInto('tags').values(rows).execute()]. *)
Definition insertInto_tags (fault : option Error) (rows : list TagRow.t) : Statement :=
  fun db =>
    match fault with
    | Some e => Err e
    | None =>
        Ok (DB.mk (DB.events db) (DB.tags db ++ rows) (DB.events_fts db)
              (DB.users db) (DB.pubkey_stats db) (DB.event_stats db))
    end.

(** [trx.insertInto('events_fts').values(row).execute()]. *)
Definition insertInto_events_fts (fault : option Error) (row : FtsRow.t) : Statement :=
  fun db =>
    match fault with
    | Some e => Err e
    | None =>
        Ok (DB.mk (DB.events db) (DB.tags db) (DB.events_fts db ++ [row])
              (DB.users db) (DB.pubkey_stats db) (DB.event_stats db))
    end.

(** ** Promises inside the transaction *)

(** The promise an [async] function of [insertEvent] returns, as
    [Promise.all] sees it: the function threw before reaching its [await]
    (the promise is already rejected), or returned without awaiting, or is
    waiting for one statement. *)
Inductive Async : Type :=
| Rejected (e : Error)
| Resolved
| Awaiting (stmt : Statement).

Fixpoint first_rejected (ps : list Async) : option Error :=
  match ps with
  | [] => None
  | Rejected e :: _ => Some e
  | _ :: rest => first_rejected rest
  end.

Fixpoint run_awaited (ps : list Async) : Statement :=
  fun db =>
    match ps with
    | [] => Ok db
    | Awaiting stmt :: rest => let* db' := stmt db in run_awaited rest db'
    | _ :: rest => run_awaited rest db
    end.

(** [await Promise.all(ps)]: it rejects with the first rejection it sees.
    A promise that is already rejected is seen before any statement has
    completed, the earliest in the array first; the statements run on the
    one connection of the transaction in the order they were issued. *)
Definition Promise_all (ps : list Async) : Statement :=
  fun db =>
    match first_rejected ps with
    | Some e => Err e
    | None => run_awaited ps db
    end.

(** [db.transaction().execute(body)]: commits when the body resolves, rolls
    back to the state before it when the body rejects. *)
Definition transaction (body : Statement) (db : DB.t) : Result unit * DB.t :=
  match body db with
  | Ok db' => (Ok tt, db')
  | Err e => (Err e, db)
  end.

(** ** insertEvent *)

(** Insert the event into the database. *)
Definition addEvent (faults : Faults) (event : Event.t) : Async :=
  Awaiting (insertInto_events (fault_events faults) event).

(** Add search data to the FTS table. *)
Definition indexSearch (env : Env) (faults : Faults) (event : Event.t) : Async :=
  match buildSearchContent env event with
  | Err e => Rejected e
  | Ok searchContent =>
      if String.eqb searchContent "" then Resolved
      else Awaiting (insertInto_events_fts (fault_fts faults)
                       (FtsRow.mk (Event.id event)
                          (String.substring 0 1000 searchContent)))
  end.

Definition tag_row (event : Event.t) (tag : list string) : TagRow.t :=
  TagRow.mk (Event.id event) (tag_name tag) (default "" (tag_value tag)).

(** Index event tags depending on the conditions defined above. *)
Definition indexTags (env : Env) (faults : Faults) (event : Event.t)
    (data : EventData.t) : Async :=
  match filterIndexableTags env event data with
  | Err e => Rejected e
  | Ok tags =>
      let rows := map (tag_row event) tags in
      if Nat.eqb (length tags) 0 then Resolved
      else Awaiting (insertInto_tags (fault_tags faults) rows)
  end.

(** The callback given to the transaction. *)
Definition insertEvent_body (env : Env) (faults : Faults) (event : Event.t)
    (data : EventData.t) : Statement :=
  Promise_all [addEvent faults event;
               indexTags env faults event data;
               indexSearch env faults event].

(** [error instanceof SqliteError && error.code === 19]. *)
Definition is_constraint_error (e : Error) : bool :=
  match e with
  | SqliteError code => code =? 19
  | _ => false
  end.

(** The [.catch] handler: don't throw for duplicate events. *)
Definition catch_duplicate (r : Result unit) : Result unit :=
  match r with
  | Ok u => Ok u
  | Err e => if is_constraint_error e then Ok tt else Err e
  end.

(** Insert an event (and its tags) into the database. *)
Definition insertEvent (env : Env) (faults : Faults) (event : Event.t)
    (data : EventData.t) (db : DB.t) : Result unit * DB.t :=
  let '(r, db') := transaction (insertEvent_body env faults event data) db in
  (catch_duplicate r, db').

(** ** Filters *)

(** [DittoFilter].  [tag_keys] holds the keys of the form [#<tag>] with
    their value lists, in the order of the object's keys; a key whose value
    is [undefined] is skipped by the loop of [getFilterQuery] and is not
    represented. *)
Module DittoFilter.
Record t : Type := mk {
  ids : option (list string);
  kinds : option (list Z);
  authors : option (list string);
  since : option Z;
  until : option Z;
  limit : option nat;
  tag_keys : list (string * list string);
  local : option bool;
  search : option string
}.
End DittoFilter.

Module GetFiltersOpts.
Record t : Type := mk { limit : option nat }.
End GetFiltersOpts.

(** ** The query builder

    A query is what the builder calls of the source assemble: every query
    starts as [db.selectFrom('events').select([...]).orderBy(
    'events.created_at', 'desc')], and [where], [leftJoin], [innerJoin],
    [limit] and [union] add to it. *)

Inductive Join : Type :=
| LeftJoin_tags
| InnerJoin_users
| LeftJoin_users
| InnerJoin_events_fts.

#[global] Instance Join_eq_dec : EqDecision Join.
Proof. solve_decision. Defined.

Inductive Where : Type :=
| Id_in (ids : list string)
| Kind_in (kinds : list Z)
| Pubkey_in (authors : list string)
| CreatedAt_ge (since : Z)
| CreatedAt_le (until : Z)
| Tag_eq (tag : string)
| TagValue_in (values : list string)
| UsersPubkey_is_null
| FtsContent_match (search : string).

#[warnings="-register-all"]
Inductive Query : Type :=
| Select (joins : list Join) (wheres : list Where) (limit : option nat)
    (unions : list Query).

Definition selectFrom_events : Query := Select [] [] None [].

Definition where_ (w : Where) (q : Query) : Query :=
  match q with
  | Select joins wheres limit unions => Select joins (wheres ++ [w]) limit unions
  end.

Definition join_ (j : Join) (q : Query) : Query :=
  match q with
  | Select joins wheres limit unions => Select (joins ++ [j]) wheres limit unions
  end.

Definition limit_ (n : nat) (q : Query) : Query :=
  match q with
  | Select joins wheres _ unions => Select joins wheres (Some n) unions
  end.

Definition union_ (result query : Query) : Query :=
  match result with
  | Select joins wheres limit unions => Select joins wheres limit (unions ++ [query])
  end.

Definition when {A : Type} (v : option A) (f : A -> Query -> Query) (q : Query) : Query :=
  match v with
  | Some a => f a q
  | None => q
  end.

(** Build the query for a filter.  The loop of the source visits the keys
    in the order of the object; the clauses it adds are a conjunction and a
    set of joins, whose order the evaluation below does not depend on, so
    the keys are visited here in the order of the record. *)
Definition getFilterQuery (filter : DittoFilter.t) : Query :=
  let query := selectFrom_events in
  let query := when (DittoFilter.ids filter) (fun v => where_ (Id_in v)) query in
  let query := when (DittoFilter.kinds filter) (fun v => where_ (Kind_in v)) query in
  let query := when (DittoFilter.authors filter) (fun v => where_ (Pubkey_in v)) query in
  let query := when (DittoFilter.since filter) (fun v => where_ (CreatedAt_ge v)) query in
  let query := when (DittoFilter.until filter) (fun v => where_ (CreatedAt_le v)) query in
  let query := when (DittoFilter.limit filter) limit_ query in
  let query :=
    fold_left (fun q '(tag, value) =>
                 where_ (TagValue_in value) (where_ (Tag_eq tag) (join_ LeftJoin_tags q)))
      (DittoFilter.tag_keys filter) query in
  let query :=
    match DittoFilter.local filter with
    | Some true => join_ InnerJoin_users query
    | Some false => where_ UsersPubkey_is_null (join_ LeftJoin_users query)
    | None => query
    end in
  let query :=
    if truthy (DittoFilter.search filter) then
      where_ (FtsContent_match (default "" (DittoFilter.search filter)))
        (join_ InnerJoin_events_fts query)
    else query in
  query.

(** Combine filter queries into a single union query.  [reduce] without an
    initial value throws on an empty array. *)
Definition getFiltersQuery (filters : list DittoFilter.t) : Result Query :=
  match map getFilterQuery filters with
  | [] => Err (TypeError "Reduce of empty array with no initial value")
  | q :: qs => Ok (fold_left union_ qs q)
  end.

(** ** Evaluation of a query

    The storage engine is not part of the source; this is the relational
    reading of the statement the builder stands for.  The rows of [events]
    are joined with the joined tables, the [where] clauses are a
    conjunction over the joined row, and the selected columns are those of
    the event, so an event appears once per joined row that passes.
    [union] removes duplicate rows.  The [orderBy] and the [limit] of a query
    that has [union] operands apply to the combined rows; every operand is
    evaluated as a query of its own.  Rows with equal [created_at] keep the
    order of the table (the engine leaves it open).  Joining [tags] twice
    under the same name leaves [tags.tag] ambiguous, which the engine
    rejects with its generic error code 1. *)

Record JoinedRow : Type := mkJoinedRow {
  jr_event : Event.t;
  jr_tag : option TagRow.t;
  jr_user : option string;
  jr_fts : option FtsRow.t
}.

Definition has_join (j : Join) (joins : list Join) : bool :=
  bool_decide (j ∈ joins).

(** The right side of a left join: the matching rows, or one row of
    [NULL]s when there is none. *)
Definition left_side {A : Type} (matching : list A) : list (option A) :=
  match matching with
  | [] => [None]
  | _ => map Some matching
  end.

Definition tags_side (db : DB.t) (joins : list Join) (ev : Event.t) : list (option TagRow.t) :=
  if has_join LeftJoin_tags joins then
    left_side (filter (fun r => TagRow.event_id r = Event.id ev) (DB.tags db))
  else [None].

Definition users_side (db : DB.t) (joins : list Join) (ev : Event.t) : list (option string) :=
  if has_join InnerJoin_users joins then
    map Some (filter (fun p => p = Event.pubkey ev) (DB.users db))
  else if has_join LeftJoin_users joins then
    left_side (filter (fun p => p = Event.pubkey ev) (DB.users db))
  else [None].

Definition fts_side (db : DB.t) (joins : list Join) (ev : Event.t) : list (option FtsRow.t) :=
  if has_join InnerJoin_events_fts joins then
    map Some (filter (fun r => FtsRow.id r = Event.id ev) (DB.events_fts db))
  else [None].

Definition joined_rows (db : DB.t) (joins : list Join) (ev : Event.t) : list JoinedRow :=
  t ← tags_side db joins ev;
  u ← users_side db joins ev;
  s ← fts_side db joins ev;
  [mkJoinedRow ev t u s].

(** A comparison with [NULL] is not true. *)
Definition eval_where (env : Env) (row : JoinedRow) (w : Where) : bool :=
  match w with
  | Id_in ids => mem (Event.id (jr_event row)) ids
  | Kind_in kinds => existsb (Z.eqb (Event.kind (jr_event row))) kinds
  | Pubkey_in authors => mem (Event.pubkey (jr_event row)) authors
  | CreatedAt_ge since => since <=? Event.created_at (jr_event row)
  | CreatedAt_le until => Event.created_at (jr_event row) <=? until
  | Tag_eq tag =>
      match jr_tag row with Some r => String.eqb (TagRow.tag r) tag | None => false end
  | TagValue_in values =>
      match jr_tag row with Some r => mem (TagRow.value r) values | None => false end
  | UsersPubkey_is_null =>
      match jr_user row with Some _ => false | None => true end
  | FtsContent_match search =>
      match jr_fts row with
      | Some r => fts_match env search (FtsRow.content r)
      | None => false
      end
  end.

(** The rows of one [select], before ordering and limit. *)
Definition select_rows (env : Env) (db : DB.t) (joins : list Join)
    (wheres : list Where) : Result (list Event.t) :=
  if Nat.leb 2 (length (filter (fun j => j = LeftJoin_tags) joins)) then
    Err (SqliteError 1)
  else
    Ok (map jr_event
          (filter (fun row => forallb (eval_where env row) wheres = true)
             (ev ← DB.events db; joined_rows db joins ev))).

(** Insertion into a list ordered by [created_at], newest first; among
    equal timestamps the inserted event goes first. *)
Fixpoint insert_desc (e : Event.t) (l : list Event.t) : list Event.t :=
  match l with
  | [] => [e]
  | x :: l' =>
      if Event.created_at x <=? Event.created_at e then e :: l
      else x :: insert_desc e l'
  end.

(** [order by events.created_at desc]. *)
Definition sort_desc (l : list Event.t) : list Event.t :=
  foldr insert_desc [] l.

(** [limit n]; no limit when [None]. *)
Definition apply_limit {A : Type} (limit : option nat) (l : list A) : list A :=
  match limit with
  | Some n => take n l
  | None => l
  end.

(** The rows of the operands of [union], one operand after the other. *)
Definition collect (run : Query -> Result (list Event.t))
    : list Query -> Result (list Event.t) :=
  fix operands (us : list Query) : Result (list Event.t) :=
    match us with
    | [] => Ok []
    | u :: us' =>
        let* r := run u in
        let* rs := operands us' in
        Ok (r ++ rs)
    end.

Fixpoint execute (env : Env) (db : DB.t) (q : Query) : Result (list Event.t) :=
  match q with
  | Select joins wheres limit unions =>
      let* own := select_rows env db joins wheres in
      match unions with
      | [] => Ok (apply_limit limit (sort_desc own))
      | _ =>
          let* others := collect (execute env db) unions in
          Ok (apply_limit limit (sort_desc (remove_dups (own ++ others))))
      end
  end.

(** Get events for filters from the database.  The [tags] column holds
    [JSON.stringify(event.tags)] and is read back with [JSON.parse]; the
    rows are the events themselves. *)
Definition getFilters (env : Env) (filters : list DittoFilter.t)
    (opts : GetFiltersOpts.t) (db : DB.t) : Result (list Event.t) :=
  if Nat.eqb (length filters) 0 then Ok []
  else
    let* query := getFiltersQuery filters in
    let query := when (GetFiltersOpts.limit opts) limit_ query in
    execute env db query.

(** ** Stats *)

Module PubkeyStat.
Inductive t : Type := followers_count | following_count | notes_count.
End PubkeyStat.

Module EventStat.
Inductive t : Type := replies_count | reposts_count | reactions_count.
End EventStat.

Definition get_pubkey_stat (row : PubkeyStatsRow.t) (stat : PubkeyStat.t) : Z :=
  match stat with
  | PubkeyStat.followers_count => PubkeyStatsRow.followers_count row
  | PubkeyStat.following_count => PubkeyStatsRow.following_count row
  | PubkeyStat.notes_count => PubkeyStatsRow.notes_count row
  end.

(** [row[stat] = v]. *)
Definition set_pubkey_stat (row : PubkeyStatsRow.t) (stat : PubkeyStat.t) (v : Z)
    : PubkeyStatsRow.t :=
  match stat with
  | PubkeyStat.followers_count =>
      PubkeyStatsRow.mk v (PubkeyStatsRow.following_count row) (PubkeyStatsRow.notes_count row)
  | PubkeyStat.following_count =>
      PubkeyStatsRow.mk (PubkeyStatsRow.followers_count row) v (PubkeyStatsRow.notes_count row)
  | PubkeyStat.notes_count =>
      PubkeyStatsRow.mk (PubkeyStatsRow.followers_count row) (PubkeyStatsRow.following_count row) v
  end.

Definition get_event_stat (row : EventStatsRow.t) (stat : EventStat.t) : Z :=
  match stat with
  | EventStat.replies_count => EventStatsRow.replies_count row
  | EventStat.reposts_count => EventStatsRow.reposts_count row
  | EventStat.reactions_count => EventStatsRow.reactions_count row
  end.

Definition set_event_stat (row : EventStatsRow.t) (stat : EventStat.t) (v : Z)
    : EventStatsRow.t :=
  match stat with
  | EventStat.replies_count =>
      EventStatsRow.mk v (EventStatsRow.reposts_count row) (EventStatsRow.reactions_count row)
  | EventStat.reposts_count =>
      EventStatsRow.mk (EventStatsRow.replies_count row) v (EventStatsRow.reactions_count row)
  | EventStat.reactions_count =>
      EventStatsRow.mk (EventStatsRow.replies_count row) (EventStatsRow.reposts_count row) v
  end.

(** [insertInto(table).values(row).onConflict(oc => oc.column(key)
    .doUpdateSet({ [stat]: eb(stat, '+', diff) }))]. *)
Inductive StatsQuery : Type :=
| UpsertPubkeyStat (pubkey : string) (row : PubkeyStatsRow.t)
    (stat : PubkeyStat.t) (diff : Z)
| UpsertEventStat (eventId : string) (row : EventStatsRow.t)
    (stat : EventStat.t) (diff : Z).

Definition incrementPubkeyStatQuery (pubkey : string) (stat : PubkeyStat.t)
    (diff : Z) : StatsQuery :=
  let row := PubkeyStatsRow.mk 0 0 0 in
  UpsertPubkeyStat pubkey (set_pubkey_stat row stat diff) stat diff.

Definition incrementEventStatQuery (eventId : string) (stat : EventStat.t)
    (diff : Z) : StatsQuery :=
  let row := EventStatsRow.mk 0 0 0 in
  UpsertEventStat eventId (set_event_stat row stat diff) stat diff.

(** [query.execute()]: insert the row, or on a conflict on the key add
    [diff] to the one column of the stored row. *)
Definition execute_stats (q : StatsQuery) (db : DB.t) : DB.t :=
  match q with
  | UpsertPubkeyStat pubkey row stat diff =>
      let stored :=
        match DB.pubkey_stats db !! pubkey with
        | None => row
        | Some old => set_pubkey_stat old stat (get_pubkey_stat old stat + diff)
        end in
      DB.mk (DB.events db) (DB.tags db) (DB.events_fts db) (DB.users db)
        (<[pubkey := stored]> (DB.pubkey_stats db)) (DB.event_stats db)
  | UpsertEventStat eventId row stat diff =>
      let stored :=
        match DB.event_stats db !! eventId with
        | None => row
        | Some old => set_event_stat old stat (get_event_stat old stat + diff)
        end in
      DB.mk (DB.events db) (DB.tags db) (DB.events_fts db) (DB.users db)
        (DB.pubkey_stats db) (<[eventId := stored]> (DB.event_stats db))
  end.

(** [tags.find(([n]) => n === name)?.[1]]. *)
Definition findFirstTag (event : Event.t) (name : string) : option string :=
  match find (fun tag => bool_decide (head tag = Some name)) (Event.tags event) with
  | Some tag => tag !! 1%nat
  | None => None
  end.

(** The [switch] of [updateStatsQuery]; [None] is [undefined].  The test
    [firstE ? ... : undefined] is false for a missing and for an empty
    value. *)
Definition updateStatsQuery (event : Event.t) : option StatsQuery :=
  let firstE := findFirstTag event "e" in
  if Event.kind event =? 1 then
    Some (incrementPubkeyStatQuery (Event.pubkey event) PubkeyStat.notes_count 1)
  else if Event.kind event =? 6 then
    match firstE with
    | Some v => if truthy firstE
                then Some (incrementEventStatQuery v EventStat.reposts_count 1)
                else None
    | None => None
    end
  else if Event.kind event =? 7 then
    match firstE with
    | Some v => if truthy firstE
                then Some (incrementEventStatQuery v EventStat.reactions_count 1)
                else None
    | None => None
    end
  else None.

(** [updateStatsQuery(event)?.execute()]. *)
Definition updateStats (event : Event.t) (db : DB.t) : DB.t :=
  match updateStatsQuery event with
  | Some q => execute_stats q db
  | None => db
  end.

(** ** A concrete environment for the examples

    The theorems below hold for every [Env].  The examples need one to run
    on; this one follows the words of the spec for the two shape tests and
    uses a reader of flat JSON objects for the profile parser. *)

Definition is_hex_digit (c : ascii) : bool :=
  let n := nat_of_ascii c in
  (Nat.leb 48 n && Nat.leb n 57) || (Nat.leb 97 n && Nat.leb n 102).

(** Modelled from the spec: "value is a well-formed identifier
    (hash-shaped)", read as 64 lower-case hexadecimal digits. *)
Definition isNostrId_hex (s : string) : bool :=
  Nat.eqb (String.length s) 64 && forallb is_hex_digit (list_ascii_of_string s).

(** Modelled from the spec: "value is a well-formed URL", read for the
    examples as a string that starts with an http or https scheme. *)
Definition isURL_http (s : string) : bool :=
  String.prefix "http://" s || String.prefix "https://" s.

Definition dquote : ascii := ascii_of_nat 34.
Definition backslash : ascii := ascii_of_nat 92.

(** The characters up to the closing quote, and what follows it. *)
Fixpoint read_string (cs : list ascii) : option (string * list ascii) :=
  match cs with
  | [] => None
  | c :: cs' =>
      if Ascii.eqb c dquote then Some (EmptyString, cs')
      else if Ascii.eqb c backslash then None
      else match read_string cs' with
           | Some (s, rest) => Some (String c s, rest)
           | None => None
           end
  end.

Definition read_quoted (cs : list ascii) : option (string * list ascii) :=
  match cs with
  | c :: cs' => if Ascii.eqb c dquote then read_string cs' else None
  | [] => None
  end.

Fixpoint read_members (fuel : nat) (cs : list ascii) (acc : list (string * string))
    : option (list (string * string)) :=
  match fuel with
  | O => None
  | S fuel' =>
      match read_quoted cs with
      | Some (k, c1 :: r1) =>
          if Ascii.eqb c1 ":" then
            match read_quoted r1 with
            | Some (v, c2 :: r2) =>
                if Ascii.eqb c2 "," then read_members fuel' r2 (acc ++ [(k, v)])
                else if Ascii.eqb c2 "}" then
                  match r2 with
                  | [] => Some (acc ++ [(k, v)])
                  | _ => None
                  end
                else None
            | _ => None
            end
          else None
      | _ => None
      end
  end.

(** A flat JSON object of string members, without escapes or white space. *)
Definition read_object (s : string) : option (list (string * string)) :=
  match list_ascii_of_string s with
  | c :: cs =>
      if Ascii.eqb c "{" then
        match cs with
        | [c'] => if Ascii.eqb c' "}" then Some [] else None
        | _ => read_members (length cs) cs []
        end
      else None
  | [] => None
  end.

Definition member (key : string) (kvs : list (string * string)) : option string :=
  snd <$> find (fun kv => String.eqb (fst kv) key) kvs.

Definition parse_flat_profile (s : string) : string + MetaContent.t :=
  match read_object s with
  | Some kvs => inr (MetaContent.mk (member "name" kvs) (member "nip05" kvs)
                       (member "about" kvs))
  | None => inl "Invalid JSON"
  end.

Definition example_env : Env :=
  mkEnv isNostrId_hex isURL_http parse_flat_profile
    (fun search content => bool_decide (search = content)).

(** Example data. *)

Definition quoted (s : string) : string :=
  String dquote (s +:+ String dquote EmptyString).

Definition json_member (kv : string * string) : string :=
  quoted (fst kv) +:+ ":" +:+ quoted (snd kv).

Definition json_object (kvs : list (string * string)) : string :=
  "{" +:+ String.concat "," (map json_member kvs) +:+ "}".

Definition hex64 (c : ascii) : string :=
  string_of_list_ascii (replicate 64 c).

Definition id_a : string := hex64 "a".
Definition id_b : string := hex64 "b".

Definition remote : EventData.t := EventData.mk None.

(** ** Notions the properties are stated with *)

(** The number of tags of a list that carry the given name. *)
Definition count_named (name : string) (tags : list (list string)) : nat :=
  length (filter (fun tag => tag_name tag = name) tags).

(** The tags [indexTags] hands to the [tags] table; none when the
    filtering throws. *)
Definition indexed_tags (env : Env) (event : Event.t) (data : EventData.t)
    : list (list string) :=
  match filterIndexableTags env event data with
  | Ok tags => tags
  | Err _ => []
  end.

(** The caps of the policy table. *)
Definition tag_cap (name : string) : option nat :=
  if String.eqb name "d" then Some 1%nat
  else if String.eqb name "e" then Some 15%nat
  else if String.eqb name "p" then Some 15%nat
  else if String.eqb name "q" then Some 1%nat
  else if String.eqb name "t" then Some 5%nat
  else if String.eqb name "proxy" then Some 1%nat
  else if String.eqb name "media" then Some 4%nat
  else None.

(** The rows of the [tags] table for one [(event_id, tag)] pair. *)
Definition count_rows (id name : string) (rows : list TagRow.t) : nat :=
  length (filter (fun r => TagRow.event_id r = id ∧ TagRow.tag r = name) rows).

(** No tag of the list makes its condition throw: a ['t'] tag has a value,
    and no tag is named after one of the three throwing inherited
    properties. *)
Definition tag_is_safe (tag : list string) : bool :=
  negb (mem (tag_name tag) inherited_throwing)
  && (negb (String.eqb (tag_name tag) "t") || bool_decide (is_Some (tag_value tag))).

Definition tags_are_safe (tags : list (list string)) : bool :=
  forallb tag_is_safe tags.

(** The tables after the three writes of [insertEvent] for an event whose
    indexable tags are [tags] and whose search content is [searchContent]. *)
Definition written (db : DB.t) (event : Event.t) (tags : list (list string))
    (searchContent : string) : DB.t :=
  DB.mk (DB.events db ++ [event])
    (DB.tags db ++ map (tag_row event) tags)
    (DB.events_fts db ++
       (if String.eqb searchContent "" then []
        else [FtsRow.mk (Event.id event) (String.substring 0 1000 searchContent)]))
    (DB.users db) (DB.pubkey_stats db) (DB.event_stats db).

(** No table holds a row for the event id. *)
Definition no_rows_for (id : string) (db : DB.t) : Prop :=
  (id ∉ map Event.id (DB.events db))
  ∧ (id ∉ map TagRow.event_id (DB.tags db))
  ∧ (id ∉ map FtsRow.id (DB.events_fts db)).

(** A tag name whose condition holds only while fewer than [cap] tags of
    that name have been seen. *)
Definition capped (env : Env) (event : Event.t) (data : EventData.t)
    (name : string) (cap : nat) : Prop :=
  forall count value,
    shouldIndex env event data name count value = Ok true -> (count < cap)%nat.


(** An ['e'] tag that passes every test but the occurrence count: its value
    is a well-formed identifier, not empty and shorter than 200. *)
Definition valid_e_tag (env : Env) (tag : list string) : bool :=
  match tag_value tag with
  | Some v => isNostrId env v && negb (String.eqb v "") && Nat.ltb (String.length v) 200
  | None => false
  end.

(** A ['t'] tag that passes every test but the occurrence count: its value
    is not empty and shorter than 50. *)
Definition valid_t_tag (tag : list string) : bool :=
  match tag_value tag with
  | Some v => negb (String.eqb v "") && Nat.ltb (String.length v) 50
  | None => false
  end.


(** The three profile fields in the order the search content lists them. *)
Definition profile_fields (meta : MetaContent.t) : list (option string) :=
  [MetaContent.name meta; MetaContent.nip05 meta; MetaContent.about meta].

(** The spec's words for the profile search content: the fields "joined
    with newlines skipping absent ones", that is every field that is
    present, empty or not. *)
Definition join_present (meta : MetaContent.t) : string :=
  String.concat newline (omap (fun v => v) (profile_fields meta)).

(** The fields that are present and not empty, joined with newlines. *)
Definition join_nonempty (meta : MetaContent.t) : string :=
  String.concat newline
    (filter (fun s => s <> "") (omap (fun v => v) (profile_fields meta))).


(** The counters stored for a key, all zero when the table has no row. *)
Definition pubkey_counters (db : DB.t) (pubkey : string) : PubkeyStatsRow.t :=
  default (PubkeyStatsRow.mk 0 0 0) (DB.pubkey_stats db !! pubkey).

Definition event_counters (db : DB.t) (eventId : string) : EventStatsRow.t :=
  default (EventStatsRow.mk 0 0 0) (DB.event_stats db !! eventId).

(** The two states hold the same rows outside the two stats tables. *)
Definition same_store (db db' : DB.t) : Prop :=
  DB.events db' = DB.events db
  /\ DB.tags db' = DB.tags db
  /\ DB.events_fts db' = DB.events_fts db
  /\ DB.users db' = DB.users db.


(** [{ ...filter, local }] and [{ ...filter, limit: undefined }]. *)
Definition with_local (local : option bool) (f : DittoFilter.t) : DittoFilter.t :=
  DittoFilter.mk (DittoFilter.ids f) (DittoFilter.kinds f) (DittoFilter.authors f)
    (DittoFilter.since f) (DittoFilter.until f) (DittoFilter.limit f)
    (DittoFilter.tag_keys f) local (DittoFilter.search f).

Definition without_limit (f : DittoFilter.t) : DittoFilter.t :=
  DittoFilter.mk (DittoFilter.ids f) (DittoFilter.kinds f) (DittoFilter.authors f)
    (DittoFilter.since f) (DittoFilter.until f) None
    (DittoFilter.tag_keys f) (DittoFilter.local f) (DittoFilter.search f).

(** The author of the event is in the [users] table. *)
Definition is_local (db : DB.t) (ev : Event.t) : bool :=
  bool_decide (Event.pubkey ev ∈ DB.users db).

(** The clauses [getFilterQuery] adds, part by part. *)
Definition opt_where {A : Type} (v : option A) (w : A -> Where) : list Where :=
  match v with
  | Some a => [w a]
  | None => []
  end.

Definition base_wheres (f : DittoFilter.t) : list Where :=
  opt_where (DittoFilter.ids f) Id_in
  ++ opt_where (DittoFilter.kinds f) Kind_in
  ++ opt_where (DittoFilter.authors f) Pubkey_in
  ++ opt_where (DittoFilter.since f) CreatedAt_ge
  ++ opt_where (DittoFilter.until f) CreatedAt_le.

Definition tag_joins (keys : list (string * list string)) : list Join :=
  map (fun _ => LeftJoin_tags) keys.

Definition tag_wheres (keys : list (string * list string)) : list Where :=
  flat_map (fun kv => [Tag_eq (fst kv); TagValue_in (snd kv)]) keys.

Definition local_joins (local : option bool) : list Join :=
  match local with
  | Some true => [InnerJoin_users]
  | Some false => [LeftJoin_users]
  | None => []
  end.

Definition local_wheres (local : option bool) : list Where :=
  match local with
  | Some false => [UsersPubkey_is_null]
  | _ => []
  end.

Definition search_joins (f : DittoFilter.t) : list Join :=
  if truthy (DittoFilter.search f) then [InnerJoin_events_fts] else [].

Definition search_wheres (f : DittoFilter.t) : list Where :=
  if truthy (DittoFilter.search f)
  then [FtsContent_match (default "" (DittoFilter.search f))]
  else [].

(** The copies of one event that a [select] yields: one per joined row
    that passes the [where] clauses. *)
Definition event_rows (env : Env) (db : DB.t) (joins : list Join)
    (wheres : list Where) (ev : Event.t) : list Event.t :=
  map jr_event
    (filter (fun row => forallb (eval_where env row) wheres = true)
       (joined_rows db joins ev)).

(** The limit in force for a query with one filter: that of the options,
    else that of the filter. *)
Definition limit_in_force (opts : GetFiltersOpts.t) (f : DittoFilter.t) : option nat :=
  match GetFiltersOpts.limit opts with
  | Some n => Some n
  | None => DittoFilter.limit f
  end.

(** Newest first: every event is at least as new as all that follow. *)
Definition sorted_desc (l : list Event.t) : Prop :=
  StronglySorted (fun x y => Event.created_at y <= Event.created_at x) l.

(** The joins and the [where] clauses of the query of one filter. *)
Definition filter_joins (f : DittoFilter.t) : list Join :=
  tag_joins (DittoFilter.tag_keys f) ++ local_joins (DittoFilter.local f)
  ++ search_joins f.

Definition filter_wheres (f : DittoFilter.t) : list Where :=
  base_wheres f ++ tag_wheres (DittoFilter.tag_keys f)
  ++ local_wheres (DittoFilter.local f) ++ search_wheres f.

(** The [tags] table is joined more than once. *)
Definition ambiguous (joins : list Join) : bool :=
  Nat.leb 2 (length (filter (fun j => j = LeftJoin_tags) joins)).

(** The stores the two writers of this module can produce from the empty
    store: any sequence of [insertEvent] and [updateStats] calls, whatever
    the storage engine raises, with event data that satisfy [allowed]. *)
Inductive reachable (env : Env) (allowed : EventData.t -> Prop) : DB.t -> Prop :=
| reachable_empty : reachable env allowed DB.empty
| reachable_insert faults event data db :
    reachable env allowed db ->
    allowed data ->
    reachable env allowed (snd (insertEvent env faults event data db))
| reachable_stats event db :
    reachable env allowed db ->
    reachable env allowed (updateStats event db).


(** A filter that constrains the events by their own columns and by the
    users table only: no tag key, no search, no limit of its own. *)
Definition plain (f : DittoFilter.t) : bool :=
  bool_decide (DittoFilter.tag_keys f = [])
  && negb (truthy (DittoFilter.search f))
  && bool_decide (DittoFilter.limit f = None).

Definition among {A : Type} (test : A -> bool) (v : option (list A)) : bool :=
  match v with
  | Some l => existsb test l
  | None => true
  end.

Definition bound (test : Z -> bool) (v : option Z) : bool :=
  match v with
  | Some t => test t
  | None => true
  end.

(** The spec's words for one plain filter: [ids], [kinds] and [authors]
    are set-membership tests, [since] and [until] inclusive bounds, and
    [local] asks for the author to be, or not to be, in the users table. *)
Definition passes (db : DB.t) (f : DittoFilter.t) (ev : Event.t) : bool :=
  among (String.eqb (Event.id ev)) (DittoFilter.ids f)
  && among (Z.eqb (Event.kind ev)) (DittoFilter.kinds f)
  && among (String.eqb (Event.pubkey ev)) (DittoFilter.authors f)
  && bound (fun since => since <=? Event.created_at ev) (DittoFilter.since f)
  && bound (fun until => Event.created_at ev <=? until) (DittoFilter.until f)
  && match DittoFilter.local f with
     | Some local => Bool.eqb (is_local db ev) local
     | None => true
     end.

(** ** Example events and stores *)

Definition no_opts : GetFiltersOpts.t := GetFiltersOpts.mk None.





(** Notes with 20 [e] tags and 20 [t] tags: well-formed, and not. *)
Definition note_20e_20t : Event.t :=
  Event.mk id_a 1 id_b "hello"
    (replicate 20 ["e"; id_b] ++ replicate 20 ["t"; "nostr"]) 100 "sig".

Definition note_20e_malformed : Event.t :=
  Event.mk id_a 1 id_b "hello" (replicate 20 ["e"; "x"]) 100 "sig".

Definition note_20t_empty : Event.t :=
  Event.mk id_a 1 id_b "hello" (replicate 20 ["t"; ""]) 100 "sig".

(** A note of 2000 characters. *)
Definition note_2000 : Event.t :=
  Event.mk id_a 1 id_b (string_of_list_ascii (replicate 2000 "a"%char)) [] 100 "sig".

(** A note whose one [e] tag carries a value of 250 characters. *)
Definition long_value : string := string_of_list_ascii (replicate 250 "a"%char).

Definition note_long_e : Event.t :=
  Event.mk id_a 1 id_b "hello" [["e"; long_value]] 100 "sig".

(** A plain note with one [e] tag, and the store that holds it. *)
Definition note_e : Event.t :=
  Event.mk id_a 1 id_b "hello" [["e"; id_b]] 100 "sig".

Definition store_with_note_e : DB.t :=
  snd (insertEvent example_env no_faults note_e remote DB.empty).



(** Profiles: one whose name is the empty string, one that is not JSON,
    and one that is not JSON and has a ['t'] tag without a value. *)
Definition profile_empty_name : Event.t :=
  Event.mk id_a 0 id_b (json_object [("name", ""); ("about", "x")]) [] 100 "sig".

Definition profile_not_json : Event.t :=
  Event.mk id_a 0 id_b "not json" [] 100 "sig".


(** A repost whose first [e] tag has an empty value, and a reaction to the
    event [id_b]. *)
Definition repost_of_nothing : Event.t :=
  Event.mk id_a 6 id_b "" [["e"; ""]] 100 "sig".

Definition reaction_to_b : Event.t :=
  Event.mk id_a 7 id_b "+" [["e"; id_b]] 100 "sig".

(** A note with two hashtags, the store that holds it, and the filter of
    the hashtag timeline asking for either. *)
Definition note_two_hashtags : Event.t :=
  Event.mk id_a 1 id_b "gm" [["t"; "nostr"]; ["t"; "bitcoin"]] 100 "sig".

Definition store_with_hashtags : DB.t :=
  snd (insertEvent example_env no_faults note_two_hashtags remote DB.empty).

Definition hashtag_filter : DittoFilter.t :=
  DittoFilter.mk None (Some [1]) None None None None
    [("t", ["nostr"; "bitcoin"])] None None.

(** Users = {A}; one note by A and one by B; the filter [authors: [A, B]]. *)
Definition note_by_a : Event.t := Event.mk (hex64 "1") 1 id_a "by a" [] 200 "sig".
Definition note_by_b : Event.t := Event.mk (hex64 "2") 1 id_b "by b" [] 100 "sig".

Definition store_a_local : DB.t :=
  DB.mk [note_by_a; note_by_b] [] [] [id_a] ∅ ∅.

Definition authors_a_b : DittoFilter.t :=
  DittoFilter.mk None None (Some [id_a; id_b]) None None None [] None None.


(** ** Deleting and counting

    [deleteFilters] and [countFilters] of [src/db/events.ts] reuse the
    query of [getFiltersQuery] with other selected columns:
    [query.clearSelect().select('id')] and [query.clearSelect().select(
    count('id') as count)].  Both calls replace the columns of the first
    [select] of the query only; its joins, [where] clauses, [orderBy] and
    [limit] stay, and so do the [union] operands with their seven columns.

    The storage engine then rejects, with its generic error code 1,
    - a query that has [union] operands, whose two sides no longer select
      the same number of columns;
    - a query that joins [events_fts], where the bare column [id] names a
      column of [events] and one of [events_fts] ([tags] and [users] have
      no column of that name);
    - a query that joins [tags] twice (as for [getFilters]). *)

(** The joined rows of one [select] that pass its [where] clauses. *)
Definition select_joined (env : Env) (db : DB.t) (joins : list Join)
    (wheres : list Where) : Result (list JoinedRow) :=
  if Nat.leb 2 (length (filter (fun j => j = LeftJoin_tags) joins)) then
    Err (SqliteError 1)
  else
    Ok (filter (fun row => forallb (eval_where env row) wheres = true)
          (ev ← DB.events db; joined_rows db joins ev)).

(** [select id from events ... order by events.created_at desc limit n]. *)
Definition execute_select_id (env : Env) (db : DB.t) (q : Query)
    : Result (list string) :=
  match q with
  | Select joins wheres limit unions =>
      match unions with
      | _ :: _ => Err (SqliteError 1)
      | [] =>
          if has_join InnerJoin_events_fts joins then Err (SqliteError 1)
          else
            let* rows := select_joined env db joins wheres in
            Ok (map Event.id (apply_limit limit (sort_desc (map jr_event rows))))
      end
  end.

(** [select count(id) as count from events ... order by events.created_at
    desc limit n]: an aggregate without [group by] yields one row, which
    the [limit] keeps unless it is 0. *)
Definition execute_select_count (env : Env) (db : DB.t) (q : Query)
    : Result (list nat) :=
  match q with
  | Select joins wheres limit unions =>
      match unions with
      | _ :: _ => Err (SqliteError 1)
      | [] =>
          if has_join InnerJoin_events_fts joins then Err (SqliteError 1)
          else
            let* rows := select_joined env db joins wheres in
            Ok (apply_limit limit [length rows])
      end
  end.

(** [trx.deleteFrom('events_fts').where('id', 'in', () => query)]: the
    rows whose [id] the subquery yields go. *)
Definition deleteFrom_events_fts (ids : list string) (db : DB.t) : DB.t :=
  DB.mk (DB.events db) (DB.tags db)
    (filter (fun r => FtsRow.id r ∉ ids) (DB.events_fts db))
    (DB.users db) (DB.pubkey_stats db) (DB.event_stats db).

(** [trx.deleteFrom('events').where('id', 'in', () => query)].  The source
    deletes no row of [tags]; whether the schema does it for a deleted
    event (a foreign key on [tags.event_id] that cascades) is not visible
    in the source, and [cascade] stands for either kind of schema. *)
Definition deleteFrom_events (cascade : bool) (ids : list string) (db : DB.t) : DB.t :=
  DB.mk (filter (fun ev => Event.id ev ∉ ids) (DB.events db))
    (if cascade then filter (fun r => TagRow.event_id r ∉ ids) (DB.tags db)
     else DB.tags db)
    (DB.events_fts db) (DB.users db) (DB.pubkey_stats db) (DB.event_stats db).

(** The number of rows the [delete] on [events] removed
    ([numDeletedRows]). *)
Definition numDeletedRows (before after : DB.t) : nat :=
  length (DB.events before) - length (DB.events after).

(** A transaction whose callback returns a value. *)
Definition transaction_returning {A : Type} (body : DB.t -> Result (A * DB.t))
    (db : DB.t) : Result A * DB.t :=
  match body db with
  | Ok (a, db') => (Ok a, db')
  | Err e => (Err e, db)
  end.

(** Delete events based on filters from the database.  The subquery is
    evaluated by each of the two statements, the second one on the tables
    the first one left. *)
Definition deleteFilters (env : Env) (cascade : bool) (filters : list DittoFilter.t)
    (db : DB.t) : Result (list nat) * DB.t :=
  if Nat.eqb (length filters) 0 then (Ok [], db)
  else
    transaction_returning
      (fun db0 =>
         let* query := getFiltersQuery filters in
         let* ids := execute_select_id env db0 query in
         let db1 := deleteFrom_events_fts ids db0 in
         let* ids' := execute_select_id env db1 query in
         let db2 := deleteFrom_events cascade ids' db1 in
         Ok ([numDeletedRows db1 db2], db2))
      db.

(** Get number of events that would be returned by filters.
    [const [{ count }] = rows] throws when there is no row. *)
Definition countFilters (env : Env) (filters : list DittoFilter.t) (db : DB.t)
    : Result nat :=
  if Nat.eqb (length filters) 0 then Ok 0%nat
  else
    let* query := getFiltersQuery filters in
    let* rows := execute_select_count env db query in
    match rows with
    | count :: _ => Ok count
    | [] => Err (TypeError "Cannot destructure property 'count' of undefined")
    end.

(** ** The rows of the index tables and the events they belong to *)

(** The tag row is the row of a tag that the filter kept for a stored
    event. *)
Definition tag_row_owned (env : Env) (db : DB.t) (r : TagRow.t) : Prop :=
  exists ev data tags tag,
    ev ∈ DB.events db
    /\ filterIndexableTags env ev data = Ok tags
    /\ tag ∈ tags
    /\ r = tag_row ev tag.

(** The search row holds the start of the search content of a stored
    event. *)
Definition fts_row_owned (env : Env) (db : DB.t) (r : FtsRow.t) : Prop :=
  exists ev searchContent,
    ev ∈ DB.events db
    /\ buildSearchContent env ev = Ok searchContent
    /\ searchContent <> ""
    /\ r = FtsRow.mk (Event.id ev) (String.substring 0 1000 searchContent).

Definition rows_owned (env : Env) (db : DB.t) : Prop :=
  NoDup (map Event.id (DB.events db))
  /\ NoDup (map FtsRow.id (DB.events_fts db))
  /\ (forall r, r ∈ DB.tags db -> tag_row_owned env db r)
  /\ (forall r, r ∈ DB.events_fts db -> fts_row_owned env db r).

(** The tag names that have a condition of their own in [tagConditions]. *)
Definition policy_names : list string :=
  ["d"; "e"; "media"; "p"; "proxy"; "q"; "t"].

(** A store reached without restriction on the event data. *)
Definition any_data : EventData.t -> Prop := fun _ => True.

(** A note with a tag named after an inherited property of the policy
    object. *)
Definition note_constructor_tag : Event.t :=
  Event.mk id_a 1 id_b "hello" [["constructor"; "x"]; ["r"; "https://example.com"]]
    100 "sig".

(** [{ ids }]: the filter that asks for the events with the given ids. *)
Definition ids_filter (ids : list string) : DittoFilter.t :=
  DittoFilter.mk (Some ids) None None None None None [] None None.

(** [{ search: 'hello' }]. *)
Definition search_hello : DittoFilter.t :=
  DittoFilter.mk None None None None None None [] None (Some "hello").

(** [{ authors: [A, B], limit: 1 }]. *)
Definition authors_a_b_limit_1 : DittoFilter.t :=
  DittoFilter.mk None None (Some [id_a; id_b]) None None (Some 1%nat) [] None None.

(** [{ authors: [A, B], limit: 0 }]. *)
Definition authors_a_b_limit_0 : DittoFilter.t :=
  DittoFilter.mk None None (Some [id_a; id_b]) None None (Some 0%nat) [] None None.

(** ** A run of updateStats *)

(** [updateStats] called for each event of a list, in the order of the
    list. *)
Definition updateStats_each (events : list Event.t) (db : DB.t) : DB.t :=
  fold_left (fun db event => updateStats event db) events db.

(** The event is a kind-1 note of the author. *)
Definition is_note_by (pubkey : string) (ev : Event.t) : bool :=
  (Event.kind ev =? 1) && String.eqb (Event.pubkey ev) pubkey.

(** The event has the given kind, and the value of its first [e] tag is
    the id, which is not empty. *)
Definition refers_to (kind : Z) (eventId : string) (ev : Event.t) : bool :=
  (Event.kind ev =? kind)
  && bool_decide (findFirstTag ev "e" = Some eventId)
  && negb (String.eqb eventId "").

Definition count_of {A : Type} (test : A -> bool) (l : list A) : Z :=
  Z.of_nat (length (filter (fun x => test x = true) l)).

(** The store that holds the note with an [e] tag, after the stats of a
    reaction to the event [id_b] were counted. *)
Definition store_with_reaction : DB.t :=
  updateStats reaction_to_b store_with_note_e.

(** A reaction whose first [e] tag has no value and whose second names the
    event [id_b]. *)
Definition reaction_first_e_bare : Event.t :=
  Event.mk id_a 7 id_b "+" [["p"; id_b]; ["e"]; ["e"; id_b]] 100 "sig".

(** ** Users ([src/db/users.ts])

    A user is stored as an event of kind 30361 signed with the key of the
    server.  What this module takes from others is gathered in [Conf] (the
    configuration read from [config.ts]) and in [UsersEnv] (the signer, the
    pipeline and the query of the store). *)

(** [Conf.pubkey], [Conf.url.origin], [Conf.url.host] and
    [Conf.uploader], which may be unset. *)
Module Conf.
Record t : Type := mk {
  pubkey : string;
  url_origin : string;
  url_host : string;
  uploader : option string
}.
End Conf.

(** A JavaScript [Date] is its time value in milliseconds, [None] when the
    Date is invalid (its time value is [NaN]).  The time value of a valid
    Date is at most [max_time] away from the epoch. *)
Definition Date : Type := option Z.

Definition max_time : Z := 8640000000000000.

(** [new Date(ms)], [ms] being a number or [NaN]. *)
Definition new_Date (ms : option Z) : Date :=
  match ms with
  | Some t => if Z.abs t <=? max_time then Some t else None
  | None => None
  end.

(** [interface User]. *)
Module Users.
Record User : Type := mkUser {
  pubkey : string;
  inserted_at : Date;
  admin : bool
}.
End Users.

(** What [signEvent] is given: an event without [id], [pubkey] and [sig].
    [created_at] is a number that may be [NaN] ([None]). *)
Module EventTemplate.
Record t : Type := mk {
  kind : Z;
  tags : list (list string);
  content : string;
  created_at : option Z
}.
End EventTemplate.

Record UsersEnv : Type := mkUsersEnv {
  (** [new AdminSigner().signEvent]. *)
  signEvent : EventTemplate.t -> Result Event.t;
  (** [pipeline.handleEvent]. *)
  handleEvent : Event.t -> Result unit;
  (** [Storages.db.query]. *)
  db_query : list DittoFilter.t -> Result (list Event.t)
}.

(** [Math.floor(date.getTime() / 1000)]; the division of two numbers of
    this size is exact enough for [Math.floor] to give the integer
    quotient. *)
Definition seconds_of (date : Date) : option Z :=
  match date with
  | Some t => Some (t / 1000)
  | None => None
  end.

Definition role_of (admin : bool) : string :=
  if admin then "admin" else "user".

Definition buildUserEvent (conf : Conf.t) (uenv : UsersEnv) (user : Users.User)
    : Result Event.t :=
  signEvent uenv
    (EventTemplate.mk 30361
       [["d"; Users.pubkey user];
        ["role"; role_of (Users.admin user)];
        ["origin"; Conf.url_origin conf];
        ["alt"; "User's account was updated by the admins of " +:+ Conf.url_host conf]]
       ""
       (seconds_of (Users.inserted_at user))).

(** Adds a user to the database. *)
Definition insertUser (conf : Conf.t) (uenv : UsersEnv) (user : Users.User)
    : Result unit :=
  let* event := buildUserEvent conf uenv user in
  handleEvent uenv event.

(** [Partial<User>] as [Object.entries] lists it: the keys that are
    present, in the order of the object, each with its value, which may be
    [undefined]. *)
Inductive UserEntry : Type :=
| entry_pubkey (value : option string)
| entry_inserted_at (value : option Date)
| entry_admin (value : option bool).

(** [filter['#' + key] = value]: the key keeps its place when the filter
    has it already and is added last otherwise. *)
Fixpoint set_tag_key (key : string) (value : list string)
    (keys : list (string * list string)) : list (string * list string) :=
  match keys with
  | [] => [(key, value)]
  | (k, v) :: rest =>
      if String.eqb k key then (k, value) :: rest
      else (k, v) :: set_tag_key key value rest
  end.

Definition with_tag_key (key : string) (value : list string) (f : DittoFilter.t)
    : DittoFilter.t :=
  DittoFilter.mk (DittoFilter.ids f) (DittoFilter.kinds f) (DittoFilter.authors f)
    (DittoFilter.since f) (DittoFilter.until f) (DittoFilter.limit f)
    (set_tag_key key value (DittoFilter.tag_keys f))
    (DittoFilter.local f) (DittoFilter.search f).

(** One turn of the loop of [findUser]: [String(value)] of [undefined] is
    ["undefined"], and [undefined] is falsy. *)
Definition findUser_entry (f : DittoFilter.t) (entry : UserEntry) : DittoFilter.t :=
  match entry with
  | entry_pubkey value => with_tag_key "d" [default "undefined" value] f
  | entry_admin value => with_tag_key "role" [role_of (default false value)] f
  | entry_inserted_at _ => f
  end.

(** The filter [findUser] queries the store with. *)
Definition findUser_filter (conf : Conf.t) (user : list UserEntry) : DittoFilter.t :=
  fold_left findUser_entry user
    (DittoFilter.mk None (Some [30361]) (Some [Conf.pubkey conf]) None None
       (Some 1%nat) [] None None).

(** What [findUser] returns for an event.  [pubkey] is
    [event.tags.find(([name]) => name === 'd')?.[1]!], which is [undefined]
    when the event has no such tag or the tag has no value. *)
Module FoundUser.
Record t : Type := mk {
  pubkey : option string;
  inserted_at : Date;
  admin : bool
}.
End FoundUser.

Definition found_user (event : Event.t) : FoundUser.t :=
  FoundUser.mk (findFirstTag event "d")
    (new_Date (Some (Event.created_at event * 1000)))
    (bool_decide (findFirstTag event "role" = Some "admin")).

(** Finds a single user based on one or more properties. *)
Definition findUser (conf : Conf.t) (uenv : UsersEnv) (user : list UserEntry)
    : Result (option FoundUser.t) :=
  let filter := findUser_filter conf user in
  let* events := db_query uenv [filter] in
  match events with
  | event :: _ => Ok (Some (found_user event))
  | [] => Ok None
  end.

(** A signer signs what it is given: the event it returns has the kind,
    the tags, the content and the timestamp of the template. *)
Definition signs_template (uenv : UsersEnv) : Prop :=
  forall template event,
    signEvent uenv template = Ok event ->
    Event.kind event = EventTemplate.kind template
    /\ Event.tags event = EventTemplate.tags template
    /\ Event.content event = EventTemplate.content template
    /\ Some (Event.created_at event) = EventTemplate.created_at template.

(** An environment for the examples: the signer fills in an id, the key of
    the server and a signature; the pipeline accepts every event; the store
    holds the events of a list and answers with all of them. *)
Definition example_conf : Conf.t :=
  Conf.mk id_a "https://ditto.example" "ditto.example" None.

Definition example_signEvent (template : EventTemplate.t) : Result Event.t :=
  match EventTemplate.created_at template with
  | Some created_at =>
      Ok (Event.mk id_b (EventTemplate.kind template) id_a
            (EventTemplate.content template) (EventTemplate.tags template)
            created_at "sig")
  | None => Err (OtherError "invalid created_at")
  end.

Definition example_uenv (stored : list Event.t) : UsersEnv :=
  mkUsersEnv example_signEvent (fun _ => Ok tt) (fun _ => Ok stored).

(** An administrator registered at 1700000000123 milliseconds. *)
Definition admin_alex : Users.User :=
  Users.mkUser (hex64 "c") (Some 1700000000123) true.

Definition admin_alex_event : Event.t :=
  Event.mk id_b 30361 id_a ""
    [["d"; hex64 "c"]; ["role"; "admin"]; ["origin"; "https://ditto.example"];
     ["alt"; "User's account was updated by the admins of ditto.example"]]
    1700000000 "sig".

(** ** Streaming topics ([topicToFilter] of the streaming controller) *)

(** [streamSchema]: the stream names the controller accepts. *)
Module Stream.
Inductive t : Type :=
| public
| public_media
| public_local
| public_local_media
| public_remote
| public_remote_media
| hashtag
| hashtag_local
| user
| user_notification
| list
| direct.
End Stream.

Definition stream_name (stream : Stream.t) : string :=
  match stream with
  | Stream.public => "public"
  | Stream.public_media => "public:media"
  | Stream.public_local => "public:local"
  | Stream.public_local_media => "public:local:media"
  | Stream.public_remote => "public:remote"
  | Stream.public_remote_media => "public:remote:media"
  | Stream.hashtag => "hashtag"
  | Stream.hashtag_local => "hashtag:local"
  | Stream.user => "user"
  | Stream.user_notification => "user:notification"
  | Stream.list => "list"
  | Stream.direct => "direct"
  end.

Definition streams : list Stream.t :=
  [Stream.public; Stream.public_media; Stream.public_local;
   Stream.public_local_media; Stream.public_remote; Stream.public_remote_media;
   Stream.hashtag; Stream.hashtag_local; Stream.user; Stream.user_notification;
   Stream.list; Stream.direct].

(** [streamSchema.optional().catch(undefined).parse(c.req.query('stream'))]:
    one of the names, and [undefined] for anything else. *)
Definition parse_stream (value : option string) : option Stream.t :=
  match value with
  | Some name => find (fun stream => String.eqb (stream_name stream) name) streams
  | None => None
  end.

(** [{ kinds: [1, 6], ... }]: the filters of [topicToFilter] differ in
    their authors, their [#t] key and their search text. *)
Definition stream_filter (authors : option (list string))
    (tag_keys : list (string * list string)) (search : option string)
    : DittoFilter.t :=
  DittoFilter.mk None (Some [1; 6]) authors None None None tag_keys None search.

(** [topicToFilter(topic, query, pubkey)].  Of [query] the function reads
    [query.tag] only; [getFeedPubkeys] (of [queries.ts]) is a parameter and
    may reject. *)
Definition topicToFilter (conf : Conf.t)
    (getFeedPubkeys : string -> Result (list string))
    (topic : Stream.t) (query_tag : option string) (pubkey : option string)
    : Result (option DittoFilter.t) :=
  let host := Conf.url_host conf in
  match topic with
  | Stream.public => Ok (Some (stream_filter None [] None))
  | Stream.public_local =>
      Ok (Some (stream_filter None [] (Some ("domain:" +:+ host))))
  | Stream.hashtag =>
      match query_tag with
      | Some tag =>
          if truthy query_tag then Ok (Some (stream_filter None [("t", [tag])] None))
          else Ok None
      | None => Ok None
      end
  | Stream.hashtag_local =>
      match query_tag with
      | Some tag =>
          if truthy query_tag
          then Ok (Some (stream_filter None [("t", [tag])] (Some ("domain:" +:+ host))))
          else Ok None
      | None => Ok None
      end
  | Stream.user =>
      match pubkey with
      | Some pk =>
          if truthy pubkey
          then let* authors := getFeedPubkeys pk in
               Ok (Some (stream_filter (Some authors) [] None))
          else Ok None
      | None => Ok None
      end
  | _ => Ok None
  end.

(** The topics [topicToFilter] has a case for. *)
Definition served_streams : list Stream.t :=
  [Stream.public; Stream.public_local; Stream.hashtag; Stream.hashtag_local;
   Stream.user].

(** The start of [socket.onopen]: the filter the socket subscribes to, and
    [None] when the handler returns before it subscribes ([if (!stream)
    return] and [if (!filter) return]).  [stream] is the [stream] parameter
    of the request as the controller parsed it. *)
Definition onopen_filter (conf : Conf.t)
    (getFeedPubkeys : string -> Result (list string))
    (stream : option string) (query_tag : option string) (pubkey : option string)
    : Result (option DittoFilter.t) :=
  match parse_stream stream with
  | Some topic => topicToFilter conf getFeedPubkeys topic query_tag pubkey
  | None => Ok None
  end.

(** A feed for the examples: the viewer and the author [id_b]. *)
Definition example_feed (pubkey : string) : Result (list string) :=
  Ok [pubkey; id_b].

(** ** The search store ([src/storages/search-store.ts]) *)

(** What [query] is given besides the filters: whether [opts.signal] is
    aborted, and [opts.limit]. *)
Module QueryOpts.
Record t : Type := mk { aborted : bool; limit : option nat }.
End QueryOpts.

(** [NStore]: the two methods of the interface that this module
    implements and calls. *)
Record NStore : Type := mkNStore {
  store_event : Event.t -> Result unit;
  store_query : list DittoFilter.t -> QueryOpts.t -> Result (list Event.t)
}.

(** [NRelay1] as [query] sees it: whether its socket is open
    ([socket.readyState === WebSocket.OPEN]) and what it answers. *)
Record NRelay1 : Type := mkNRelay1 {
  socket_open : bool;
  relay_query : list DittoFilter.t -> QueryOpts.t -> Result (list Event.t)
}.

(** What the module imports: [normalizeFilters] (of [filter.ts]),
    [abortError()] (of [utils/abort.ts]), the constructor of [NRelay1] and
    [hydrateEvents] (of [storages/hydrate.ts]), whose [storage] is the
    hydrator of the store, [None] standing for the store itself. *)
Record SearchEnv : Type := mkSearchEnv {
  normalizeFilters : list DittoFilter.t -> list DittoFilter.t;
  abortError : Error;
  NRelay1_new : string -> NRelay1;
  hydrateEvents : list Event.t -> option NStore -> Result (list Event.t)
}.

Module SearchStoreOpts.
Record t : Type := mk {
  relay : option string;
  fallback : NStore;
  hydrator : option NStore
}.
End SearchStoreOpts.

(** The private fields of [SearchStore]; [hydrator] is [None] for
    [opts.hydrator ?? this]. *)
Module SearchStore.
Record t : Type := mk {
  fallback : NStore;
  hydrator : option NStore;
  relay : option NRelay1
}.
End SearchStore.

(** The constructor: a relay is made only for a relay URL that is
    truthy. *)
Definition SearchStore_new (senv : SearchEnv) (opts : SearchStoreOpts.t)
    : SearchStore.t :=
  SearchStore.mk (SearchStoreOpts.fallback opts) (SearchStoreOpts.hydrator opts)
    (match SearchStoreOpts.relay opts with
     | Some url =>
         if truthy (SearchStoreOpts.relay opts) then Some (NRelay1_new senv url)
         else None
     | None => None
     end).

Definition SearchStore_event (store : SearchStore.t) (event : Event.t) : Result unit :=
  Err (OtherError "EVENT not implemented.").

Definition SearchStore_query (senv : SearchEnv) (store : SearchStore.t)
    (filters : list DittoFilter.t) (opts : QueryOpts.t) : Result (list Event.t) :=
  let filters := normalizeFilters senv filters in
  if QueryOpts.aborted opts then Err (abortError senv)
  else if Nat.eqb (length filters) 0 then Ok []
  else
    match SearchStore.relay store with
    | Some relay =>
        if socket_open relay then
          let* events := relay_query relay filters opts in
          hydrateEvents senv events (SearchStore.hydrator store)
        else store_query (SearchStore.fallback store) filters opts
    | None => store_query (SearchStore.fallback store) filters opts
    end.

(** ** The configured uploader ([src/uploaders/config.ts]) *)

(** [Uploader] (of [uploaders/types.ts]): the types of files, options and
    results are those of the interface and are left open. *)
Record Uploader (File Opts Upload : Type) : Type := mkUploader {
  upload : File -> Opts -> Result Upload;
  delete : string -> Opts -> Result unit
}.
Arguments mkUploader {File Opts Upload} upload delete.
Arguments upload {File Opts Upload} u file opts.
Arguments delete {File Opts Upload} u id opts.

(** Get the uploader module based on configuration. *)
Definition uploader {File Opts Upload : Type} (conf : Conf.t)
    (s3Uploader ipfsUploader localUploader : Uploader File Opts Upload)
    : Result (Uploader File Opts Upload) :=
  match Conf.uploader conf with
  | Some name =>
      if String.eqb name "s3" then Ok s3Uploader
      else if String.eqb name "ipfs" then Ok ipfsUploader
      else if String.eqb name "local" then Ok localUploader
      else Err (OtherError "No `DITTO_UPLOADER` configured. Uploads are disabled.")
  | None => Err (OtherError "No `DITTO_UPLOADER` configured. Uploads are disabled.")
  end.

(** Meta-uploader determined from configuration. *)
Definition configUploader {File Opts Upload : Type} (conf : Conf.t)
    (s3Uploader ipfsUploader localUploader : Uploader File Opts Upload)
    : Uploader File Opts Upload :=
  mkUploader
    (fun file opts =>
       let* u := uploader conf s3Uploader ipfsUploader localUploader in
       upload u file opts)
    (fun id opts =>
       let* u := uploader conf s3Uploader ipfsUploader localUploader in
       delete u id opts).

(** ** The relay information document ([src/controllers/nostr/relay-info.ts]) *)

(** The fields of the server's profile that the controller reads. *)
Module ServerMeta.
Record t : Type := mk {
  name : option string;
  about : option string;
  email : option string
}.
Definition empty : t := mk None None None.
End ServerMeta.

(** The document the controller answers with; its [limitation] member is
    an empty object. *)
Module RelayInfo.
Record t : Type := mk {
  name : string;
  description : string;
  pubkey : string;
  contact : string;
  supported_nips : list Z;
  software : string;
  version : string
}.
End RelayInfo.

(** [n.json().pipe(serverMetaSchema).catch({}).parse(event?.content)]:
    [serverMetaSchema_parse] stands for the two schemas, [None] when one of
    them fails; a missing event has no content, which is not JSON. *)
Definition parse_server_meta (serverMetaSchema_parse : string -> option ServerMeta.t)
    (content : option string) : ServerMeta.t :=
  match content with
  | Some c => default ServerMeta.empty (serverMetaSchema_parse c)
  | None => ServerMeta.empty
  end.

Definition relayInfoController (conf : Conf.t)
    (db_query : list DittoFilter.t -> Result (list Event.t))
    (serverMetaSchema_parse : string -> option ServerMeta.t)
    : Result RelayInfo.t :=
  let* events :=
    db_query [DittoFilter.mk None (Some [0]) (Some [Conf.pubkey conf]) None None
                (Some 1%nat) [] None None] in
  let event := head events in
  let meta := parse_server_meta serverMetaSchema_parse (Event.content <$> event) in
  Ok (RelayInfo.mk
        (default "Ditto" (ServerMeta.name meta))
        (default "Nostr and the Fediverse." (ServerMeta.about meta))
        (Conf.pubkey conf)
        ("mailto:" +:+ default ("postmaster@" +:+ Conf.url_host conf)
                         (ServerMeta.email meta))
        [1; 5; 9; 11; 16; 45; 50; 46; 98]
        "Ditto"
        "0.0.0").

(** A reader of the server's profile for the examples: a flat JSON object
    of string members. *)
Definition parse_flat_server_meta (s : string) : option ServerMeta.t :=
  match read_object s with
  | Some kvs =>
      Some (ServerMeta.mk (member "name" kvs) (member "about" kvs) (member "email" kvs))
  | None => None
  end.

(** ** The earlier revision of the event store

    The earlier revision of [events.ts] stores up to three values of a tag
    in the nullable columns [value_1], [value_2] and [value_3], runs one
    query per filter and concatenates the answers, and joins the users
    table for a truthy [local] only.  Its [getFilterQuery] visits the keys
    of the filter without a test for [undefined]; a filter is taken here
    with every key either absent or set.  A [search] key has no case in its
    loop and is ignored. *)

Module Legacy.

Module TagRow.
Record t : Type := mk {
  event_id : string;
  tag : string;
  value_1 : option string;
  value_2 : option string;
  value_3 : option string
}.
End TagRow.

Module DB.
Record t : Type := mk {
  events : list Event.t;
  tags : list TagRow.t;
  users : list string
}.
End DB.

(** Build the query for a filter.  [TagValue_in] stands for
    [where('tags.value_1', 'in', value)]. *)
Definition getFilterQuery (filter : DittoFilter.t) : Query :=
  let query := selectFrom_events in
  let query := when (DittoFilter.ids filter) (fun v => where_ (Id_in v)) query in
  let query := when (DittoFilter.kinds filter) (fun v => where_ (Kind_in v)) query in
  let query := when (DittoFilter.authors filter) (fun v => where_ (Pubkey_in v)) query in
  let query := when (DittoFilter.since filter) (fun v => where_ (CreatedAt_ge v)) query in
  let query := when (DittoFilter.until filter) (fun v => where_ (CreatedAt_le v)) query in
  let query := when (DittoFilter.limit filter) limit_ query in
  let query :=
    fold_left (fun q '(tag, value) =>
                 where_ (TagValue_in value) (where_ (Tag_eq tag) (join_ LeftJoin_tags q)))
      (DittoFilter.tag_keys filter) query in
  let query :=
    match DittoFilter.local filter with
    | Some true => join_ InnerJoin_users query
    | _ => query
    end in
  query.

Record JoinedRow : Type := mkJoinedRow {
  jr_event : Event.t;
  jr_tag : option TagRow.t;
  jr_user : option string
}.

Definition tags_side (db : DB.t) (joins : list Join) (ev : Event.t)
    : list (option TagRow.t) :=
  if has_join LeftJoin_tags joins then
    left_side (filter (fun r => TagRow.event_id r = Event.id ev) (DB.tags db))
  else [None].

Definition users_side (db : DB.t) (joins : list Join) (ev : Event.t)
    : list (option string) :=
  if has_join InnerJoin_users joins then
    map Some (filter (fun p => p = Event.pubkey ev) (DB.users db))
  else [None].

Definition joined_rows (db : DB.t) (joins : list Join) (ev : Event.t) : list JoinedRow :=
  t ← tags_side db joins ev;
  u ← users_side db joins ev;
  [mkJoinedRow ev t u].

(** A comparison with [NULL] is not true: a tag row whose [value_1] is
    [NULL] matches no list of values. *)
Definition eval_where (row : JoinedRow) (w : Where) : bool :=
  match w with
  | Id_in ids => mem (Event.id (jr_event row)) ids
  | Kind_in kinds => existsb (Z.eqb (Event.kind (jr_event row))) kinds
  | Pubkey_in authors => mem (Event.pubkey (jr_event row)) authors
  | CreatedAt_ge since => since <=? Event.created_at (jr_event row)
  | CreatedAt_le until => Event.created_at (jr_event row) <=? until
  | Tag_eq tag =>
      match jr_tag row with Some r => String.eqb (TagRow.tag r) tag | None => false end
  | TagValue_in values =>
      match jr_tag row with
      | Some r =>
          match TagRow.value_1 r with
          | Some v => mem v values
          | None => false
          end
      | None => false
      end
  | UsersPubkey_is_null =>
      match jr_user row with Some _ => false | None => true end
  | FtsContent_match _ => false
  end.

(** [query.execute()] for a query without [union] operands, which is all
    this revision builds. *)
Definition execute (db : DB.t) (q : Query) : Result (list Event.t) :=
  match q with
  | Select joins wheres limit _ =>
      if Nat.leb 2 (length (filter (fun j => j = LeftJoin_tags) joins)) then
        Err (SqliteError 1)
      else
        Ok (apply_limit limit
              (sort_desc
                 (map jr_event
                    (filter (fun row => forallb (eval_where row) wheres = true)
                       (ev ← DB.events db; joined_rows db joins ev)))))
  end.

(** Get events for filters from the database: [(await
    Promise.all(queries)).flat()]. *)
Definition getFilters (filters : list DittoFilter.t) (db : DB.t)
    : Result (list Event.t) :=
  collect (execute db) (map getFilterQuery filters).

(** Get events for a filter from the database. *)
Definition getFilter (filter : DittoFilter.t) (db : DB.t) : Result (list Event.t) :=
  getFilters [filter] db.

(** Returns whether the pubkey is followed by a local user:
    [Boolean(await query.executeTakeFirst())]. *)
Definition isLocallyFollowed (pubkey : string) (db : DB.t) : Result bool :=
  let* rows :=
    execute db
      (getFilterQuery
         (DittoFilter.mk None (Some [3]) None None None (Some 1%nat)
            [("p", [pubkey])] (Some true) None)) in
  Ok (bool_decide (is_Some (head rows))).

End Legacy.

(** Two notes of the author A, of which the second is also of kind 1; the
    filters [{ authors: [A] }] and [{ kinds: [1] }]. *)
Definition legacy_store : Legacy.DB.t :=
  Legacy.DB.mk [note_by_a; note_by_b] [] [id_a].

Definition authors_a : DittoFilter.t :=
  DittoFilter.mk None None (Some [id_a]) None None None [] None None.

Definition kinds_1 : DittoFilter.t :=
  DittoFilter.mk None (Some [1]) None None None None [] None None.

(** A store in which the local user A follows B: the contact list of A
    has a [p] tag row for B. *)
Definition contact_list_of_a : Event.t :=
  Event.mk (hex64 "3") 3 id_a "" [["p"; id_b]] 300 "sig".

Definition legacy_follow_store : Legacy.DB.t :=
  Legacy.DB.mk [contact_list_of_a]
    [Legacy.TagRow.mk (hex64 "3") "p" (Some id_b) None None] [id_a].
(** * Properties *)

(** ** Results *)

Lemma mapR_mapR {A B C : Type} (f : A -> B) (g : B -> C) (r : Result A) :
  mapR g (mapR f r) = mapR (fun a => g (f a)) r.
Proof. by destruct r. Qed.

Lemma mapR_ext {A B : Type} (f g : A -> B) (r : Result A) :
  (forall a, f a = g a) -> mapR f r = mapR g r.
Proof. intros H. destruct r; simpl; [by rewrite H | done]. Qed.

(** ** The tag filter *)

Lemma reduce_tags_results env event data tags tagCounts results :
  reduce_tags env event data tags tagCounts results
  = mapR (app results) (reduce_tags env event data tags tagCounts []).
Proof.
  revert tagCounts results.
  induction tags as [|tag rest IH]; intros tagCounts results; simpl.
  - by rewrite app_nil_r.
  - destruct (shouldIndex env event data (tag_name tag)
                (default 0%nat (tagCounts !! tag_name tag)) (tag_value tag))
      as [should|e]; simpl; [|done].
    rewrite IH. symmetry. rewrite IH. rewrite mapR_mapR.
    apply mapR_ext. intros rows.
    destruct (indexable (tag_value tag) should); simpl; [|done].
    by rewrite <- app_assoc.
Qed.

(** One step of the reduction, with the kept tag in front of the rest. *)
Lemma reduce_tags_cons env event data tag rest tagCounts :
  reduce_tags env event data (tag :: rest) tagCounts []
  = (let* should := shouldIndex env event data (tag_name tag)
                      (default 0%nat (tagCounts !! tag_name tag)) (tag_value tag) in
     mapR (fun rows => if indexable (tag_value tag) should then tag :: rows else rows)
       (reduce_tags env event data rest
          (<[tag_name tag := S (default 0%nat (tagCounts !! tag_name tag))]> tagCounts) [])).
Proof.
  simpl. destruct (shouldIndex _ _ _ _ _ _) as [should|e]; simpl; [|done].
  rewrite reduce_tags_results.
  apply mapR_ext. intros rows. by destruct (indexable _ _).
Qed.

(** One step of a successful reduction: the condition of the first tag
    returned [should], the rest of the tags gave [rows'], and the result is
    the first tag, when it is kept, before [rows']. *)
Ltac reduce_step Hred should Hshould rows' Hrest :=
  rewrite reduce_tags_cons in Hred;
  match type of Hred with
  | context [shouldIndex ?env ?event ?data ?name ?count ?value] =>
      destruct (shouldIndex env event data name count value)
        as [should|?] eqn:Hshould; simpl in Hred; [|done]
  end;
  match type of Hred with
  | context [reduce_tags ?env ?event ?data ?rest ?counts []] =>
      destruct (reduce_tags env event data rest counts [])
        as [rows'|?] eqn:Hrest; simpl in Hred; [|done]
  end;
  injection Hred as <-.

Lemma count_named_cons name tag rows :
  count_named name (tag :: rows)
  = ((if decide (tag_name tag = name) then 1 else 0) + count_named name rows)%nat.
Proof.
  unfold count_named. rewrite filter_cons.
  destruct (decide (tag_name tag = name)); done.
Qed.

Lemma reduce_tags_capped env event data name cap :
  capped env event data name cap ->
  forall tags tagCounts rows,
    reduce_tags env event data tags tagCounts [] = Ok rows ->
    (count_named name rows <= cap - default 0 (tagCounts !! name))%nat.
Proof.
  intros Hcap tags.
  induction tags as [|tag rest IH]; intros tagCounts rows Hred.
  - simpl in Hred. injection Hred as <-. unfold count_named. simpl. lia.
  - reduce_step Hred should Hshould rows' Hrest.
    specialize (IH _ _ Hrest).
    destruct (decide (tag_name tag = name)) as [Heq|Hne].
    + rewrite Heq in *. rewrite lookup_insert_eq in IH. simpl in IH.
      destruct (indexable (tag_value tag) should) eqn:Hkeep.
      * rewrite count_named_cons. rewrite decide_True by done.
        unfold indexable in Hkeep.
        apply andb_true_iff in Hkeep as [_ ->].
        apply Hcap in Hshould. lia.
      * lia.
    + rewrite lookup_insert_ne in IH by done.
      destruct (indexable (tag_value tag) should).
      * rewrite count_named_cons. rewrite decide_False by done. simpl. lia.
      * lia.
Qed.

Lemma indexed_tags_capped env event data name cap :
  capped env event data name cap ->
  (count_named name (indexed_tags env event data) <= cap)%nat.
Proof.
  intros Hcap. unfold indexed_tags, filterIndexableTags.
  destruct (reduce_tags env event data (Event.tags event) ∅ []) as [rows|e] eqn:Hred.
  - apply (reduce_tags_capped _ _ _ _ _ Hcap) in Hred.
    rewrite lookup_empty in Hred. simpl in Hred. lia.
  - unfold count_named. simpl. lia.
Qed.

(** The seven conditions of the policy table, each with its cap, for one
    event and its data. *)
Section Caps.
Context (env : Env) (event : Event.t) (data : EventData.t).

Lemma capped_d : capped env event data "d" 1.
Proof.
  intros count value H. unfold shouldIndex in H. simpl in H.
  unfold cond_d in H. injection H as H.
  apply andb_true_iff in H as [H _]. apply Nat.eqb_eq in H. lia.
Qed.

Lemma capped_e : capped env event data "e" 15.
Proof.
  intros count value H. unfold shouldIndex in H. simpl in H.
  unfold cond_e in H. injection H as H.
  apply andb_true_iff in H as [H _]. apply Nat.ltb_lt in H. lia.
Qed.

Lemma capped_q : capped env event data "q" 1.
Proof.
  intros count value H. unfold shouldIndex in H. simpl in H.
  unfold cond_q in H. injection H as H.
  apply andb_true_iff in H as [H _]. apply andb_true_iff in H as [H _].
  apply Nat.eqb_eq in H. lia.
Qed.

Lemma capped_t : capped env event data "t" 5.
Proof.
  intros count value H. unfold shouldIndex in H. simpl in H.
  unfold cond_t in H.
  destruct (Nat.ltb count 5) eqn:Hlt; [|done].
  apply Nat.ltb_lt in Hlt. lia.
Qed.

Lemma capped_proxy : capped env event data "proxy" 1.
Proof.
  intros count value H. unfold shouldIndex in H. simpl in H.
  unfold cond_proxy in H. injection H as H.
  apply andb_true_iff in H as [H _]. apply Nat.eqb_eq in H. lia.
Qed.

Lemma capped_p :
  Event.kind event <> 3 -> capped env event data "p" 15.
Proof.
  intros Hkind count value H. unfold shouldIndex in H. simpl in H.
  unfold cond_p in H. injection H as H.
  apply andb_true_iff in H as [H _]. apply orb_true_iff in H as [H|H].
  - apply Nat.ltb_lt in H. lia.
  - apply Z.eqb_eq in H. done.
Qed.

Lemma capped_media :
  EventData.user data = None -> capped env event data "media" 4.
Proof.
  intros Huser count value H. unfold shouldIndex in H. simpl in H.
  unfold cond_media in H. injection H as H. rewrite Huser in H.
  apply andb_true_iff in H as [H _]. apply orb_true_iff in H as [H|H].
  - apply bool_decide_eq_true in H. by destruct H.
  - apply Nat.ltb_lt in H. lia.
Qed.

Lemma tag_cap_cases name cap :
  tag_cap name = Some cap ->
  (name = "d" /\ cap = 1%nat) \/ (name = "e" /\ cap = 15%nat)
  \/ (name = "p" /\ cap = 15%nat) \/ (name = "q" /\ cap = 1%nat)
  \/ (name = "t" /\ cap = 5%nat) \/ (name = "proxy" /\ cap = 1%nat)
  \/ (name = "media" /\ cap = 4%nat).
Proof.
  unfold tag_cap. intros H.
  repeat match type of H with
         | (if String.eqb ?a ?b then _ else _) = _ =>
             destruct (String.eqb_spec a b) as [->|_];
             [injection H as <-; tauto|]
         end.
  done.
Qed.

Lemma tag_cap_capped name cap :
  tag_cap name = Some cap ->
  (name = "p" -> Event.kind event <> 3) ->
  (name = "media" -> EventData.user data = None) ->
  capped env event data name cap.
Proof.
  intros Hcap Hp Hmedia.
  destruct (tag_cap_cases _ _ Hcap)
    as [[-> ->]|[[-> ->]|[[-> ->]|[[-> ->]|[[-> ->]|[[-> ->]|[-> ->]]]]]]].
  - apply capped_d.
  - apply capped_e.
  - apply capped_p. by apply Hp.
  - apply capped_q.
  - apply capped_t.
  - apply capped_proxy.
  - apply capped_media. by apply Hmedia.
Qed.

End Caps.

(** ** insertEvent *)

(** The callback of the transaction, step by step: the two computations
    that may throw before any statement completes, then the three
    statements in the order they were issued. *)
Lemma insertEvent_body_unfold env faults event data db :
  insertEvent_body env faults event data db
  = match filterIndexableTags env event data with
    | Err e => Err e
    | Ok tags =>
        match buildSearchContent env event with
        | Err e => Err e
        | Ok searchContent =>
            let* db1 := insertInto_events (fault_events faults) event db in
            let* db2 :=
              (if Nat.eqb (length tags) 0 then Ok db1
               else insertInto_tags (fault_tags faults) (map (tag_row event) tags) db1) in
            if String.eqb searchContent "" then Ok db2
            else insertInto_events_fts (fault_fts faults)
                   (FtsRow.mk (Event.id event) (String.substring 0 1000 searchContent)) db2
        end
    end.
Proof.
  unfold insertEvent_body, Promise_all, indexTags, indexSearch, addEvent.
  destruct (filterIndexableTags env event data) as [tags|e]; simpl; [|done].
  destruct (buildSearchContent env event) as [searchContent|e]; simpl.
  - destruct (Nat.eqb (length tags) 0); simpl;
      destruct (String.eqb searchContent ""); simpl;
      destruct (insertInto_events (fault_events faults) event db) as [db1|e1];
      simpl; try done;
      try (destruct (insertInto_tags _ _ db1) as [db2|e2]; simpl; try done);
      try (destruct (insertInto_events_fts _ _ _); done).
  - by destruct (Nat.eqb (length tags) 0).
Qed.

Lemma insertEvent_unfold env faults event data db :
  insertEvent env faults event data db
  = match insertEvent_body env faults event data db with
    | Ok db' => (Ok tt, db')
    | Err e => (catch_duplicate (Err e), db)
    end.
Proof.
  unfold insertEvent, transaction.
  by destruct (insertEvent_body env faults event data db).
Qed.

(** When the callback completes, every write is in. *)
Lemma insertEvent_body_Ok env faults event data db db' :
  insertEvent_body env faults event data db = Ok db' ->
  exists tags searchContent,
    filterIndexableTags env event data = Ok tags
    /\ buildSearchContent env event = Ok searchContent
    /\ id_stored (Event.id event) db = false
    /\ db' = written db event tags searchContent.
Proof.
  rewrite insertEvent_body_unfold.
  destruct (filterIndexableTags env event data) as [tags|e]; [|done].
  destruct (buildSearchContent env event) as [searchContent|e]; [|done].
  intros H. exists tags, searchContent. split; [done|]. split; [done|].
  unfold insertInto_events in H.
  destruct (fault_events faults); [done|].
  destruct (id_stored (Event.id event) db); [done|]. split; [done|].
  simpl in H. unfold written.
  destruct (Nat.eqb (length tags) 0) eqn:Hlen; simpl in H.
  - apply Nat.eqb_eq in Hlen. destruct tags; [|done]. simpl.
    destruct (String.eqb searchContent "").
    + injection H as <-. by rewrite !app_nil_r.
    + unfold insertInto_events_fts in H. destruct (fault_fts faults); [done|].
      injection H as <-. simpl. by rewrite !app_nil_r.
  - unfold insertInto_tags in H. destruct (fault_tags faults); [done|].
    simpl in H. destruct (String.eqb searchContent "").
    + injection H as <-. by rewrite !app_nil_r.
    + unfold insertInto_events_fts in H. destruct (fault_fts faults); [done|].
      by injection H as <-.
Qed.

(** The callback completes when the storage engine raises nothing, the id
    is new and neither computation throws. *)
Lemma insertEvent_body_succeeds env faults event data db tags searchContent :
  fault_events faults = None -> fault_tags faults = None -> fault_fts faults = None ->
  id_stored (Event.id event) db = false ->
  filterIndexableTags env event data = Ok tags ->
  buildSearchContent env event = Ok searchContent ->
  insertEvent_body env faults event data db = Ok (written db event tags searchContent).
Proof.
  intros He Ht Hf Hid Htags Hsearch.
  rewrite insertEvent_body_unfold, Htags, Hsearch.
  unfold insertInto_events, insertInto_tags, insertInto_events_fts, written.
  rewrite He, Ht, Hf, Hid. simpl.
  destruct (Nat.eqb (length tags) 0) eqn:Hlen; simpl.
  - apply Nat.eqb_eq in Hlen. destruct tags; [|done]. simpl.
    destruct (String.eqb searchContent ""); simpl; by rewrite ?app_nil_r.
  - destruct (String.eqb searchContent ""); simpl; by rewrite ?app_nil_r.
Qed.



(** ** What the tag filter keeps and when it throws *)

(** A condition only ever throws a [TypeError]. *)
Lemma shouldIndex_throws env event data name count value e :
  shouldIndex env event data name count value = Err e ->
  exists msg, e = TypeError msg.
Proof.
  unfold shouldIndex, tagConditions. intros H.
  repeat match type of H with
         | context [if String.eqb ?a ?b then _ else _] =>
             destruct (String.eqb a b); [try discriminate H|]
         end.
  - unfold cond_t in H. destruct (Nat.ltb count 5); [|done].
    destruct value; [done|]. injection H as <-. eauto.
  - destruct (mem name inherited_truthy); [done|].
    destruct (mem name inherited_falsy); [done|].
    destruct (mem name inherited_throwing); [|done].
    injection H as <-. eauto.
Qed.

Lemma reduce_tags_throws env event data tags tagCounts e :
  reduce_tags env event data tags tagCounts [] = Err e ->
  exists msg, e = TypeError msg.
Proof.
  revert tagCounts. induction tags as [|tag rest IH]; intros tagCounts H.
  - done.
  - rewrite reduce_tags_cons in H.
    destruct (shouldIndex env event data (tag_name tag) _ (tag_value tag))
      as [should|e'] eqn:Hshould; simpl in H.
    + destruct (reduce_tags env event data rest _ []) eqn:Hrest; [done|].
      simpl in H. injection H as <-. by eapply IH.
    + injection H as <-. by eapply shouldIndex_throws.
Qed.


(** A safe tag does not make its condition throw. *)
Lemma shouldIndex_safe env event data tag count :
  tag_is_safe tag = true ->
  exists should,
    shouldIndex env event data (tag_name tag) count (tag_value tag) = Ok should.
Proof.
  unfold tag_is_safe. intros H. apply andb_true_iff in H as [Hname Ht].
  apply negb_true_iff in Hname.
  unfold shouldIndex, tagConditions.
  repeat match goal with
         | |- context [if String.eqb ?a ?b then _ else _] =>
             destruct (String.eqb a b) eqn:?; [try (eexists; reflexivity)|]
         end.
  - simpl in Ht. apply bool_decide_eq_true in Ht as [v ->].
    unfold cond_t. destruct (Nat.ltb count 5); eauto.
  - rewrite Hname.
    destruct (mem (tag_name tag) inherited_truthy); [eauto|].
    destruct (mem (tag_name tag) inherited_falsy); eauto.
Qed.

Lemma reduce_tags_safe env event data tags tagCounts :
  tags_are_safe tags = true ->
  exists rows, reduce_tags env event data tags tagCounts [] = Ok rows.
Proof.
  revert tagCounts. induction tags as [|tag rest IH]; intros tagCounts H.
  - by exists [].
  - simpl in H. apply andb_true_iff in H as [Htag Hrest].
    rewrite reduce_tags_cons.
    destruct (shouldIndex_safe env event data tag
                (default 0%nat (tagCounts !! tag_name tag)) Htag) as [should ->].
    simpl.
    destruct (IH (<[tag_name tag := S (default 0%nat (tagCounts !! tag_name tag))]>
                    tagCounts) Hrest) as [rows ->].
    simpl. eauto.
Qed.

(** Every kept tag has a value that is not empty and shorter than 200. *)
Lemma indexable_value value should :
  indexable value should = true ->
  exists v, value = Some v /\ v <> "" /\ (String.length v < 200)%nat /\ should = true.
Proof.
  unfold indexable. intros H.
  apply andb_true_iff in H as [H ->]. apply andb_true_iff in H as [Ht Hlen].
  destruct value as [v|]; [|done]. exists v.
  simpl in Ht. apply negb_true_iff in Ht. apply String.eqb_neq in Ht.
  apply Nat.ltb_lt in Hlen. done.
Qed.

Lemma reduce_tags_kept env event data tags tagCounts rows tag :
  reduce_tags env event data tags tagCounts [] = Ok rows ->
  tag ∈ rows ->
  tag ∈ tags
  /\ exists v, tag_value tag = Some v /\ v <> "" /\ (String.length v < 200)%nat.
Proof.
  revert tagCounts rows.
  induction tags as [|tag' rest IH]; intros tagCounts rows Hred Hin.
  - simpl in Hred. injection Hred as <-. by apply elem_of_nil in Hin.
  - reduce_step Hred should Hshould rows' Hrest.
    destruct (indexable (tag_value tag') should) eqn:Hkeep.
    + apply elem_of_cons in Hin as [->|Hin].
      * split; [apply elem_of_cons; by left|].
        apply indexable_value in Hkeep as (v & Hv & Hne & Hlen & _). eauto.
      * destruct (IH _ _ Hrest Hin) as [Hin' Hv].
        split; [apply elem_of_cons; by right|done].
    + destruct (IH _ _ Hrest Hin) as [Hin' Hv].
      split; [apply elem_of_cons; by right|done].
Qed.

Lemma indexed_tags_kept env event data tag :
  tag ∈ indexed_tags env event data ->
  tag ∈ Event.tags event
  /\ exists v, tag_value tag = Some v /\ v <> "" /\ (String.length v < 200)%nat.
Proof.
  unfold indexed_tags, filterIndexableTags.
  destruct (reduce_tags env event data (Event.tags event) ∅ []) as [rows|e] eqn:Hred.
  - by apply (reduce_tags_kept _ _ _ _ _ _ _ Hred).
  - intros H. by apply elem_of_nil in H.
Qed.

(** ** The tag rows insertEvent adds *)

Lemma count_rows_app id name rows1 rows2 :
  count_rows id name (rows1 ++ rows2)
  = (count_rows id name rows1 + count_rows id name rows2)%nat.
Proof. unfold count_rows. by rewrite filter_app, length_app. Qed.

Lemma count_rows_tag_row event name tags :
  count_rows (Event.id event) name (map (tag_row event) tags) = count_named name tags.
Proof.
  unfold count_rows, count_named.
  induction tags as [|tag rest IH]; [done|].
  simpl. rewrite !filter_cons. simpl.
  destruct (decide (tag_name tag = name)) as [Heq|Hne].
  - rewrite decide_True by done. simpl. by rewrite IH.
  - rewrite decide_False by (intros [_ H]; done). done.
Qed.

(** The [tags] table after the call: as before, or with the rows of the
    indexable tags appended. *)
Lemma insertEvent_tags env faults event data db :
  DB.tags (snd (insertEvent env faults event data db)) = DB.tags db
  \/ DB.tags (snd (insertEvent env faults event data db))
     = DB.tags db ++ map (tag_row event) (indexed_tags env event data).
Proof.
  rewrite insertEvent_unfold.
  destruct (insertEvent_body env faults event data db) as [db'|e] eqn:Hbody.
  - apply insertEvent_body_Ok in Hbody
      as (tags & searchContent & Htags & _ & _ & ->).
    right. unfold indexed_tags. by rewrite Htags.
  - by left.
Qed.

(** One insert adds, for the event and a capped tag name, at most as many
    rows as the cap. *)
Lemma insertEvent_adds_within_cap env faults event data db name cap :
  tag_cap name = Some cap ->
  (name = "p" -> Event.kind event <> 3) ->
  (name = "media" -> EventData.user data = None) ->
  (count_named name (indexed_tags env event data) <= cap)%nat
  /\ (count_rows (Event.id event) name
        (DB.tags (snd (insertEvent env faults event data db)))
      <= count_rows (Event.id event) name (DB.tags db) + cap)%nat.
Proof.
  intros Hcap Hp Hmedia.
  assert (count_named name (indexed_tags env event data) <= cap)%nat as Hle.
  { apply indexed_tags_capped. by apply tag_cap_capped. }
  split; [done|].
  destruct (insertEvent_tags env faults event data db) as [->| ->].
  - lia.
  - rewrite count_rows_app, count_rows_tag_row. lia.
Qed.

(** After one insert, every row of the [tags] table that carries a value
    longer than 200 characters was there before. *)
Lemma insertEvent_adds_no_long_value env faults event data db r :
  r ∈ DB.tags (snd (insertEvent env faults event data db)) ->
  (200 < String.length (TagRow.value r))%nat ->
  r ∈ DB.tags db.
Proof.
  intros Hr Hlong.
  destruct (insertEvent_tags env faults event data db) as [Heq|Heq];
    rewrite Heq in Hr; [done|].
  apply elem_of_app in Hr as [Hr|Hr]; [done|].
  apply list_elem_of_fmap in Hr as (tag' & -> & Hin).
  apply indexed_tags_kept in Hin as [_ (v & Hv & _ & Hlen)].
  unfold tag_row in Hlong. simpl in Hlong. rewrite Hv in Hlong. simpl in Hlong.
  lia.
Qed.

(** ** Exact counts under a cap *)

(** When every tag of the name passes all tests but the count, the kept
    tags of that name are the first [cap] of them. *)
Lemma reduce_tags_exact env event data name cap tags :
  (forall tag, tag ∈ tags -> tag_name tag = name ->
     indexable (tag_value tag) true = true
     /\ forall count,
          shouldIndex env event data name count (tag_value tag)
          = Ok (Nat.ltb count cap)) ->
  forall tagCounts rows,
    reduce_tags env event data tags tagCounts [] = Ok rows ->
    count_named name rows
    = Nat.min (cap - default 0%nat (tagCounts !! name)) (count_named name tags).
Proof.
  induction tags as [|tag rest IH]; intros Hvalid tagCounts rows Hred.
  - simpl in Hred. injection Hred as <-. unfold count_named. simpl. lia.
  - reduce_step Hred should Hshould rows' Hrest.
    assert (forall tag', tag' ∈ rest -> tag_name tag' = name ->
              indexable (tag_value tag') true = true
              /\ forall count,
                   shouldIndex env event data name count (tag_value tag')
                   = Ok (Nat.ltb count cap)) as Hvalid'.
    { intros tag' Hin. apply Hvalid. apply elem_of_cons. by right. }
    specialize (IH Hvalid' _ _ Hrest).
    rewrite (count_named_cons name tag rest).
    destruct (decide (tag_name tag = name)) as [Heq|Hne].
    + destruct (Hvalid tag (list_elem_of_here _ _) Heq) as [Hidx Hcond].
      rewrite Heq in *. rewrite lookup_insert_eq in IH. simpl in IH.
      rewrite Hcond in Hshould. injection Hshould as <-.
      destruct (Nat.ltb_spec (default 0%nat (tagCounts !! name)) cap) as [Hlt|Hge].
      * rewrite Hidx. rewrite count_named_cons, decide_True by done. lia.
      * replace (indexable (tag_value tag) false) with false
          by (unfold indexable; by rewrite andb_false_r).
        lia.
    + rewrite lookup_insert_ne in IH by done.
      destruct (indexable (tag_value tag) should).
      * rewrite count_named_cons, decide_False by done. simpl. lia.
      * simpl. lia.
Qed.

Lemma valid_e_tag_spec env event data tag :
  valid_e_tag env tag = true ->
  indexable (tag_value tag) true = true
  /\ forall count,
       shouldIndex env event data "e" count (tag_value tag) = Ok (Nat.ltb count 15).
Proof.
  unfold valid_e_tag. destruct (tag_value tag) as [v|]; [|done].
  intros H. apply andb_true_iff in H as [H Hlen].
  apply andb_true_iff in H as [Hid Hne].
  split.
  - unfold indexable. simpl. by rewrite Hne, Hlen.
  - intros count. unfold shouldIndex. simpl. unfold cond_e. simpl.
    by rewrite Hid, andb_true_r.
Qed.

Lemma valid_t_tag_spec env event data tag :
  valid_t_tag tag = true ->
  indexable (tag_value tag) true = true
  /\ forall count,
       shouldIndex env event data "t" count (tag_value tag) = Ok (Nat.ltb count 5).
Proof.
  unfold valid_t_tag. destruct (tag_value tag) as [v|]; [|done].
  intros H. apply andb_true_iff in H as [Hne Hlen].
  apply Nat.ltb_lt in Hlen.
  split.
  - unfold indexable. simpl. rewrite Hne. simpl.
    rewrite andb_true_r. apply Nat.ltb_lt. lia.
  - intros count. unfold shouldIndex. simpl. unfold cond_t.
    destruct (Nat.ltb count 5); [|done].
    f_equal. apply Nat.ltb_lt. lia.
Qed.

(** What a committed insert adds for one tag name. *)
Lemma insertEvent_count_rows env event data db tags searchContent name :
  id_stored (Event.id event) db = false ->
  filterIndexableTags env event data = Ok tags ->
  buildSearchContent env event = Ok searchContent ->
  count_rows (Event.id event) name
    (DB.tags (snd (insertEvent env no_faults event data db)))
  = (count_rows (Event.id event) name (DB.tags db) + count_named name tags)%nat.
Proof.
  intros Hid Htags Hsearch.
  rewrite insertEvent_unfold.
  rewrite (insertEvent_body_succeeds _ _ _ _ _ tags searchContent) by done.
  simpl. by rewrite count_rows_app, count_rows_tag_row.
Qed.

(** C6 (amended). For every event whose tags do not make the filter throw:
    when it has 20 [e] tags whose values are all well-formed identifiers
    (not empty, shorter than 200), the filter keeps exactly 15 of them, and
    when it has 20 [t] tags whose values are all non-empty and shorter than
    50, the filter keeps exactly 5 of them; inserting the event, when its id
    is new, its search content can be built and the storage engine raises
    nothing, adds exactly that many rows for the event and the name. *)
Theorem tag_cap_reached env event data db searchContent :
  tags_are_safe (Event.tags event) = true ->
  id_stored (Event.id event) db = false ->
  buildSearchContent env event = Ok searchContent ->
  (count_named "e" (Event.tags event) = 20%nat ->
   (forall tag, tag ∈ Event.tags event -> tag_name tag = "e" ->
      valid_e_tag env tag = true) ->
   count_named "e" (indexed_tags env event data) = 15%nat
   /\ count_rows (Event.id event) "e"
        (DB.tags (snd (insertEvent env no_faults event data db)))
      = (count_rows (Event.id event) "e" (DB.tags db) + 15)%nat)
  /\ (count_named "t" (Event.tags event) = 20%nat ->
      (forall tag, tag ∈ Event.tags event -> tag_name tag = "t" ->
         valid_t_tag tag = true) ->
      count_named "t" (indexed_tags env event data) = 5%nat
      /\ count_rows (Event.id event) "t"
           (DB.tags (snd (insertEvent env no_faults event data db)))
         = (count_rows (Event.id event) "t" (DB.tags db) + 5)%nat).
Proof.
  intros Hsafe Hid Hsearch.
  destruct (reduce_tags_safe env event data (Event.tags event) ∅ Hsafe)
    as [rows Hrows].
  assert (filterIndexableTags env event data = Ok rows) as Hfilter by done.
  assert (indexed_tags env event data = rows) as Hindexed.
  { unfold indexed_tags. by rewrite Hfilter. }
  split.
  - intros Hcount Hvalid.
    assert (count_named "e" rows = 15%nat) as H15.
    { rewrite (reduce_tags_exact env event data "e" 15 (Event.tags event)
                 (fun tag Hin Hname => valid_e_tag_spec env event data tag
                                         (Hvalid tag Hin Hname)) ∅ rows Hrows).
      rewrite Hcount, lookup_empty. simpl. lia. }
    rewrite Hindexed. split; [done|].
    rewrite (insertEvent_count_rows env event data db rows searchContent) by done.
    by rewrite H15.
  - intros Hcount Hvalid.
    assert (count_named "t" rows = 5%nat) as H5.
    { rewrite (reduce_tags_exact env event data "t" 5 (Event.tags event)
                 (fun tag Hin Hname => valid_t_tag_spec env event data tag
                                         (Hvalid tag Hin Hname)) ∅ rows Hrows).
      rewrite Hcount, lookup_empty. simpl. lia. }
    rewrite Hindexed. split; [done|].
    rewrite (insertEvent_count_rows env event data db rows searchContent) by done.
    by rewrite H5.
Qed.

(** ** Search content *)

Lemma filter_Boolean_nonempty (l : list (option string)) :
  filter_Boolean l = filter (fun s => s <> "") (omap (fun v => v) l).
Proof.
  unfold filter_Boolean. induction l as [|v l IH]; [done|].
  simpl. destruct v as [s|]; simpl; [|done].
  fold (omap (fun v : option string => if truthy v then v else None) l).
  fold (omap (fun v : option string => v) l).
  destruct (String.eqb_spec s "") as [->|Hne]; simpl.
  - by rewrite filter_cons_False by (intros H; done).
  - rewrite filter_cons_True by done. by rewrite IH.
Qed.

Lemma substring_length (n : nat) (s : string) :
  (String.length (String.substring 0 n s) <= n)%nat.
Proof.
  revert s. induction n as [|n IH]; intros s.
  - destruct s; simpl; lia.
  - destruct s as [|c s]; simpl; [lia|]. specialize (IH s). lia.
Qed.

(** Search extraction throws only for a profile whose content the parser
    rejects, and what it throws is the parser's error. *)
Lemma buildSearchContent_throws env event e :
  buildSearchContent env event = Err e ->
  Event.kind event = 0
  /\ exists msg, jsonMetaContentSchema_parse env (Event.content event) = inl msg
                 /\ e = ZodError msg.
Proof.
  unfold buildSearchContent, buildUserSearchContent.
  destruct (Z.eqb_spec (Event.kind event) 0) as [H0|_].
  - destruct (jsonMetaContentSchema_parse env (Event.content event)) as [msg|meta];
      [|done].
    intros H. injection H as <-. eauto.
  - by destruct (Event.kind event =? 1).
Qed.

(** The [events_fts] table after the call: as before, or with the one row
    of the event appended. *)
Lemma insertEvent_events_fts env faults event data db :
  DB.events_fts (snd (insertEvent env faults event data db)) = DB.events_fts db
  \/ exists searchContent,
       buildSearchContent env event = Ok searchContent
       /\ searchContent <> ""
       /\ DB.events_fts (snd (insertEvent env faults event data db))
          = DB.events_fts db
            ++ [FtsRow.mk (Event.id event) (String.substring 0 1000 searchContent)].
Proof.
  rewrite insertEvent_unfold.
  destruct (insertEvent_body env faults event data db) as [db'|e] eqn:Hbody.
  - apply insertEvent_body_Ok in Hbody
      as (tags & searchContent & _ & Hsearch & _ & ->).
    simpl. destruct (String.eqb_spec searchContent "") as [->|Hne].
    + left. by rewrite app_nil_r.
    + right. by exists searchContent.
  - by left.
Qed.

(** ** Duplicates and errors *)


(** The errors the callback of the transaction can fail with: what tag
    filtering or search extraction threw, the duplicate id, or what the
    storage engine raised on one of the three statements. *)
Lemma insertEvent_body_errors env faults event data db e :
  insertEvent_body env faults event data db = Err e ->
  filterIndexableTags env event data = Err e
  \/ buildSearchContent env event = Err e
  \/ (e = SqliteError 19 /\ id_stored (Event.id event) db = true)
  \/ fault_events faults = Some e
  \/ fault_tags faults = Some e
  \/ fault_fts faults = Some e.
Proof.
  rewrite insertEvent_body_unfold.
  destruct (filterIndexableTags env event data) as [tags|e1]; [|intros [= ->]; tauto].
  destruct (buildSearchContent env event) as [searchContent|e2];
    [|intros [= ->]; tauto].
  unfold insertInto_events, insertInto_tags, insertInto_events_fts.
  destruct (fault_events faults) as [e1|]; simpl; [intros [= ->]; tauto|].
  destruct (id_stored (Event.id event) db); simpl; [intros [= <-]; tauto|].
  destruct (Nat.eqb (length tags) 0); simpl.
  - destruct (String.eqb searchContent ""); [done|].
    destruct (fault_fts faults) as [e3|]; [intros [= ->]; tauto|done].
  - destruct (fault_tags faults) as [e2|]; simpl; [intros [= ->]; tauto|].
    destruct (String.eqb searchContent ""); [done|].
    destruct (fault_fts faults) as [e3|]; [intros [= ->]; tauto|done].
Qed.



(** ** Stats *)

Lemma execute_pubkey_stat pubkey stat diff db :
  let db' := execute_stats (incrementPubkeyStatQuery pubkey stat diff) db in
  DB.pubkey_stats db' !! pubkey
  = Some (set_pubkey_stat (pubkey_counters db pubkey) stat
            (get_pubkey_stat (pubkey_counters db pubkey) stat + diff))
  /\ (forall k, k <> pubkey -> DB.pubkey_stats db' !! k = DB.pubkey_stats db !! k)
  /\ DB.event_stats db' = DB.event_stats db
  /\ same_store db db'.
Proof.
  simpl. unfold pubkey_counters. split; [|split; [|done]].
  - rewrite lookup_insert_eq.
    destruct (DB.pubkey_stats db !! pubkey) as [old|]; simpl; [done|].
    by destruct stat.
  - intros k Hk. by rewrite lookup_insert_ne.
Qed.

Lemma execute_event_stat eventId stat diff db :
  let db' := execute_stats (incrementEventStatQuery eventId stat diff) db in
  DB.event_stats db' !! eventId
  = Some (set_event_stat (event_counters db eventId) stat
            (get_event_stat (event_counters db eventId) stat + diff))
  /\ (forall k, k <> eventId -> DB.event_stats db' !! k = DB.event_stats db !! k)
  /\ DB.pubkey_stats db' = DB.pubkey_stats db
  /\ same_store db db'.
Proof.
  simpl. unfold event_counters. split; [|split; [|done]].
  - rewrite lookup_insert_eq.
    destruct (DB.event_stats db !! eventId) as [old|]; simpl; [done|].
    by destruct stat.
  - intros k Hk. by rewrite lookup_insert_ne.
Qed.

(** C9 (amended). updateStats adjusts exactly one counter, chosen by the
    kind.  Kind 1 adds 1 to the author's notes_count.  Kind 6 whose first
    [e] tag carries a non-empty value adds 1 to the reposts_count of the
    event that value names, kind 7 likewise to its reactions_count.  Every
    other event, a kind 6 or 7 without an [e] tag or whose first [e] tag has
    no value or an empty one included, changes nothing.  The row of the
    subject holds its former counters with the one counter raised; when it
    did not exist those former counters are zero.  No other row, no other
    table changes. *)
Theorem updateStats_counter event db :
  (Event.kind event = 1 ->
   DB.pubkey_stats (updateStats event db) !! Event.pubkey event
   = Some (PubkeyStatsRow.mk
             (PubkeyStatsRow.followers_count (pubkey_counters db (Event.pubkey event)))
             (PubkeyStatsRow.following_count (pubkey_counters db (Event.pubkey event)))
             (PubkeyStatsRow.notes_count (pubkey_counters db (Event.pubkey event)) + 1))
   /\ (forall k, k <> Event.pubkey event ->
         DB.pubkey_stats (updateStats event db) !! k = DB.pubkey_stats db !! k)
   /\ DB.event_stats (updateStats event db) = DB.event_stats db
   /\ same_store db (updateStats event db))
  /\ (forall v,
        Event.kind event = 6 -> findFirstTag event "e" = Some v -> v <> "" ->
        DB.event_stats (updateStats event db) !! v
        = Some (EventStatsRow.mk
                  (EventStatsRow.replies_count (event_counters db v))
                  (EventStatsRow.reposts_count (event_counters db v) + 1)
                  (EventStatsRow.reactions_count (event_counters db v)))
        /\ (forall k, k <> v ->
              DB.event_stats (updateStats event db) !! k = DB.event_stats db !! k)
        /\ DB.pubkey_stats (updateStats event db) = DB.pubkey_stats db
        /\ same_store db (updateStats event db))
  /\ (forall v,
        Event.kind event = 7 -> findFirstTag event "e" = Some v -> v <> "" ->
        DB.event_stats (updateStats event db) !! v
        = Some (EventStatsRow.mk
                  (EventStatsRow.replies_count (event_counters db v))
                  (EventStatsRow.reposts_count (event_counters db v))
                  (EventStatsRow.reactions_count (event_counters db v) + 1))
        /\ (forall k, k <> v ->
              DB.event_stats (updateStats event db) !! k = DB.event_stats db !! k)
        /\ DB.pubkey_stats (updateStats event db) = DB.pubkey_stats db
        /\ same_store db (updateStats event db))
  /\ (Event.kind event <> 1 ->
      (Event.kind event = 6 \/ Event.kind event = 7 ->
       truthy (findFirstTag event "e") = false) ->
      updateStats event db = db).
Proof.
  split; [|split; [|split]].
  - intros Hkind. unfold updateStats, updateStatsQuery. rewrite Hkind.
    change (1 =? 1) with true. cbv iota.
    apply (execute_pubkey_stat (Event.pubkey event) PubkeyStat.notes_count 1 db).
  - intros v Hkind Hfirst Hne. unfold updateStats, updateStatsQuery.
    rewrite Hkind, Hfirst. change (6 =? 1) with false. change (6 =? 6) with true.
    cbv iota. simpl truthy.
    apply String.eqb_neq in Hne. rewrite Hne. simpl negb. cbv iota.
    apply (execute_event_stat v EventStat.reposts_count 1 db).
  - intros v Hkind Hfirst Hne. unfold updateStats, updateStatsQuery.
    rewrite Hkind, Hfirst. change (7 =? 1) with false. change (7 =? 6) with false.
    change (7 =? 7) with true. cbv iota. simpl truthy.
    apply String.eqb_neq in Hne. rewrite Hne. simpl negb. cbv iota.
    apply (execute_event_stat v EventStat.reactions_count 1 db).
  - intros H1 H67. unfold updateStats, updateStatsQuery.
    destruct (Z.eqb_spec (Event.kind event) 1) as [|_]; [done|].
    destruct (Z.eqb_spec (Event.kind event) 6) as [H6|_].
    { rewrite (H67 (or_introl H6)). by destruct (findFirstTag event "e"). }
    destruct (Z.eqb_spec (Event.kind event) 7) as [H7|_]; [|done].
    rewrite (H67 (or_intror H7)). by destruct (findFirstTag event "e").
Qed.

(** ** The shape of the query of one filter *)

Lemma when_where {A : Type} (v : option A) (w : A -> Where) joins wheres limit unions :
  when v (fun a => where_ (w a)) (Select joins wheres limit unions)
  = Select joins (wheres ++ opt_where v w) limit unions.
Proof. destruct v; simpl; [done|]. by rewrite app_nil_r. Qed.

Lemma when_limit (v : option nat) joins wheres limit unions :
  when v limit_ (Select joins wheres limit unions)
  = Select joins wheres (match v with Some n => Some n | None => limit end) unions.
Proof. by destruct v. Qed.

Lemma fold_tag_keys keys joins wheres limit unions :
  fold_left (fun q '(tag, value) =>
               where_ (TagValue_in value) (where_ (Tag_eq tag) (join_ LeftJoin_tags q)))
    keys (Select joins wheres limit unions)
  = Select (joins ++ tag_joins keys) (wheres ++ tag_wheres keys) limit unions.
Proof.
  revert joins wheres.
  induction keys as [|[tag value] keys IH]; intros joins wheres; simpl.
  - by rewrite !app_nil_r.
  - rewrite IH. by rewrite <- !app_assoc.
Qed.

Lemma getFilterQuery_shape f :
  getFilterQuery f
  = Select
      (tag_joins (DittoFilter.tag_keys f) ++ local_joins (DittoFilter.local f)
       ++ search_joins f)
      (base_wheres f ++ tag_wheres (DittoFilter.tag_keys f)
       ++ local_wheres (DittoFilter.local f) ++ search_wheres f)
      (DittoFilter.limit f) [].
Proof.
  unfold getFilterQuery, selectFrom_events, base_wheres.
  rewrite !when_where, when_limit, fold_tag_keys.
  unfold search_joins, search_wheres.
  destruct (DittoFilter.local f) as [[|]|];
    destruct (truthy (DittoFilter.search f)); simpl;
    rewrite <- ?app_assoc, ?app_nil_r; try done.
  all: by destruct (DittoFilter.limit f).
Qed.

(** ** Evaluation of a select, event by event *)

Lemma bind_nil_r {A B : Type} (l : list A) :
  l ≫= (fun _ => @nil B) = [].
Proof. induction l as [|x l IH]; [done|]. by rewrite bind_cons, IH. Qed.

Lemma map_filter_bind {A B C : Type} (f : B -> C) (P : B -> Prop)
    `{forall x, Decision (P x)} (g : A -> list B) (l : list A) :
  map f (filter P (l ≫= g)) = l ≫= (fun x => map f (filter P (g x))).
Proof.
  induction l as [|x l IH]; [done|].
  by rewrite !bind_cons, filter_app, map_app, IH.
Qed.

Lemma select_rows_events env db joins wheres :
  select_rows env db joins wheres
  = if Nat.leb 2 (length (filter (fun j => j = LeftJoin_tags) joins))
    then Err (SqliteError 1)
    else Ok (DB.events db ≫= event_rows env db joins wheres).
Proof.
  unfold select_rows, event_rows.
  destruct (Nat.leb 2 _); [done|]. by rewrite map_filter_bind.
Qed.

(** The copies of one event, by the three sides of the join. *)
Lemma event_rows_sides env db joins wheres ev :
  event_rows env db joins wheres ev
  = tags_side db joins ev ≫= (fun t =>
      users_side db joins ev ≫= (fun u =>
        fts_side db joins ev ≫= (fun s =>
          if forallb (eval_where env (mkJoinedRow ev t u s)) wheres
          then [ev] else []))).
Proof.
  unfold event_rows, joined_rows.
  rewrite map_filter_bind. apply list_bind_ext; [|done]. intros t.
  rewrite map_filter_bind. apply list_bind_ext; [|done]. intros u.
  rewrite map_filter_bind. apply list_bind_ext; [|done]. intros s.
  destruct (forallb (eval_where env (mkJoinedRow ev t u s)) wheres) eqn:Hw.
  - by rewrite filter_cons_True.
  - rewrite filter_cons_False; [done|]. by rewrite Hw.
Qed.

Lemma event_rows_copies env db joins wheres ev x :
  x ∈ event_rows env db joins wheres ev -> x = ev.
Proof.
  unfold event_rows, joined_rows. intros Hx.
  apply list_elem_of_fmap in Hx as (row & -> & Hrow).
  apply list_elem_of_filter in Hrow as [_ Hrow].
  apply list_elem_of_bind in Hrow as (t & Hrow & _).
  apply list_elem_of_bind in Hrow as (u & Hrow & _).
  apply list_elem_of_bind in Hrow as (s & Hrow & _).
  by apply list_elem_of_singleton in Hrow as ->.
Qed.

(** Filtering the copies of an event by a test on the event keeps all of
    them or none. *)
Lemma filter_event_rows env db joins wheres ev (P : Event.t -> Prop)
    `{forall x, Decision (P x)} :
  filter P (event_rows env db joins wheres ev)
  = if decide (P ev) then event_rows env db joins wheres ev else [].
Proof.
  pose proof (event_rows_copies env db joins wheres ev) as Hcopies.
  induction (event_rows env db joins wheres ev) as [|x l IH]; [by destruct (decide _)|].
  assert (x = ev) as -> by (apply Hcopies, list_elem_of_here).
  assert (forall y, y ∈ l -> y = ev) as Hl.
  { intros y Hy. apply Hcopies. by apply list_elem_of_further. }
  specialize (IH Hl). rewrite filter_cons, IH.
  by destruct (decide (P ev)).
Qed.

Lemma filter_bind_event_rows env db joins wheres (P : Event.t -> Prop)
    `{forall x, Decision (P x)} (l : list Event.t) :
  filter P (l ≫= event_rows env db joins wheres)
  = l ≫= (fun ev => if decide (P ev) then event_rows env db joins wheres ev else []).
Proof.
  induction l as [|ev l IH]; [done|].
  by rewrite !bind_cons, filter_app, filter_event_rows, IH.
Qed.

(** ** Ordering *)

Lemma insert_desc_head e l :
  Forall (fun x => Event.created_at x <= Event.created_at e) l ->
  insert_desc e l = e :: l.
Proof.
  intros Hl. destruct l as [|x l]; [done|]. simpl.
  apply Forall_cons in Hl as [Hx _].
  apply Z.leb_le in Hx. by rewrite Hx.
Qed.

Lemma insert_desc_elem e l x : x ∈ insert_desc e l <-> x = e \/ x ∈ l.
Proof.
  induction l as [|y l IH]; simpl.
  - rewrite list_elem_of_singleton. rewrite elem_of_nil. tauto.
  - destruct (Event.created_at y <=? Event.created_at e).
    + by rewrite elem_of_cons.
    + rewrite !elem_of_cons, IH. tauto.
Qed.

Lemma insert_desc_sorted e l : sorted_desc l -> sorted_desc (insert_desc e l).
Proof.
  unfold sorted_desc. induction l as [|y l IH]; intros Hl; simpl.
  - by repeat constructor.
  - apply StronglySorted_inv in Hl as [Hl Hy].
    destruct (Z.leb_spec (Event.created_at y) (Event.created_at e)) as [Hle|Hgt].
    + constructor; [by constructor|].
      constructor; [done|].
      eapply Forall_impl; [exact Hy|]. simpl. intros z Hz. lia.
    + constructor; [by apply IH|].
      apply Forall_forall. intros z Hz. apply insert_desc_elem in Hz as [->|Hz].
      * lia.
      * rewrite Forall_forall in Hy. by apply Hy.
Qed.

Lemma sort_desc_sorted l : sorted_desc (sort_desc l).
Proof.
  induction l as [|e l IH]; simpl.
  - constructor.
  - by apply insert_desc_sorted.
Qed.

Lemma sort_desc_elem l x : x ∈ sort_desc l <-> x ∈ l.
Proof.
  induction l as [|e l IH]; simpl; [done|].
  by rewrite insert_desc_elem, elem_of_cons, IH.
Qed.

Lemma filter_insert_desc (P : Event.t -> Prop) `{forall x, Decision (P x)} e l :
  sorted_desc l ->
  filter P (insert_desc e l)
  = if decide (P e) then insert_desc e (filter P l) else filter P l.
Proof.
  unfold sorted_desc. induction l as [|y l IH]; intros Hl.
  - simpl. rewrite filter_cons. by destruct (decide (P e)).
  - apply StronglySorted_inv in Hl as [Hl Hy]. simpl.
    destruct (Z.leb_spec (Event.created_at y) (Event.created_at e)) as [Hle|Hgt].
    + rewrite filter_cons. destruct (decide (P e)); [|done].
      rewrite insert_desc_head; [done|].
      apply Forall_forall. intros z Hz.
      apply list_elem_of_filter in Hz as [_ Hz].
      apply elem_of_cons in Hz as [->|Hz]; [done|].
      rewrite Forall_forall in Hy. specialize (Hy z Hz). simpl in Hy. lia.
    + rewrite !filter_cons, (IH Hl).
      destruct (decide (P y)); destruct (decide (P e)); try done.
      simpl. apply Z.leb_gt in Hgt. by rewrite Hgt.
Qed.

Lemma filter_sort_desc (P : Event.t -> Prop) `{forall x, Decision (P x)} l :
  filter P (sort_desc l) = sort_desc (filter P l).
Proof.
  induction l as [|e l IH]; [done|]. simpl.
  rewrite filter_insert_desc by apply sort_desc_sorted.
  rewrite filter_cons. destruct (decide (P e)); simpl; by rewrite IH.
Qed.

(** ** A query with one filter *)

Lemma getFilters_single env f opts db :
  getFilters env [f] opts db
  = if ambiguous (filter_joins f) then Err (SqliteError 1)
    else Ok (apply_limit (limit_in_force opts f)
               (sort_desc (DB.events db
                           ≫= event_rows env db (filter_joins f) (filter_wheres f)))).
Proof.
  unfold getFilters, getFiltersQuery. simpl.
  rewrite getFilterQuery_shape, when_limit. simpl.
  rewrite select_rows_events. fold (filter_joins f). fold (filter_wheres f).
  fold (ambiguous (filter_joins f)).
  destruct (ambiguous (filter_joins f)); [done|]. simpl.
  unfold limit_in_force. by destruct (GetFiltersOpts.limit opts).
Qed.

(** ** The join with the users table *)

Lemma has_join_app j joins1 joins2 :
  has_join j (joins1 ++ joins2) = has_join j joins1 || has_join j joins2.
Proof.
  unfold has_join. rewrite <- bool_decide_or.
  apply bool_decide_ext, elem_of_app.
Qed.

Lemma has_join_tag_joins j keys :
  j <> LeftJoin_tags -> has_join j (tag_joins keys) = false.
Proof.
  intros Hj. unfold has_join. apply bool_decide_eq_false.
  intros Hin. apply list_elem_of_fmap in Hin as (kv & -> & _). done.
Qed.

Lemma has_join_search_joins j f :
  j <> InnerJoin_events_fts -> has_join j (search_joins f) = false.
Proof.
  intros Hj. unfold has_join, search_joins. apply bool_decide_eq_false.
  destruct (truthy (DittoFilter.search f)).
  - intros Hin. by apply list_elem_of_singleton in Hin.
  - apply not_elem_of_nil.
Qed.

(** The joins of a filter, by table. *)
Lemma has_join_filter_joins j f :
  has_join j (filter_joins f)
  = match j with
    | LeftJoin_tags => has_join LeftJoin_tags (tag_joins (DittoFilter.tag_keys f))
    | InnerJoin_users => bool_decide (DittoFilter.local f = Some true)
    | LeftJoin_users => bool_decide (DittoFilter.local f = Some false)
    | InnerJoin_events_fts => truthy (DittoFilter.search f)
    end.
Proof.
  unfold filter_joins. rewrite !has_join_app.
  destruct j.
  - rewrite (has_join_search_joins LeftJoin_tags) by done.
    by destruct (DittoFilter.local f) as [[|]|]; rewrite ?orb_false_r.
  - rewrite (has_join_tag_joins InnerJoin_users) by done.
    rewrite (has_join_search_joins InnerJoin_users) by done.
    by destruct (DittoFilter.local f) as [[|]|].
  - rewrite (has_join_tag_joins LeftJoin_users) by done.
    rewrite (has_join_search_joins LeftJoin_users) by done.
    by destruct (DittoFilter.local f) as [[|]|].
  - rewrite (has_join_tag_joins InnerJoin_events_fts) by done.
    unfold search_joins.
    by destruct (DittoFilter.local f) as [[|]|];
      destruct (truthy (DittoFilter.search f)).
Qed.

Lemma ambiguous_filter_joins f :
  ambiguous (filter_joins f) = Nat.leb 2 (length (DittoFilter.tag_keys f)).
Proof.
  unfold ambiguous, filter_joins. rewrite !filter_app, !length_app.
  assert (length (filter (fun j => j = LeftJoin_tags)
                    (tag_joins (DittoFilter.tag_keys f)))
          = length (DittoFilter.tag_keys f)) as ->.
  { unfold tag_joins. induction (DittoFilter.tag_keys f) as [|kv keys IH]; [done|].
    cbn [map]. rewrite filter_cons_True by done. cbn [length]. by rewrite IH. }
  assert (length (filter (fun j => j = LeftJoin_tags)
                    (local_joins (DittoFilter.local f))) = 0%nat) as ->.
  { by destruct (DittoFilter.local f) as [[|]|]. }
  assert (length (filter (fun j => j = LeftJoin_tags) (search_joins f)) = 0%nat) as ->.
  { unfold search_joins. by destruct (truthy (DittoFilter.search f)). }
  by rewrite !Nat.add_0_r.
Qed.

Lemma filter_users_NoDup (x : string) (l : list string) :
  NoDup l -> filter (fun p => p = x) l = if decide (x ∈ l) then [x] else [].
Proof.
  induction 1 as [|y l Hy Hl IH].
  - by rewrite decide_False by apply not_elem_of_nil.
  - rewrite filter_cons, IH.
    destruct (decide (y = x)) as [->|Hne].
    + rewrite decide_False by done. rewrite decide_True by apply list_elem_of_here.
      done.
    + destruct (decide (x ∈ l)) as [Hin|Hnin].
      * by rewrite decide_True by (by apply list_elem_of_further).
      * rewrite decide_False; [done|].
        intros Hin. apply elem_of_cons in Hin as [->|Hin]; done.
Qed.

(** A clause that does not test the users side reads the same whatever
    that side holds. *)
Lemma eval_where_user env ev t u u' s w :
  w <> UsersPubkey_is_null ->
  eval_where env (mkJoinedRow ev t u s) w = eval_where env (mkJoinedRow ev t u' s) w.
Proof. by destruct w. Qed.

Lemma forallb_eval_user env ev t u u' s wheres :
  Forall (fun w => w <> UsersPubkey_is_null) wheres ->
  forallb (eval_where env (mkJoinedRow ev t u s)) wheres
  = forallb (eval_where env (mkJoinedRow ev t u' s)) wheres.
Proof.
  induction 1 as [|w wheres Hw _ IH]; [done|].
  simpl. by rewrite IH, (eval_where_user env ev t u u' s w Hw).
Qed.

(** The clauses of a filter without the one on the users side. *)
Lemma filter_wheres_no_users f :
  Forall (fun w => w <> UsersPubkey_is_null)
    (base_wheres f ++ tag_wheres (DittoFilter.tag_keys f) ++ search_wheres f).
Proof.
  rewrite !Forall_app. split; [|split].
  - unfold base_wheres. rewrite !Forall_app.
    repeat split;
      match goal with |- Forall _ (opt_where ?v _) => destruct v end;
      by repeat constructor.
  - unfold tag_wheres. induction (DittoFilter.tag_keys f) as [|kv keys IH]; simpl.
    + constructor.
    + by repeat constructor.
  - unfold search_wheres.
    destruct (truthy (DittoFilter.search f)); by repeat constructor.
Qed.

Lemma bind_all_nil {A B : Type} (f : A -> list B) (l : list A) :
  (forall x, f x = []) -> l ≫= f = [].
Proof.
  intros Hf. induction l as [|x l IH]; [done|].
  by rewrite bind_cons, Hf, IH.
Qed.

Lemma filter_wheres_local env row f :
  forallb (eval_where env row) (filter_wheres (with_local (Some false) f))
  = forallb (eval_where env row) (filter_wheres (with_local None f))
    && eval_where env row UsersPubkey_is_null.
Proof.
  unfold filter_wheres.
  change (base_wheres (with_local (Some false) f)) with (base_wheres f).
  change (base_wheres (with_local None f)) with (base_wheres f).
  change (search_wheres (with_local (Some false) f)) with (search_wheres f).
  change (search_wheres (with_local None f)) with (search_wheres f).
  cbn [with_local DittoFilter.tag_keys DittoFilter.local local_wheres].
  rewrite !forallb_app. cbn [forallb app].
  destruct (forallb (eval_where env row) (base_wheres f));
    destruct (forallb (eval_where env row) (tag_wheres (DittoFilter.tag_keys f)));
    destruct (forallb (eval_where env row) (search_wheres f));
    by destruct (eval_where env row UsersPubkey_is_null).
Qed.

(** The copies of an event under a filter with the [local] flag: those
    under the filter without the flag when the author is on the side the
    flag asks for, none otherwise. *)
Lemma event_rows_local env db f local ev :
  NoDup (DB.users db) ->
  event_rows env db (filter_joins (with_local (Some local) f))
    (filter_wheres (with_local (Some local) f)) ev
  = if decide (is_local db ev = local)
    then event_rows env db (filter_joins (with_local None f))
           (filter_wheres (with_local None f)) ev
    else [].
Proof.
  intros Hnodup.
  assert (Forall (fun w => w <> UsersPubkey_is_null)
            (filter_wheres (with_local None f))) as Hno
    by apply (filter_wheres_no_users (with_local None f)).
  rewrite !event_rows_sides.
  unfold tags_side, users_side, fts_side. rewrite !has_join_filter_joins.
  cbn [with_local DittoFilter.tag_keys DittoFilter.local DittoFilter.search].
  rewrite (filter_users_NoDup _ _ Hnodup).
  unfold is_local.
  rewrite (bool_decide_eq_false_2 (None = Some true)) by done.
  rewrite (bool_decide_eq_false_2 (None = Some false)) by done.
  destruct local.
  - (* inner join *)
    rewrite (bool_decide_eq_true_2 (Some true = Some true)) by done.
    change (filter_wheres (with_local (Some true) f))
      with (filter_wheres (with_local None f)).
    destruct (decide (Event.pubkey ev ∈ DB.users db)) as [Hin|Hnin].
    + rewrite bool_decide_eq_true_2 by done. rewrite decide_True by done.
      apply list_bind_ext; [|done]. intros t. cbn [map].
      rewrite !bind_singleton.
      apply list_bind_ext; [|done]. intros s.
      by rewrite (forallb_eval_user env ev t (Some (Event.pubkey ev)) None s _ Hno).
    + rewrite bool_decide_eq_false_2 by done. rewrite decide_False by done.
      apply bind_all_nil. intros t. done.
  - (* left join, users.pubkey is null *)
    rewrite (bool_decide_eq_false_2 (Some false = Some true)) by done.
    rewrite (bool_decide_eq_true_2 (Some false = Some false)) by done.
    destruct (decide (Event.pubkey ev ∈ DB.users db)) as [Hin|Hnin].
    + rewrite bool_decide_eq_true_2 by done. rewrite decide_False by done.
      apply bind_all_nil. intros t. cbn [left_side map].
      rewrite bind_singleton.
      apply bind_all_nil. intros s.
      rewrite filter_wheres_local. simpl. by rewrite andb_false_r.
    + rewrite bool_decide_eq_false_2 by done. rewrite decide_True by done.
      apply list_bind_ext; [|done]. intros t. cbn [left_side].
      rewrite !bind_singleton.
      apply list_bind_ext; [|done]. intros s.
      rewrite filter_wheres_local. simpl. by rewrite andb_true_r.
Qed.

(** C8. For every filter and every stored event set in which the users
    table holds each pubkey once, the query with [local = true] returns
    exactly the events the rest of the filter matches whose author is in
    the users table, and with [local = false] exactly those whose author is
    not: the result is the result of the same filter without the flag and
    without a limit, restricted to the authors on the side the flag asks
    for, then cut to the limit in force (that of the options, else that of
    the filter). *)
Theorem local_partition env f opts db local :
  NoDup (DB.users db) ->
  getFilters env [with_local (Some local) f] opts db
  = mapR (fun rows =>
            apply_limit (limit_in_force opts f)
              (filter (fun ev => is_local db ev = local) rows))
      (getFilters env [without_limit (with_local None f)] (GetFiltersOpts.mk None) db).
Proof.
  intros Hnodup. rewrite !getFilters_single, !ambiguous_filter_joins.
  cbn [with_local without_limit DittoFilter.tag_keys].
  destruct (Nat.leb 2 (length (DittoFilter.tag_keys f))); [done|].
  cbn [mapR]. f_equal.
  change (limit_in_force opts (with_local (Some local) f)) with (limit_in_force opts f).
  f_equal. cbn [apply_limit limit_in_force GetFiltersOpts.limit DittoFilter.limit without_limit].
  rewrite filter_sort_desc. f_equal.
  change (filter_joins (without_limit (with_local None f)))
    with (filter_joins (with_local None f)).
  change (filter_wheres (without_limit (with_local None f)))
    with (filter_wheres (with_local None f)).
  rewrite filter_bind_event_rows.
  apply list_bind_ext; [|done]. intros ev.
  by apply event_rows_local.
Qed.

(** ** What every query result satisfies *)

Lemma apply_limit_sorted limit l :
  sorted_desc l -> sorted_desc (apply_limit limit l).
Proof.
  unfold sorted_desc. destruct limit as [n|]; simpl; [|done].
  rewrite <- (take_drop n l) at 1. apply StronglySorted_app_1_l.
Qed.

Lemma apply_limit_length {A : Type} (n : nat) (l : list A) :
  (length (apply_limit (Some n) l) <= n)%nat.
Proof. simpl. rewrite length_take. lia. Qed.

(** The rows of a query are what its own limit leaves of an ordered list. *)
Lemma execute_shape env db joins wheres limit unions rows :
  execute env db (Select joins wheres limit unions) = Ok rows ->
  exists l, rows = apply_limit limit (sort_desc l).
Proof.
  cbn [execute].
  destruct (select_rows env db joins wheres) as [own|e]; [|done].
  cbn [bindR]. destruct unions as [|u us].
  - intros [= <-]. eauto.
  - match goal with |- context [bindR ?r _] => destruct r as [others|e] end;
      [|done].
    cbn [bindR]. intros [= <-]. eauto.
Qed.

(** Whatever the filters, a result of getFilters is ordered by
    [created_at], newest first, and holds at most [opts.limit] events. *)
Lemma getFilters_sorted_limited env filters opts db rows :
  getFilters env filters opts db = Ok rows ->
  sorted_desc rows
  /\ (forall n, GetFiltersOpts.limit opts = Some n -> (length rows <= n)%nat).
Proof.
  unfold getFilters.
  destruct (Nat.eqb (length filters) 0).
  { intros [= <-]. split; [constructor|]. intros n _. simpl. lia. }
  destruct (getFiltersQuery filters) as [[joins wheres limit unions]|e]; [|done].
  cbn [bindR]. rewrite when_limit. intros Hrows.
  apply execute_shape in Hrows as [l ->]. split.
  - apply apply_limit_sorted, sort_desc_sorted.
  - intros n ->. apply apply_limit_length.
Qed.

(** ** Plain filters: the union of the events that pass *)

Lemma with_local_same f : with_local (DittoFilter.local f) f = f.
Proof. by destruct f. Qed.

Lemma base_wheres_passes env db f ev t u s :
  forallb (eval_where env (mkJoinedRow ev t u s)) (base_wheres f)
  = passes db (with_local None f) ev.
Proof.
  unfold base_wheres, passes, among, bound, mem. rewrite !forallb_app.
  cbn [with_local DittoFilter.ids DittoFilter.kinds DittoFilter.authors
       DittoFilter.since DittoFilter.until DittoFilter.local].
  destruct (DittoFilter.ids f), (DittoFilter.kinds f), (DittoFilter.authors f),
    (DittoFilter.since f), (DittoFilter.until f);
    cbn [opt_where forallb eval_where jr_event]; unfold mem;
    rewrite ?andb_true_r, ?andb_true_l, ?andb_assoc; reflexivity.
Qed.

(** A plain filter without the [local] flag yields each event that passes
    once. *)
Lemma event_rows_plain env db f ev :
  plain f = true ->
  event_rows env db (filter_joins (with_local None f))
    (filter_wheres (with_local None f)) ev
  = if passes db (with_local None f) ev then [ev] else [].
Proof.
  unfold plain. intros Hplain.
  apply andb_true_iff in Hplain as [Hplain _].
  apply andb_true_iff in Hplain as [Hkeys Hsearch].
  apply bool_decide_eq_true in Hkeys. apply negb_true_iff in Hsearch.
  rewrite event_rows_sides.
  unfold tags_side, users_side, fts_side. rewrite !has_join_filter_joins.
  cbn [with_local DittoFilter.tag_keys DittoFilter.local DittoFilter.search].
  rewrite Hkeys, Hsearch.
  rewrite (bool_decide_eq_false_2 (None = Some true)) by done.
  rewrite (bool_decide_eq_false_2 (None = Some false)) by done.
  change (has_join LeftJoin_tags (tag_joins [])) with false. cbv iota.
  rewrite !bind_singleton.
  unfold filter_wheres, search_wheres.
  cbn [with_local DittoFilter.tag_keys DittoFilter.local DittoFilter.search].
  rewrite Hkeys, Hsearch. cbn [tag_wheres flat_map local_wheres app].
  rewrite app_nil_r.
  change (base_wheres (with_local None f)) with (base_wheres f).
  by rewrite (base_wheres_passes env db).
Qed.

Lemma passes_local db f ev :
  passes db f ev
  = passes db (with_local None f) ev
    && match DittoFilter.local f with
       | Some local => Bool.eqb (is_local db ev) local
       | None => true
       end.
Proof. unfold passes. cbn [with_local DittoFilter.local]. by rewrite andb_true_r. Qed.

(** A plain filter yields each event that passes once. *)
Lemma event_rows_passes env db f ev :
  NoDup (DB.users db) ->
  plain f = true ->
  event_rows env db (filter_joins f) (filter_wheres f) ev
  = if passes db f ev then [ev] else [].
Proof.
  intros Hnodup Hplain. rewrite passes_local.
  rewrite <- (with_local_same f) at 1 2.
  destruct (DittoFilter.local f) as [local|].
  - rewrite event_rows_local by done. rewrite event_rows_plain by done.
    destruct (decide (is_local db ev = local)) as [->|Hne].
    + by rewrite eqb_reflx, andb_true_r.
    + apply eqb_false_iff in Hne. by rewrite Hne, andb_false_r.
  - rewrite event_rows_plain by done. by rewrite andb_true_r.
Qed.

Lemma bind_passes env db f (l : list Event.t) :
  NoDup (DB.users db) ->
  plain f = true ->
  l ≫= event_rows env db (filter_joins f) (filter_wheres f)
  = filter (fun ev => passes db f ev = true) l.
Proof.
  intros Hnodup Hplain. induction l as [|ev l IH]; [done|].
  rewrite bind_cons, IH, event_rows_passes, filter_cons by done.
  destruct (passes db f ev) eqn:Hp.
  - by rewrite decide_True.
  - by rewrite decide_False.
Qed.

(** The query of one filter, run on its own. *)
Lemma execute_getFilterQuery env db f :
  execute env db (getFilterQuery f)
  = if ambiguous (filter_joins f) then Err (SqliteError 1)
    else Ok (apply_limit (DittoFilter.limit f)
               (sort_desc (DB.events db
                           ≫= event_rows env db (filter_joins f) (filter_wheres f)))).
Proof.
  rewrite getFilterQuery_shape. cbn [execute].
  rewrite select_rows_events. fold (filter_joins f). fold (filter_wheres f).
  fold (ambiguous (filter_joins f)).
  by destruct (ambiguous (filter_joins f)).
Qed.

Lemma plain_not_ambiguous f : plain f = true -> ambiguous (filter_joins f) = false.
Proof.
  unfold plain. intros H. apply andb_true_iff in H as [H _].
  apply andb_true_iff in H as [H _]. apply bool_decide_eq_true in H.
  by rewrite ambiguous_filter_joins, H.
Qed.

Lemma plain_limit f : plain f = true -> DittoFilter.limit f = None.
Proof.
  unfold plain. intros H. apply andb_true_iff in H as [_ H].
  by apply bool_decide_eq_true in H.
Qed.

Lemma execute_plain env db f :
  NoDup (DB.users db) ->
  plain f = true ->
  execute env db (getFilterQuery f)
  = Ok (sort_desc (filter (fun ev => passes db f ev = true) (DB.events db))).
Proof.
  intros Hnodup Hplain.
  rewrite execute_getFilterQuery, plain_not_ambiguous, plain_limit by done.
  by rewrite bind_passes.
Qed.

(** The operands of the union for plain filters. *)
Lemma collect_plain env db fs :
  NoDup (DB.users db) ->
  forallb plain fs = true ->
  collect (execute env db) (map getFilterQuery fs)
  = Ok (fs ≫= (fun f =>
                 sort_desc (filter (fun ev => passes db f ev = true) (DB.events db)))).
Proof.
  intros Hnodup. induction fs as [|f fs IH]; intros Hplain; [done|].
  cbn [forallb] in Hplain. apply andb_true_iff in Hplain as [Hf Hfs].
  cbn [map collect]. rewrite execute_plain by done. cbn [bindR].
  fold (collect (execute env db)). rewrite (IH Hfs). cbn [bindR].
  by rewrite bind_cons.
Qed.

Lemma fold_left_union qs joins wheres limit unions :
  fold_left union_ qs (Select joins wheres limit unions)
  = Select joins wheres limit (unions ++ qs).
Proof.
  revert unions. induction qs as [|q qs IH]; intros unions; simpl.
  - by rewrite app_nil_r.
  - rewrite IH. by rewrite <- app_assoc.
Qed.

Lemma insert_desc_perm e l : insert_desc e l ≡ₚ e :: l.
Proof.
  induction l as [|x l IH]; simpl; [done|].
  destruct (Event.created_at x <=? Event.created_at e); [done|].
  rewrite IH. apply Permutation_swap.
Qed.

Lemma sort_desc_perm l : sort_desc l ≡ₚ l.
Proof.
  induction l as [|e l IH]; simpl; [done|].
  by rewrite insert_desc_perm, IH.
Qed.

(** The rows of a query over plain filters, before the limit of the
    options. *)
Lemma getFilters_plain_rows env f fs opts db :
  NoDup (DB.users db) ->
  forallb plain (f :: fs) = true ->
  getFilters env (f :: fs) opts db
  = Ok (apply_limit (GetFiltersOpts.limit opts)
          (sort_desc
             (match fs with
              | [] => filter (fun ev => passes db f ev = true) (DB.events db)
              | _ =>
                  remove_dups
                    (filter (fun ev => passes db f ev = true) (DB.events db)
                     ++ (fs ≫= (fun g =>
                           sort_desc (filter (fun ev => passes db g ev = true)
                                        (DB.events db)))))
              end))).
Proof.
  intros Hnodup Hplain.
  cbn [forallb] in Hplain. apply andb_true_iff in Hplain as [Hf Hfs].
  unfold getFilters, getFiltersQuery. cbn [length Nat.eqb map bindR].
  rewrite (getFilterQuery_shape f), fold_left_union, when_limit. cbn [app].
  rewrite (plain_limit f Hf).
  fold (filter_joins f). fold (filter_wheres f).
  cbn [execute]. rewrite select_rows_events.
  fold (ambiguous (filter_joins f)). rewrite plain_not_ambiguous by done.
  cbn [bindR]. rewrite bind_passes by done.
  destruct fs as [|g gs].
  - cbn [map]. by destruct (GetFiltersOpts.limit opts).
  - rewrite collect_plain by done. cbn [bindR map].
    by destruct (GetFiltersOpts.limit opts).
Qed.

(** For a non-empty list of plain filters over a store whose events and
    users are each stored once: getFilters returns, newest first and each
    once, exactly the stored events that pass at least one filter, cut to
    [opts.limit] when it is given. *)
Lemma getFilters_plain_union env f fs opts db :
  NoDup (DB.events db) ->
  NoDup (DB.users db) ->
  forallb plain (f :: fs) = true ->
  exists rows,
    getFilters env (f :: fs) opts db
    = Ok (apply_limit (GetFiltersOpts.limit opts) rows)
    /\ (forall ev, ev ∈ rows <->
          ev ∈ DB.events db /\ exists g, g ∈ f :: fs /\ passes db g ev = true)
    /\ NoDup rows
    /\ sorted_desc rows.
Proof.
  intros Hevents Husers Hplain.
  rewrite (getFilters_plain_rows env f fs opts db Husers Hplain).
  eexists. split; [reflexivity|]. split; [|split].
  - intros ev. rewrite sort_desc_elem. destruct fs as [|g gs].
    + rewrite list_elem_of_filter. split.
      * intros [Hp Hin]. split; [done|]. exists f. split; [apply list_elem_of_here|done].
      * intros [Hin (g & Hg & Hp)]. apply list_elem_of_singleton in Hg as ->. done.
    + rewrite elem_of_remove_dups, elem_of_app, list_elem_of_filter, list_elem_of_bind.
      split.
      * intros [[Hp Hin]|(h & Hev & Hh)].
        -- split; [done|]. exists f. split; [apply list_elem_of_here|done].
        -- apply sort_desc_elem, list_elem_of_filter in Hev as [Hp Hin].
           split; [done|]. exists h. split; [by apply list_elem_of_further|done].
      * intros [Hin (h & Hh & Hp)]. apply elem_of_cons in Hh as [->|Hh].
        -- by left.
        -- right. exists h. split; [|done].
           apply sort_desc_elem, list_elem_of_filter. done.
  - rewrite sort_desc_perm. destruct fs as [|g gs].
    + by apply NoDup_filter.
    + apply NoDup_remove_dups.
  - apply sort_desc_sorted.
Qed.

Lemma apply_limit_NoDup {A : Type} limit (l : list A) :
  NoDup l -> NoDup (apply_limit limit l).
Proof.
  intros Hl. destruct limit as [n|]; simpl; [|done].
  apply (sublist_NoDup _ l); [done|apply sublist_take].
Qed.

(** With two or more filters the rows go through [union]: no event is
    returned twice, whatever the filters and the limit. *)
Lemma getFilters_union_NoDup env f g gs opts db rows :
  getFilters env (f :: g :: gs) opts db = Ok rows -> NoDup rows.
Proof.
  intros Hrows.
  unfold getFilters, getFiltersQuery in Hrows.
  cbn [length Nat.eqb map bindR] in Hrows.
  rewrite (getFilterQuery_shape f), fold_left_union, when_limit in Hrows.
  cbn [app execute] in Hrows.
  destruct (select_rows env db _ _) as [own|e]; [|done].
  cbn [bindR] in Hrows.
  destruct (collect (execute env db) (getFilterQuery g :: map getFilterQuery gs))
    as [others|e]; [|done].
  cbn [bindR] in Hrows. injection Hrows as <-.
  apply apply_limit_NoDup. rewrite sort_desc_perm. apply NoDup_remove_dups.
Qed.

(** ** The rows of every reachable store *)

Lemma id_stored_spec id db :
  id_stored id db = true <-> id ∈ map Event.id (DB.events db).
Proof.
  unfold id_stored, mem. rewrite existsb_exists. split.
  - intros (x & Hx & Heq). apply String.eqb_eq in Heq as ->.
    by apply list_elem_of_In.
  - intros Hin. exists id. split; [by apply list_elem_of_In|apply String.eqb_refl].
Qed.

Lemma id_stored_false id db :
  id_stored id db = false <-> id ∉ map Event.id (DB.events db).
Proof.
  rewrite <- id_stored_spec. by destruct (id_stored id db).
Qed.


Lemma updateStats_tags event db :
  DB.events (updateStats event db) = DB.events db
  /\ DB.tags (updateStats event db) = DB.tags db.
Proof.
  unfold updateStats. destruct (updateStatsQuery event) as [[? ? ? ?|? ? ? ?]|]; done.
Qed.

Lemma updateStats_events_fts event db :
  DB.events_fts (updateStats event db) = DB.events_fts db.
Proof.
  unfold updateStats. destruct (updateStatsQuery event) as [[? ? ? ?|? ? ? ?]|]; done.
Qed.

(** In every reachable store the value of a tag row is shorter than 200
    characters and the content of a search row has at most 1000. *)
Lemma reachable_rows_bounded env allowed db :
  reachable env allowed db ->
  (forall r, r ∈ DB.tags db -> (String.length (TagRow.value r) < 200)%nat)
  /\ (forall r, r ∈ DB.events_fts db -> (String.length (FtsRow.content r) <= 1000)%nat).
Proof.
  induction 1 as [|faults event data db Hreach [IHt IHf] Hallowed
                  |event db Hreach [IHt IHf]].
  - split; intros r Hr; by apply elem_of_nil in Hr.
  - split; intros r Hr.
    + destruct (insertEvent_tags env faults event data db) as [Heq|Heq];
        rewrite Heq in Hr; [by apply IHt|].
      apply elem_of_app in Hr as [Hr|Hr]; [by apply IHt|].
      apply list_elem_of_fmap in Hr as (tag & -> & Hin).
      apply indexed_tags_kept in Hin as [_ (v & Hv & _ & Hlen)].
      unfold tag_row. simpl. by rewrite Hv.
    + destruct (insertEvent_events_fts env faults event data db)
        as [Heq|(searchContent & _ & _ & Heq)]; rewrite Heq in Hr; [by apply IHf|].
      apply elem_of_app in Hr as [Hr|Hr]; [by apply IHf|].
      apply list_elem_of_singleton in Hr as ->. simpl. apply substring_length.
  - destruct (updateStats_tags event db) as [_ Htg].
    rewrite Htg, updateStats_events_fts. done.
Qed.



(** C5 (amended). buildSearchContent yields, for a kind-0 event whose
    content parses, the name, nip05 and about fields joined with newlines,
    skipping the absent and the empty ones; for a kind-1 event the raw
    content; for every other kind the empty string, and then the call
    writes no search row.  Every search row the call writes is the row of
    the event, holding the first 1000 characters of the search content, and
    no store reached by inserting events holds a search row of more than
    1000 characters. *)
Theorem search_content env faults event data db :
  (forall meta,
     Event.kind event = 0 ->
     jsonMetaContentSchema_parse env (Event.content event) = inr meta ->
     buildSearchContent env event = Ok (join_nonempty meta))
  /\ (Event.kind event = 1 ->
      buildSearchContent env event = Ok (Event.content event))
  /\ (Event.kind event <> 0 -> Event.kind event <> 1 ->
      buildSearchContent env event = Ok ""
      /\ DB.events_fts (snd (insertEvent env faults event data db))
         = DB.events_fts db)
  /\ (forall r,
        r ∈ DB.events_fts (snd (insertEvent env faults event data db)) ->
        r ∈ DB.events_fts db
        \/ (FtsRow.id r = Event.id event
            /\ exists searchContent,
                 buildSearchContent env event = Ok searchContent
                 /\ FtsRow.content r = String.substring 0 1000 searchContent))
  /\ (forall allowed store r,
        reachable env allowed store ->
        r ∈ DB.events_fts store ->
        (String.length (FtsRow.content r) <= 1000)%nat).
Proof.
  split; [|split; [|split; [|split]]].
  - intros meta Hkind Hparse.
    unfold buildSearchContent, buildUserSearchContent.
    rewrite Hkind. change (0 =? 0) with true. cbv iota. rewrite Hparse.
    unfold join_nonempty, profile_fields. by rewrite filter_Boolean_nonempty.
  - intros Hkind. unfold buildSearchContent. by rewrite Hkind.
  - intros H0 H1.
    assert (buildSearchContent env event = Ok "") as Hsearch.
    { unfold buildSearchContent.
      destruct (Z.eqb_spec (Event.kind event) 0); [done|].
      by destruct (Z.eqb_spec (Event.kind event) 1). }
    split; [done|].
    destruct (insertEvent_events_fts env faults event data db)
      as [Heq|(searchContent & Hs & Hne & _)]; [done|].
    rewrite Hsearch in Hs. by injection Hs as <-.
  - intros r Hr.
    destruct (insertEvent_events_fts env faults event data db)
      as [Heq|(searchContent & Hs & Hne & Heq)]; rewrite Heq in Hr; [by left|].
    apply elem_of_app in Hr as [Hr|Hr]; [by left|].
    apply list_elem_of_singleton in Hr as ->. right. simpl.
    split; [done|]. eauto.
  - intros allowed store r Hreach Hr.
    by apply (proj2 (reachable_rows_bounded env allowed store Hreach)).
Qed.

(** C7. A tag whose value is longer than 200 characters is never indexed,
    whatever its name, its occurrence count and the shape of its value: the
    filter does not keep it for any event, and no store reached by
    inserting events holds a tag row with a value of 200 characters or
    more. *)
Theorem long_value_never_indexed env :
  (forall event data tag value,
     tag_value tag = Some value ->
     (200 < String.length value)%nat ->
     tag ∉ indexed_tags env event data)
  /\ (forall allowed db r,
        reachable env allowed db ->
        r ∈ DB.tags db ->
        (String.length (TagRow.value r) < 200)%nat).
Proof.
  split.
  - intros event data tag value Hvalue Hlong Hin.
    apply indexed_tags_kept in Hin as [_ (v & Hv & _ & Hlen)].
    rewrite Hvalue in Hv. injection Hv as <-. lia.
  - intros allowed db r Hreach Hr.
    by apply (proj1 (reachable_rows_bounded env allowed db Hreach)).
Qed.


(** Inserting an event a second time changes nothing and raises nothing,
    when the first insert went through. *)
Lemma insertEvent_twice env event data db tags searchContent :
  id_stored (Event.id event) db = false ->
  filterIndexableTags env event data = Ok tags ->
  buildSearchContent env event = Ok searchContent ->
  let db1 := snd (insertEvent env no_faults event data db) in
  db1 = written db event tags searchContent
  /\ insertEvent env no_faults event data db1 = (Ok tt, db1).
Proof.
  intros Hnew Htags Hsearch db1.
  assert (db1 = written db event tags searchContent) as Hdb1.
  { unfold db1. rewrite insertEvent_unfold.
    by rewrite (insertEvent_body_succeeds _ _ _ _ _ tags searchContent). }
  split; [done|].
  assert (id_stored (Event.id event) db1 = true) as Hstored.
  { rewrite Hdb1. apply id_stored_spec. simpl. rewrite map_app.
    apply elem_of_app. right. apply list_elem_of_here. }
  rewrite insertEvent_unfold, insertEvent_body_unfold, Htags, Hsearch.
  unfold insertInto_events. simpl. by rewrite Hstored.
Qed.

(** ** The properties on concrete inputs *)

Lemma forallb_elem_of {A : Type} (P : A -> bool) (l : list A) :
  forallb P l = true -> forall x, x ∈ l -> P x = true.
Proof.
  intros H x Hx. apply list_elem_of_In in Hx.
  by apply (proj1 (forallb_forall P l) H).
Qed.



(** C6, as stated, fails: of 20 [e] tags whose value is not a well-formed
    identifier none is indexed, and of 20 [t] tags whose value is empty
    (so shorter than 50) none is indexed. *)
Lemma tag_cap_not_reached :
  count_named "e" (Event.tags note_20e_malformed) = 20%nat
  /\ count_rows (Event.id note_20e_malformed) "e"
       (DB.tags (snd (insertEvent example_env no_faults note_20e_malformed remote
                        DB.empty))) = 0%nat
  /\ count_named "t" (Event.tags note_20t_empty) = 20%nat
  /\ Forall (fun tag => exists v, tag_value tag = Some v /\ (String.length v < 50)%nat)
       (Event.tags note_20t_empty)
  /\ count_rows (Event.id note_20t_empty) "t"
       (DB.tags (snd (insertEvent example_env no_faults note_20t_empty remote
                        DB.empty))) = 0%nat.
Proof.
  split; [by vm_compute|]. split; [by vm_compute|]. split; [by vm_compute|].
  split; [|by vm_compute].
  apply Forall_forall. intros tag Hin.
  apply elem_of_replicate in Hin as [-> _]. exists "". simpl. split; [done|lia].
Qed.

(** The theorem at a new note with 20 well-formed [e] tags and 20 [t] tags
    ["nostr"], inserted into the empty store. *)
Lemma tag_cap_reached_witness :
  (count_named "e" (indexed_tags example_env note_20e_20t remote) = 15%nat
   /\ count_rows (Event.id note_20e_20t) "e"
        (DB.tags (snd (insertEvent example_env no_faults note_20e_20t remote DB.empty)))
      = (count_rows (Event.id note_20e_20t) "e" (DB.tags DB.empty) + 15)%nat)
  /\ (count_named "t" (indexed_tags example_env note_20e_20t remote) = 5%nat
      /\ count_rows (Event.id note_20e_20t) "t"
           (DB.tags (snd (insertEvent example_env no_faults note_20e_20t remote DB.empty)))
         = (count_rows (Event.id note_20e_20t) "t" (DB.tags DB.empty) + 5)%nat).
Proof.
  destruct (tag_cap_reached example_env note_20e_20t remote DB.empty "hello"
              eq_refl eq_refl eq_refl) as [He Ht].
  split.
  - apply He; [reflexivity|].
    intros tag Hin Hname.
    pose proof (forallb_elem_of
                  (fun tag => negb (String.eqb (tag_name tag) "e")
                              || valid_e_tag example_env tag)
                  (Event.tags note_20e_20t) eq_refl tag Hin) as H.
    simpl in H. rewrite Hname in H. exact H.
  - apply Ht; [reflexivity|].
    intros tag Hin Hname.
    pose proof (forallb_elem_of
                  (fun tag => negb (String.eqb (tag_name tag) "t") || valid_t_tag tag)
                  (Event.tags note_20e_20t) eq_refl tag Hin) as H.
    simpl in H. rewrite Hname in H. exact H.
Defined.

(** The theorem at a note whose [e] tag has a value of 250 characters, and
    at the store reached by inserting it. *)
Lemma long_value_never_indexed_witness :
  (["e"; long_value] ∉ indexed_tags example_env note_long_e remote)
  /\ Forall (fun r => (String.length (TagRow.value r) < 200)%nat)
       (DB.tags (snd (insertEvent example_env no_faults note_long_e remote DB.empty))).
Proof.
  destruct (long_value_never_indexed example_env) as [Hfilter Hstore].
  split.
  - apply (Hfilter note_long_e remote ["e"; long_value] long_value).
    + reflexivity.
    + vm_compute. lia.
  - apply Forall_forall. intros r Hr.
    apply (Hstore (fun _ => True)
             (snd (insertEvent example_env no_faults note_long_e remote DB.empty)) r);
      [|exact Hr].
    apply reachable_insert; [apply reachable_empty|exact I].
Defined.




(** C5, as stated, fails: for a profile whose name is the empty string and
    whose about is ["x"], joining the fields that are present gives a
    newline followed by ["x"], while buildSearchContent gives ["x"]. *)
Lemma empty_profile_field_skipped :
  jsonMetaContentSchema_parse example_env (Event.content profile_empty_name)
  = inr (MetaContent.mk (Some "") None (Some "x"))
  /\ join_present (MetaContent.mk (Some "") None (Some "x")) = newline +:+ "x"
  /\ buildSearchContent example_env profile_empty_name = Ok "x"
  /\ buildSearchContent example_env profile_empty_name
     <> Ok (join_present (MetaContent.mk (Some "") None (Some "x"))).
Proof.
  split; [by vm_compute|]. split; [by vm_compute|]. split; [by vm_compute|].
  vm_compute. discriminate.
Qed.

(** The theorem at a profile, at a note and at a reaction. *)
Lemma search_content_witness :
  buildSearchContent example_env profile_empty_name
  = Ok (join_nonempty (MetaContent.mk (Some "") None (Some "x")))
  /\ buildSearchContent example_env note_e = Ok (Event.content note_e)
  /\ (buildSearchContent example_env reaction_to_b = Ok ""
      /\ DB.events_fts (snd (insertEvent example_env no_faults reaction_to_b remote
                               DB.empty))
         = DB.events_fts DB.empty).
Proof.
  destruct (search_content example_env no_faults profile_empty_name remote DB.empty)
    as [H0 _].
  destruct (search_content example_env no_faults note_e remote DB.empty)
    as [_ [H1 _]].
  destruct (search_content example_env no_faults reaction_to_b remote DB.empty)
    as [_ [_ [Hother _]]].
  split; [|split].
  - apply H0; reflexivity.
  - apply H1; reflexivity.
  - apply Hother; discriminate.
Defined.

(** C9, as stated, fails: a kind-6 event whose first [e] tag has the empty
    string as its value has a first [e] tag, and no counter changes, that
    of the event named by the value included. *)
Lemma repost_without_reference :
  Event.kind repost_of_nothing = 6
  /\ findFirstTag repost_of_nothing "e" = Some ""
  /\ updateStats repost_of_nothing DB.empty = DB.empty
  /\ DB.event_stats (updateStats repost_of_nothing DB.empty) !! "" = None.
Proof. by vm_compute. Qed.

(** The theorem at a reaction to the event [id_b], with no stats row yet:
    the row is created with [reactions_count] 1 and the other counters 0. *)
Lemma updateStats_counter_witness :
  DB.event_stats (updateStats reaction_to_b DB.empty) !! id_b
  = Some (EventStatsRow.mk
            (EventStatsRow.replies_count (event_counters DB.empty id_b))
            (EventStatsRow.reposts_count (event_counters DB.empty id_b))
            (EventStatsRow.reactions_count (event_counters DB.empty id_b) + 1))
  /\ (forall k, k <> id_b ->
        DB.event_stats (updateStats reaction_to_b DB.empty) !! k
        = DB.event_stats DB.empty !! k)
  /\ DB.pubkey_stats (updateStats reaction_to_b DB.empty) = DB.pubkey_stats DB.empty
  /\ same_store DB.empty (updateStats reaction_to_b DB.empty).
Proof.
  apply (proj1 (proj2 (proj2 (updateStats_counter reaction_to_b DB.empty))) id_b).
  - reflexivity.
  - reflexivity.
  - discriminate.
Defined.



(** A note of 2000 characters yields a search row of 1000. *)
Example search_row_truncated :
  map (fun r => String.length (FtsRow.content r))
    (DB.events_fts (snd (insertEvent example_env no_faults note_2000 remote DB.empty)))
  = [1000%nat].
Proof. by vm_compute. Qed.

(** A reaction to the event [id_b] creates its stats row. *)
Example reaction_creates_row :
  DB.event_stats (updateStats reaction_to_b DB.empty) !! id_b
  = Some (EventStatsRow.mk 0 0 1).
Proof. by vm_compute. Qed.

(** The profile that does not parse, inserted into the empty store. *)
Example unparsable_profile_raises :
  insertEvent example_env no_faults profile_not_json remote DB.empty
  = (Err (ZodError "Invalid JSON"), DB.empty).
Proof. by vm_compute. Qed.

(** ** Queries on concrete stores *)

(** C2 at a failing input: the hashtag filter [{kinds: [1], "#t": ["nostr",
    "bitcoin"]}] over the store that holds one note with both hashtags.
    The note matches through two tag rows and is returned twice. *)
Theorem getFilters_repeats_event :
  DB.events store_with_hashtags = [note_two_hashtags]
  /\ getFilters example_env [hashtag_filter] no_opts store_with_hashtags
     = Ok [note_two_hashtags; note_two_hashtags].
Proof. by vm_compute. Qed.

(** The same filter given twice goes through [union], which removes the
    repetition. *)
Example getFilters_union_removes_repetition :
  getFilters example_env [hashtag_filter; hashtag_filter] no_opts store_with_hashtags
  = Ok [note_two_hashtags].
Proof. by vm_compute. Qed.

(** The theorem at users = {A}, authors [A, B] and [local: true]. *)
Lemma local_partition_witness :
  getFilters example_env [with_local (Some true) authors_a_b] no_opts store_a_local
  = mapR (fun rows =>
            apply_limit (limit_in_force no_opts authors_a_b)
              (filter (fun ev => is_local store_a_local ev = true) rows))
      (getFilters example_env [without_limit (with_local None authors_a_b)]
         (GetFiltersOpts.mk None) store_a_local).
Proof.
  apply (local_partition example_env authors_a_b no_opts store_a_local true).
  apply NoDup_singleton.
Defined.

(** Users = {A}, authors [A, B]: [local: true] yields only A's event and
    [local: false] only B's. *)
Example local_true_only_a :
  getFilters example_env [with_local (Some true) authors_a_b] no_opts store_a_local
  = Ok [note_by_a].
Proof. by vm_compute. Qed.

Example local_false_only_b :
  getFilters example_env [with_local (Some false) authors_a_b] no_opts store_a_local
  = Ok [note_by_b].
Proof. by vm_compute. Qed.

(** ** The tag filter: order and policy *)

(** A kept tag was let through by its condition at some occurrence count. *)
Lemma reduce_tags_should env event data tags tagCounts rows tag :
  reduce_tags env event data tags tagCounts [] = Ok rows ->
  tag ∈ rows ->
  exists count,
    shouldIndex env event data (tag_name tag) count (tag_value tag) = Ok true.
Proof.
  revert tagCounts rows.
  induction tags as [|tag' rest IH]; intros tagCounts rows Hred Hin.
  - simpl in Hred. injection Hred as <-. by apply elem_of_nil in Hin.
  - reduce_step Hred should Hshould rows' Hrest.
    destruct (indexable (tag_value tag') should) eqn:Hkeep.
    + apply elem_of_cons in Hin as [->|Hin]; [|by eapply IH].
      apply indexable_value in Hkeep as (v & _ & _ & _ & ->). eauto.
    + by eapply IH.
Qed.

Lemma reduce_tags_sublist env event data tags tagCounts rows :
  reduce_tags env event data tags tagCounts [] = Ok rows ->
  rows `sublist_of` tags.
Proof.
  revert tagCounts rows.
  induction tags as [|tag rest IH]; intros tagCounts rows Hred.
  - simpl in Hred. injection Hred as <-. constructor.
  - reduce_step Hred should Hshould rows' Hrest.
    destruct (indexable (tag_value tag) should).
    + apply sublist_skip. by eapply IH.
    + apply sublist_cons. by eapply IH.
Qed.

(** X1. The tags filterIndexableTags returns are tags of the event, in the
    order the event lists them: the filter drops tags and does nothing
    else. *)
Theorem filterIndexableTags_sublist env event data tags :
  filterIndexableTags env event data = Ok tags ->
  tags `sublist_of` Event.tags event.
Proof. apply reduce_tags_sublist. Qed.

Lemma mem_elem_of (s : string) (l : list string) : mem s l = true <-> s ∈ l.
Proof.
  unfold mem. rewrite existsb_exists. split.
  - intros (x & Hx & Heq). apply String.eqb_eq in Heq as ->.
    by apply list_elem_of_In.
  - intros Hs. exists s. split; [by apply list_elem_of_In|apply String.eqb_refl].
Qed.

(** What a condition that answers [true] has checked. *)
Ltac solve_names :=
  repeat split;
  first
    [ done
    | apply list_elem_of_In; simpl; tauto
    | let Hin := fresh "Hin" in
      intros Hin; apply list_elem_of_In in Hin; simpl in Hin;
      intuition (discriminate || eauto)
    | intros _; eauto ].

Lemma shouldIndex_true env event data name count value :
  shouldIndex env event data name count value = Ok true ->
  (name ∈ policy_names ++ inherited_truthy)
  /\ (name = "d" -> isParameterizedReplaceableKind (Event.kind event) = true)
  /\ (name ∈ ["e"; "p"; "q"] -> holds (isNostrId env) value = true)
  /\ (name ∈ ["media"; "proxy"] -> holds (isURL env) value = true)
  /\ (name = "q" -> Event.kind event = 1)
  /\ (name = "t" -> exists v, value = Some v /\ (String.length v < 50)%nat).
Proof.
  unfold shouldIndex, tagConditions. intros H.
  repeat match type of H with
         | context [if String.eqb ?a ?b then _ else _] =>
             destruct (String.eqb a b) eqn:?
         end;
    repeat match goal with
           | Heq : String.eqb _ _ = true |- _ => apply String.eqb_eq in Heq; subst
           end.
  - unfold cond_d in H. injection H as H. apply andb_true_iff in H as [_ H].
    solve_names.
  - unfold cond_e in H. injection H as H. apply andb_true_iff in H as [_ H].
    solve_names.
  - unfold cond_media in H. injection H as H. apply andb_true_iff in H as [_ H].
    solve_names.
  - unfold cond_p in H. injection H as H. apply andb_true_iff in H as [_ H].
    solve_names.
  - unfold cond_proxy in H. injection H as H. apply andb_true_iff in H as [_ H].
    solve_names.
  - unfold cond_q in H. injection H as H. apply andb_true_iff in H as [H Hid].
    apply andb_true_iff in H as [_ Hkind]. apply Z.eqb_eq in Hkind.
    solve_names.
  - unfold cond_t in H. destruct (Nat.ltb count 5); [|done].
    destruct value as [v|]; [|done]. injection H as H. apply Nat.ltb_lt in H.
    solve_names.
  - destruct (mem name inherited_truthy) eqn:Hmem.
    + apply mem_elem_of in Hmem.
      repeat match goal with
             | Hne : String.eqb _ _ = false |- _ => apply String.eqb_neq in Hne
             end.
      repeat split; try done.
      * apply elem_of_app. by right.
      * intros Hin. apply list_elem_of_In in Hin. simpl in Hin. intuition congruence.
      * intros Hin. apply list_elem_of_In in Hin. simpl in Hin. intuition congruence.
    + destruct (mem name inherited_falsy); [done|].
      by destruct (mem name inherited_throwing).
Qed.

(** X2. Every tag filterIndexableTags keeps has a value that is not empty,
    carries one of the seven names of the policy table or the name of one
    of four inherited properties of the table object ([constructor],
    [toString], [toLocaleString], [valueOf]), and passed the test of its
    name: a [d] tag belongs to an event of a parameterized replaceable
    kind, the value of an [e], [p] or [q] tag is an identifier by
    [isNostrId], that of a [media] or [proxy] tag a URL by [isURL], a [q]
    tag belongs to a kind-1 event and the value of a [t] tag is shorter
    than 50. *)
Theorem filterIndexableTags_policy env event data tags tag :
  filterIndexableTags env event data = Ok tags ->
  tag ∈ tags ->
  exists v,
    tag_value tag = Some v
    /\ v <> ""
    /\ (tag_name tag ∈ policy_names ++ inherited_truthy)
    /\ (tag_name tag = "d" ->
        isParameterizedReplaceableKind (Event.kind event) = true)
    /\ (tag_name tag ∈ ["e"; "p"; "q"] -> isNostrId env v = true)
    /\ (tag_name tag ∈ ["media"; "proxy"] -> isURL env v = true)
    /\ (tag_name tag = "q" -> Event.kind event = 1)
    /\ (tag_name tag = "t" -> (String.length v < 50)%nat).
Proof.
  unfold filterIndexableTags. intros Hred Hin.
  destruct (reduce_tags_kept _ _ _ _ _ _ _ Hred Hin) as [_ (v & Hv & Hne & _)].
  destruct (reduce_tags_should _ _ _ _ _ _ _ Hred Hin) as [count Hshould].
  apply shouldIndex_true in Hshould as (Hname & Hd & Hid & Hurl & Hq & Ht).
  rewrite Hv in Hid, Hurl, Ht. simpl in Hid, Hurl.
  exists v. repeat match goal with |- _ /\ _ => split end; try done.
  intros Hname'. destruct (Ht Hname') as (v' & [= <-] & Hlen). done.
Qed.

(** The theorem on a note with an [e] tag; and a tag named [constructor]
    is kept, while a tag named [r] is not. *)
Lemma filterIndexableTags_policy_witness :
  exists v,
    tag_value ["e"; id_b] = Some v
    /\ v <> ""
    /\ (tag_name ["e"; id_b] ∈ policy_names ++ inherited_truthy)
    /\ (tag_name ["e"; id_b] = "d" ->
        isParameterizedReplaceableKind (Event.kind note_e) = true)
    /\ (tag_name ["e"; id_b] ∈ ["e"; "p"; "q"] -> isNostrId example_env v = true)
    /\ (tag_name ["e"; id_b] ∈ ["media"; "proxy"] -> isURL example_env v = true)
    /\ (tag_name ["e"; id_b] = "q" -> Event.kind note_e = 1)
    /\ (tag_name ["e"; id_b] = "t" -> (String.length v < 50)%nat).
Proof.
  apply (filterIndexableTags_policy example_env note_e remote [["e"; id_b]]).
  - reflexivity.
  - apply list_elem_of_here.
Defined.

Example inherited_name_is_indexed :
  filterIndexableTags example_env note_constructor_tag remote
  = Ok [["constructor"; "x"]].
Proof. reflexivity. Qed.

(** The theorem on the note with one [e] tag. *)
Lemma filterIndexableTags_sublist_witness :
  [["e"; id_b]] `sublist_of` Event.tags note_e.
Proof.
  apply (filterIndexableTags_sublist example_env note_e remote). reflexivity.
Defined.

(** ** Every index row of a reachable store belongs to a stored event *)

Lemma tag_row_owned_mono env db db' r :
  (forall ev, ev ∈ DB.events db -> ev ∈ DB.events db') ->
  tag_row_owned env db r -> tag_row_owned env db' r.
Proof.
  intros Hsub (ev & data & tags & tag & Hev & Htags & Htag & ->).
  exists ev, data, tags, tag. auto.
Qed.

Lemma fts_row_owned_mono env db db' r :
  (forall ev, ev ∈ DB.events db -> ev ∈ DB.events db') ->
  fts_row_owned env db r -> fts_row_owned env db' r.
Proof.
  intros Hsub (ev & searchContent & Hev & Hsearch & Hne & ->).
  exists ev, searchContent. auto.
Qed.

Lemma fts_row_owned_id env db r :
  fts_row_owned env db r -> FtsRow.id r ∈ map Event.id (DB.events db).
Proof.
  intros (ev & searchContent & Hev & _ & _ & ->). simpl.
  by apply list_elem_of_fmap_2.
Qed.

Lemma written_rows_owned env event data db tags searchContent :
  id_stored (Event.id event) db = false ->
  filterIndexableTags env event data = Ok tags ->
  buildSearchContent env event = Ok searchContent ->
  rows_owned env db ->
  rows_owned env (written db event tags searchContent).
Proof.
  intros Hnew Htags Hsearch (Hids & Hfts & Htag_rows & Hfts_rows).
  apply id_stored_false in Hnew.
  assert (forall ev, ev ∈ DB.events db ->
                     ev ∈ DB.events (written db event tags searchContent)) as Hsub.
  { intros ev Hev. simpl. apply elem_of_app. by left. }
  assert (event ∈ DB.events (written db event tags searchContent)) as Hevent.
  { simpl. apply elem_of_app. right. apply list_elem_of_here. }
  split; [|split; [|split]].
  - simpl. rewrite map_app. apply NoDup_app. split; [done|]. split.
    + intros id Hid Hid'. apply list_elem_of_singleton in Hid'. by subst.
    + apply NoDup_singleton.
  - simpl. rewrite map_app. apply NoDup_app. split; [done|]. split.
    + intros id Hid Hid'. destruct (String.eqb searchContent ""); simpl in Hid'.
      * by apply elem_of_nil in Hid'.
      * apply list_elem_of_singleton in Hid' as ->.
        apply list_elem_of_fmap in Hid as (r & Hr & Hin).
        apply Hnew. rewrite Hr. by apply (fts_row_owned_id env), Hfts_rows.
    + destruct (String.eqb searchContent ""); simpl;
        [constructor|apply NoDup_singleton].
  - intros r Hr. simpl in Hr. apply elem_of_app in Hr as [Hr|Hr].
    + by apply (tag_row_owned_mono env db), Htag_rows.
    + apply list_elem_of_fmap in Hr as (tag & -> & Htag).
      by exists event, data, tags, tag.
  - intros r Hr. simpl in Hr. apply elem_of_app in Hr as [Hr|Hr].
    + by apply (fts_row_owned_mono env db), Hfts_rows.
    + destruct (String.eqb searchContent "") eqn:Hempty; simpl in Hr.
      * by apply elem_of_nil in Hr.
      * apply list_elem_of_singleton in Hr as ->.
        apply String.eqb_neq in Hempty. by exists event, searchContent.
Qed.

Lemma reachable_rows_owned env allowed db :
  reachable env allowed db -> rows_owned env db.
Proof.
  induction 1 as [|faults event data db Hreach IH Hallowed|event db Hreach IH].
  - repeat split; try constructor; intros r Hr; by apply elem_of_nil in Hr.
  - rewrite insertEvent_unfold.
    destruct (insertEvent_body env faults event data db) as [db'|e] eqn:Hbody;
      [|done].
    apply insertEvent_body_Ok in Hbody
      as (tags & searchContent & Htags & Hsearch & Hnew & ->).
    by apply (written_rows_owned env event data).
  - destruct IH as (Hids & Hfts & Htag_rows & Hfts_rows).
    destruct (updateStats_tags event db) as [Hev Htg].
    pose proof (updateStats_events_fts event db) as Hf.
    unfold rows_owned. rewrite Hev, Htg, Hf.
    repeat split; try done.
    + intros r Hr. apply (tag_row_owned_mono env db); [|by apply Htag_rows].
      intros ev. by rewrite Hev.
    + intros r Hr. apply (fts_row_owned_mono env db); [|by apply Hfts_rows].
      intros ev. by rewrite Hev.
Qed.

Lemma buildSearchContent_kind env event searchContent :
  buildSearchContent env event = Ok searchContent ->
  searchContent <> "" ->
  Event.kind event = 0 \/ Event.kind event = 1.
Proof.
  unfold buildSearchContent.
  destruct (Event.kind event =? 0) eqn:H0; [apply Z.eqb_eq in H0; auto|].
  destruct (Event.kind event =? 1) eqn:H1; [apply Z.eqb_eq in H1; auto|].
  intros [= <-] Hne. done.
Qed.

Lemma tag_row_owned_tag env db r :
  tag_row_owned env db r ->
  exists ev tag,
    ev ∈ DB.events db
    /\ Event.id ev = TagRow.event_id r
    /\ tag ∈ Event.tags ev
    /\ tag_name tag = TagRow.tag r
    /\ tag_value tag = Some (TagRow.value r)
    /\ TagRow.value r <> ""
    /\ (TagRow.tag r ∈ policy_names ++ inherited_truthy).
Proof.
  intros (ev & data & tags & tag & Hev & Htags & Htag & ->).
  unfold filterIndexableTags in Htags.
  destruct (reduce_tags_kept _ _ _ _ _ _ _ Htags Htag) as [Hin (v & Hv & Hne & _)].
  destruct (reduce_tags_should _ _ _ _ _ _ _ Htags Htag) as [count Hshould].
  apply shouldIndex_true in Hshould as (Hname & _).
  exists ev, tag. unfold tag_row. simpl. rewrite Hv. simpl. done.
Qed.



Lemma store_with_note_e_reachable :
  reachable example_env any_data store_with_note_e.
Proof.
  unfold store_with_note_e. apply reachable_insert; [apply reachable_empty|done].
Qed.



(** ** What a query with one filter returns *)

Lemma joined_rows_elem db joins ev row :
  row ∈ joined_rows db joins ev <->
  exists t u s,
    row = mkJoinedRow ev t u s
    /\ t ∈ tags_side db joins ev
    /\ u ∈ users_side db joins ev
    /\ s ∈ fts_side db joins ev.
Proof.
  unfold joined_rows. rewrite list_elem_of_bind. split.
  - intros (t & Hrow & Ht). apply list_elem_of_bind in Hrow as (u & Hrow & Hu).
    apply list_elem_of_bind in Hrow as (s & Hrow & Hs).
    apply list_elem_of_singleton in Hrow. eauto 10.
  - intros (t & u & s & -> & Ht & Hu & Hs). exists t. split; [|done].
    apply list_elem_of_bind. exists u. split; [|done].
    apply list_elem_of_bind. exists s. split; [|done].
    apply list_elem_of_here.
Qed.

Lemma event_rows_elem env db joins wheres ev x :
  x ∈ event_rows env db joins wheres ev <->
  x = ev
  /\ exists t u s,
       t ∈ tags_side db joins ev
       /\ u ∈ users_side db joins ev
       /\ s ∈ fts_side db joins ev
       /\ forallb (eval_where env (mkJoinedRow ev t u s)) wheres = true.
Proof.
  unfold event_rows. rewrite list_elem_of_fmap. split.
  - intros (row & -> & Hrow). apply list_elem_of_filter in Hrow as [Hpass Hrow].
    apply joined_rows_elem in Hrow as (t & u & s & -> & Ht & Hu & Hs).
    split; [done|]. eauto 10.
  - intros (-> & t & u & s & Ht & Hu & Hs & Hpass).
    exists (mkJoinedRow ev t u s). split; [done|].
    apply list_elem_of_filter. split; [done|].
    apply joined_rows_elem. eauto 10.
Qed.

Lemma left_side_elem {A : Type} (matching : list A) (v : option A) :
  v ∈ left_side matching <->
  (v = None /\ matching = []) \/ (exists a, v = Some a /\ a ∈ matching).
Proof.
  unfold left_side. destruct matching as [|a l].
  - rewrite list_elem_of_singleton. split; [auto|].
    intros [[-> _]|(a & _ & Ha)]; [done|by apply elem_of_nil in Ha].
  - rewrite list_elem_of_fmap. split.
    + intros (b & -> & Hb). right. eauto.
    + intros [[_ H]|(b & -> & Hb)]; [done|eauto].
Qed.

Lemma forallb_filter_wheres env row f :
  forallb (eval_where env row) (filter_wheres f)
  = forallb (eval_where env row) (base_wheres f)
    && forallb (eval_where env row) (tag_wheres (DittoFilter.tag_keys f))
    && forallb (eval_where env row) (local_wheres (DittoFilter.local f))
    && forallb (eval_where env row) (search_wheres f).
Proof. unfold filter_wheres. by rewrite !forallb_app, !andb_assoc. Qed.

(** A joined row of the query of [f] that passes belongs to an event that
    meets the constraints of [f] on the columns of the event and on the
    users table. *)
Lemma event_rows_sound env db f ev x :
  x ∈ event_rows env db (filter_joins f) (filter_wheres f) ev ->
  x = ev /\ passes db f ev = true.
Proof.
  rewrite event_rows_elem. intros (-> & t & u & s & Ht & Hu & Hs & Hpass).
  split; [done|]. rewrite forallb_filter_wheres in Hpass.
  apply andb_true_iff in Hpass as [Hpass _].
  apply andb_true_iff in Hpass as [Hpass Hlocal].
  apply andb_true_iff in Hpass as [Hbase _].
  rewrite (base_wheres_passes env db) in Hbase.
  rewrite passes_local, Hbase. cbn [andb].
  unfold users_side in Hu. rewrite !has_join_filter_joins in Hu.
  destruct (DittoFilter.local f) as [[|]|]; [| |done].
  - rewrite bool_decide_eq_true_2 in Hu by done.
    apply list_elem_of_fmap in Hu as (p & -> & Hp).
    apply list_elem_of_filter in Hp as [-> Hp].
    unfold is_local. by rewrite bool_decide_eq_true_2.
  - rewrite bool_decide_eq_false_2 in Hu by done.
    rewrite bool_decide_eq_true_2 in Hu by done.
    apply left_side_elem in Hu as [[-> Hnone]|(p & -> & _)]; [|done].
    unfold is_local. rewrite bool_decide_eq_false_2; [done|].
    intros Hin.
    assert (Event.pubkey ev ∈ filter (fun p => p = Event.pubkey ev) (DB.users db))
      as Hin' by (by apply list_elem_of_filter).
    rewrite Hnone in Hin'. by apply elem_of_nil in Hin'.
Qed.

Lemma apply_limit_elem {A : Type} (limit : option nat) (l : list A) x :
  x ∈ apply_limit limit l -> x ∈ l.
Proof.
  destruct limit as [n|]; [|done]. simpl. intros Hx.
  apply elem_of_take in Hx as (i & Hi & _). by eapply list_elem_of_lookup_2.
Qed.

(** X5. Whatever a query with one filter returns is ordered by
    [created_at], newest first, holds no more events than the limit in
    force (the limit of the options, else that of the filter), and holds
    stored events only, each of which meets the constraints of the filter
    on ids, kinds, authors, since, until and local. *)
Theorem getFilters_sound env f opts db rows :
  getFilters env [f] opts db = Ok rows ->
  sorted_desc rows
  /\ (forall n, limit_in_force opts f = Some n -> (length rows <= n)%nat)
  /\ (forall ev, ev ∈ rows -> ev ∈ DB.events db /\ passes db f ev = true).
Proof.
  rewrite getFilters_single.
  destruct (ambiguous (filter_joins f)); [done|]. intros [= <-].
  split; [|split].
  - apply apply_limit_sorted, sort_desc_sorted.
  - intros n ->. apply apply_limit_length.
  - intros ev Hev. apply apply_limit_elem in Hev.
    apply (proj1 (sort_desc_elem _ _)) in Hev.
    apply list_elem_of_bind in Hev as (ev' & Hev & Hev').
    apply event_rows_sound in Hev as [-> Hpass]. done.
Qed.

(** The theorem on the store with the notes of A and B. *)
Lemma getFilters_sound_witness :
  sorted_desc [note_by_a]
  /\ (forall n, limit_in_force no_opts (with_local (Some true) authors_a_b) = Some n ->
        (length [note_by_a] <= n)%nat)
  /\ (forall ev, ev ∈ [note_by_a] ->
        ev ∈ DB.events store_a_local
        /\ passes store_a_local (with_local (Some true) authors_a_b) ev = true).
Proof.
  apply (getFilters_sound example_env (with_local (Some true) authors_a_b) no_opts
           store_a_local).
  reflexivity.
Defined.

Lemma ambiguous_no_keys f :
  DittoFilter.tag_keys f = [] -> ambiguous (filter_joins f) = false.
Proof. intros Hkeys. by rewrite ambiguous_filter_joins, Hkeys. Qed.

Lemma bind_no_keys env db f (l : list Event.t) :
  NoDup (DB.users db) ->
  DittoFilter.tag_keys f = [] ->
  truthy (DittoFilter.search f) = false ->
  l ≫= event_rows env db (filter_joins f) (filter_wheres f)
  = filter (fun ev => passes db f ev = true) l.
Proof.
  intros Husers Hkeys Hsearch.
  change (filter_joins f) with (filter_joins (without_limit f)).
  change (filter_wheres f) with (filter_wheres (without_limit f)).
  rewrite bind_passes; [done..|].
  unfold plain. cbn [without_limit DittoFilter.tag_keys DittoFilter.search
                       DittoFilter.limit].
  by rewrite Hkeys, Hsearch.
Qed.

(** X6. For a filter without tag keys and without search text, a query
    returns exactly the stored events that meet the constraints of the
    filter on ids, kinds, authors, since, until and local, each once per
    stored row, newest first, cut at the limit in force. *)
Theorem getFilters_plain_exact env f opts db :
  NoDup (DB.users db) ->
  DittoFilter.tag_keys f = [] ->
  truthy (DittoFilter.search f) = false ->
  getFilters env [f] opts db
  = Ok (apply_limit (limit_in_force opts f)
          (sort_desc (filter (fun ev => passes db f ev = true) (DB.events db)))).
Proof.
  intros Husers Hkeys Hsearch.
  by rewrite getFilters_single, ambiguous_no_keys, bind_no_keys.
Qed.

(** The theorem on the store with the notes of A and B, asking for both
    authors: both notes, the newer one first. *)
Lemma getFilters_plain_exact_witness :
  getFilters example_env [authors_a_b] no_opts store_a_local
  = Ok (apply_limit (limit_in_force no_opts authors_a_b)
          (sort_desc (filter (fun ev => passes store_a_local authors_a_b ev = true)
                        (DB.events store_a_local)))).
Proof.
  apply (getFilters_plain_exact example_env authors_a_b no_opts store_a_local).
  - apply NoDup_singleton.
  - reflexivity.
  - reflexivity.
Defined.

Lemma bind_ids_filter env db ids (l : list Event.t) :
  l ≫= event_rows env db (filter_joins (ids_filter ids)) (filter_wheres (ids_filter ids))
  = filter (fun ev => passes db (ids_filter ids) ev = true) l.
Proof.
  induction l as [|ev l IH]; [done|].
  rewrite bind_cons, IH, filter_cons.
  pose proof (event_rows_plain env db (ids_filter ids) ev eq_refl) as Hrows.
  change (with_local None (ids_filter ids)) with (ids_filter ids) in Hrows.
  rewrite Hrows. destruct (passes db (ids_filter ids) ev) eqn:Hp.
  - by rewrite decide_True.
  - by rewrite decide_False.
Qed.

Lemma filter_passes_ids db id (l : list Event.t) :
  id ∉ map Event.id l ->
  filter (fun ev => passes db (ids_filter [id]) ev = true) l = [].
Proof.
  induction l as [|ev l IH]; [done|]. intros Hnotin.
  rewrite filter_cons_False.
  - apply IH. intros Hin. apply Hnotin. simpl. by apply elem_of_cons; right.
  - unfold passes, ids_filter, among. cbn. rewrite orb_false_r, !andb_true_r.
    intros Heq. apply String.eqb_eq in Heq. apply Hnotin.
    apply list_elem_of_fmap. exists ev. split; [done|apply list_elem_of_here].
Qed.

(** X7. Insert and look up: when the storage engine raises nothing, the id
    is new and neither tag filtering nor search extraction throws, a query
    for the id of the event returns nothing before insertEvent and the
    event, as it was inserted, after it. *)
Theorem insertEvent_then_getFilters env event data db tags searchContent :
  id_stored (Event.id event) db = false ->
  filterIndexableTags env event data = Ok tags ->
  buildSearchContent env event = Ok searchContent ->
  getFilters env [ids_filter [Event.id event]] no_opts db = Ok []
  /\ getFilters env [ids_filter [Event.id event]] no_opts
       (snd (insertEvent env no_faults event data db))
     = Ok [event].
Proof.
  intros Hnew Htags Hsearch. apply id_stored_false in Hnew as Hnotin.
  split.
  - rewrite getFilters_single, ambiguous_no_keys, bind_ids_filter by done.
    by rewrite filter_passes_ids.
  - rewrite insertEvent_unfold.
    rewrite (insertEvent_body_succeeds _ _ _ _ _ tags searchContent) by done.
    cbn [snd]. rewrite getFilters_single, ambiguous_no_keys, bind_ids_filter by done.
    cbn [written DB.events]. rewrite filter_app, filter_passes_ids by done.
    rewrite filter_cons_True; [done|].
    unfold passes, ids_filter, among. cbn. by rewrite String.eqb_refl.
Qed.

Lemma insertEvent_then_getFilters_witness :
  getFilters example_env [ids_filter [Event.id note_e]] no_opts DB.empty = Ok []
  /\ getFilters example_env [ids_filter [Event.id note_e]] no_opts
       (snd (insertEvent example_env no_faults note_e remote DB.empty))
     = Ok [note_e].
Proof.
  apply (insertEvent_then_getFilters example_env note_e remote DB.empty
           [["e"; id_b]] "hello").
  - reflexivity.
  - reflexivity.
  - reflexivity.
Defined.

(** ** Queries by tag and by search text on a reachable store *)

Lemma NoDup_id_inj (l : list Event.t) x y :
  NoDup (map Event.id l) -> x ∈ l -> y ∈ l -> Event.id x = Event.id y -> x = y.
Proof.
  induction l as [|z l IH]; intros Hnodup Hx Hy Heq.
  - by apply elem_of_nil in Hx.
  - simpl in Hnodup. apply NoDup_cons in Hnodup as [Hz Hnodup].
    apply elem_of_cons in Hx as [->|Hx]; apply elem_of_cons in Hy as [->|Hy].
    + done.
    + exfalso. apply Hz. rewrite Heq. by apply list_elem_of_fmap_2.
    + exfalso. apply Hz. rewrite <- Heq. by apply list_elem_of_fmap_2.
    + by apply IH.
Qed.

Lemma getFilters_single_elem env f opts db rows ev :
  getFilters env [f] opts db = Ok rows ->
  ev ∈ rows ->
  ev ∈ DB.events db
  /\ exists t u s,
       t ∈ tags_side db (filter_joins f) ev
       /\ u ∈ users_side db (filter_joins f) ev
       /\ s ∈ fts_side db (filter_joins f) ev
       /\ forallb (eval_where env (mkJoinedRow ev t u s)) (filter_wheres f) = true.
Proof.
  rewrite getFilters_single.
  destruct (ambiguous (filter_joins f)); [done|]. intros [= <-] Hev.
  apply apply_limit_elem in Hev. apply (proj1 (sort_desc_elem _ _)) in Hev.
  apply list_elem_of_bind in Hev as (ev' & Hev & Hev').
  apply event_rows_elem in Hev as (-> & Hrow). done.
Qed.

(** X8. On a reachable store, a query whose filter has one tag key
    [#name] returns only events that list a tag of that name with one of
    the asked values; and when the name is none of those the tag policy can
    index, the query returns nothing. *)
Theorem getFilters_tag_sound env allowed db f opts name values rows :
  reachable env allowed db ->
  DittoFilter.tag_keys f = [(name, values)] ->
  getFilters env [f] opts db = Ok rows ->
  (forall ev, ev ∈ rows ->
     exists tag v,
       tag ∈ Event.tags ev /\ tag_name tag = name
       /\ tag_value tag = Some v /\ v ∈ values)
  /\ ((name ∉ policy_names ++ inherited_truthy) -> rows = []).
Proof.
  intros Hreach Hkeys Hrows.
  destruct (reachable_rows_owned env allowed db Hreach) as (Hids & _ & Howned & _).
  assert (forall ev, ev ∈ rows ->
            (name ∈ policy_names ++ inherited_truthy)
            /\ exists tag v,
                 tag ∈ Event.tags ev /\ tag_name tag = name
                 /\ tag_value tag = Some v /\ v ∈ values) as Hsound.
  { intros ev Hev.
    destruct (getFilters_single_elem _ _ _ _ _ _ Hrows Hev)
      as (Hstored & t & u & s & Ht & _ & _ & Hpass).
    rewrite forallb_filter_wheres, Hkeys in Hpass.
    apply andb_true_iff in Hpass as [Hpass _].
    apply andb_true_iff in Hpass as [Hpass _].
    apply andb_true_iff in Hpass as [_ Hpass].
    cbn [tag_wheres flat_map app forallb eval_where jr_tag fst snd] in Hpass.
    destruct t as [r|]; [|done].
    rewrite andb_true_r in Hpass. apply andb_true_iff in Hpass as [Hname Hvalue].
    apply String.eqb_eq in Hname. apply mem_elem_of in Hvalue.
    unfold tags_side in Ht. rewrite has_join_filter_joins, Hkeys in Ht.
    change (has_join LeftJoin_tags (tag_joins [(name, values)])) with true in Ht.
    cbv iota in Ht.
    apply left_side_elem in Ht as [[? _]|(r' & [= <-] & Hr)]; [done|].
    apply list_elem_of_filter in Hr as [Hid Hr].
    destruct (tag_row_owned_tag env db r (Howned r Hr))
      as (ev' & tag & Hev' & Hid' & Htag & Htn & Htv & _ & Hpol).
    assert (ev' = ev) as ->.
    { apply (NoDup_id_inj (DB.events db)); [done..|]. by rewrite Hid', Hid. }
    rewrite Hname in Hpol, Htn. split; [done|].
    exists tag, (TagRow.value r). done. }
  split.
  - intros ev Hev. by apply Hsound.
  - intros Hname. destruct rows as [|ev rows']; [done|].
    exfalso. apply Hname, (Hsound ev). apply list_elem_of_here.
Qed.

(** The theorem on the store that holds the note with two hashtags. *)
Lemma store_with_hashtags_reachable :
  reachable example_env any_data store_with_hashtags.
Proof.
  unfold store_with_hashtags. apply reachable_insert; [apply reachable_empty|done].
Qed.

Lemma getFilters_tag_sound_witness :
  (forall ev, ev ∈ [note_two_hashtags; note_two_hashtags] ->
     exists tag v,
       tag ∈ Event.tags ev /\ tag_name tag = "t"
       /\ tag_value tag = Some v /\ v ∈ ["nostr"; "bitcoin"])
  /\ (("t" ∉ policy_names ++ inherited_truthy) ->
      [note_two_hashtags; note_two_hashtags] = []).
Proof.
  apply (getFilters_tag_sound example_env any_data store_with_hashtags hashtag_filter
           no_opts).
  - apply store_with_hashtags_reachable.
  - reflexivity.
  - reflexivity.
Defined.

(** X9. On a reachable store, a query whose filter has a search text
    returns only events of kind 0 or 1, and each of them is found
    through the first 1000 characters of its search content: that is the
    text the search text is matched against. *)
Theorem getFilters_search_sound env allowed db f opts rows ev :
  reachable env allowed db ->
  truthy (DittoFilter.search f) = true ->
  getFilters env [f] opts db = Ok rows ->
  ev ∈ rows ->
  (Event.kind ev = 0 \/ Event.kind ev = 1)
  /\ exists searchContent,
       buildSearchContent env ev = Ok searchContent
       /\ fts_match env (default "" (DittoFilter.search f))
            (String.substring 0 1000 searchContent) = true.
Proof.
  intros Hreach Hsearch Hrows Hev.
  destruct (reachable_rows_owned env allowed db Hreach) as (Hids & _ & _ & Howned).
  destruct (getFilters_single_elem _ _ _ _ _ _ Hrows Hev)
    as (Hstored & t & u & s & _ & _ & Hs & Hpass).
  rewrite forallb_filter_wheres in Hpass.
  apply andb_true_iff in Hpass as [_ Hpass].
  unfold search_wheres in Hpass. rewrite Hsearch in Hpass.
  cbn [forallb eval_where jr_fts] in Hpass. rewrite andb_true_r in Hpass.
  unfold fts_side in Hs. rewrite has_join_filter_joins, Hsearch in Hs.
  apply list_elem_of_fmap in Hs as (r & -> & Hr).
  apply list_elem_of_filter in Hr as [Hid Hr].
  destruct (Howned r Hr) as (ev' & searchContent & Hev' & Hbuild & Hne & ->).
  simpl in Hid, Hpass.
  assert (ev' = ev) as -> by (by apply (NoDup_id_inj (DB.events db))).
  split; [by apply (buildSearchContent_kind env ev searchContent)|].
  by exists searchContent.
Qed.

Lemma getFilters_search_sound_witness :
  (Event.kind note_e = 0 \/ Event.kind note_e = 1)
  /\ exists searchContent,
       buildSearchContent example_env note_e = Ok searchContent
       /\ fts_match example_env (default "" (DittoFilter.search search_hello))
            (String.substring 0 1000 searchContent) = true.
Proof.
  apply (getFilters_search_sound example_env any_data store_with_note_e search_hello
           no_opts [note_e]).
  - apply store_with_note_e_reachable.
  - reflexivity.
  - reflexivity.
  - apply list_elem_of_here.
Defined.

(** ** Deleting and counting with one filter *)

Lemma select_joined_rows env db joins wheres :
  select_rows env db joins wheres = mapR (map jr_event) (select_joined env db joins wheres).
Proof.
  unfold select_rows, select_joined.
  by destruct (Nat.leb 2 (length (filter (fun j => j = LeftJoin_tags) joins))).
Qed.

Lemma select_joined_events env db joins wheres :
  mapR (map jr_event) (select_joined env db joins wheres)
  = if ambiguous joins then Err (SqliteError 1)
    else Ok (DB.events db ≫= event_rows env db joins wheres).
Proof. by rewrite <- select_joined_rows, select_rows_events. Qed.

Lemma execute_select_id_single env db f :
  execute_select_id env db (getFilterQuery f)
  = if truthy (DittoFilter.search f) || ambiguous (filter_joins f)
    then Err (SqliteError 1)
    else Ok (map Event.id
               (apply_limit (DittoFilter.limit f)
                  (sort_desc (DB.events db
                              ≫= event_rows env db (filter_joins f) (filter_wheres f))))).
Proof.
  rewrite getFilterQuery_shape. cbn [execute_select_id].
  fold (filter_joins f). fold (filter_wheres f).
  rewrite has_join_filter_joins.
  destruct (truthy (DittoFilter.search f)); [done|]. cbn [orb].
  pose proof (select_joined_events env db (filter_joins f) (filter_wheres f)) as H.
  destruct (select_joined env db (filter_joins f) (filter_wheres f)) as [rows|e];
    destruct (ambiguous (filter_joins f)); simpl in H; try done.
  - injection H as H. cbn [bindR]. by rewrite H.
  - injection H as ->. done.
Qed.

Lemma execute_select_count_single env db f :
  execute_select_count env db (getFilterQuery f)
  = if truthy (DittoFilter.search f) || ambiguous (filter_joins f)
    then Err (SqliteError 1)
    else Ok (apply_limit (DittoFilter.limit f)
               [length (DB.events db
                        ≫= event_rows env db (filter_joins f) (filter_wheres f))]).
Proof.
  rewrite getFilterQuery_shape. cbn [execute_select_count].
  fold (filter_joins f). fold (filter_wheres f).
  rewrite has_join_filter_joins.
  destruct (truthy (DittoFilter.search f)); [done|]. cbn [orb].
  pose proof (select_joined_events env db (filter_joins f) (filter_wheres f)) as H.
  destruct (select_joined env db (filter_joins f) (filter_wheres f)) as [rows|e];
    destruct (ambiguous (filter_joins f)); simpl in H; try done.
  - injection H as H. cbn [bindR]. by rewrite <- H, length_map.
  - injection H as ->. done.
Qed.

(** Without a join on [events_fts], the copies of an event depend on the
    users table and on the tag rows of the event only. *)
Lemma event_rows_ext env db db' joins wheres ev :
  has_join InnerJoin_events_fts joins = false ->
  DB.users db' = DB.users db ->
  filter (fun r => TagRow.event_id r = Event.id ev) (DB.tags db')
  = filter (fun r => TagRow.event_id r = Event.id ev) (DB.tags db) ->
  event_rows env db' joins wheres ev = event_rows env db joins wheres ev.
Proof.
  intros Hfts Husers Htags. rewrite !event_rows_sides.
  unfold tags_side, users_side, fts_side. by rewrite Hfts, Husers, Htags.
Qed.

Lemma bind_ext_elem {A B : Type} (f g : A -> list B) (l : list A) :
  (forall x, x ∈ l -> f x = g x) -> l ≫= f = l ≫= g.
Proof.
  induction l as [|x l IH]; intros H; [done|].
  rewrite !bind_cons, H, IH; [done| |apply list_elem_of_here].
  intros y Hy. apply H. by apply elem_of_cons; right.
Qed.

Lemma filter_filter_other (id : string) (ids : list string) (rows : list TagRow.t) :
  id ∉ ids ->
  filter (fun r => TagRow.event_id r = id)
    (filter (fun r => TagRow.event_id r ∉ ids) rows)
  = filter (fun r => TagRow.event_id r = id) rows.
Proof.
  intros Hid. induction rows as [|r rows IH]; [done|].
  destruct (decide (TagRow.event_id r ∉ ids)) as [Hr|Hr].
  - rewrite (filter_cons_True (fun r => TagRow.event_id r ∉ ids)) by done.
    rewrite !filter_cons, IH. done.
  - rewrite (filter_cons_False (fun r => TagRow.event_id r ∉ ids)) by done.
    rewrite IH, filter_cons_False; [done|]. intros Heq. apply Hr. by rewrite Heq.
Qed.

Lemma bind_all_nil_elem {A B : Type} (f : A -> list B) (l : list A) :
  (forall x, x ∈ l -> f x = []) -> l ≫= f = [].
Proof.
  intros H. rewrite (bind_ext_elem f (fun _ => [])) by done. apply bind_nil_r.
Qed.

(** The ids that the subquery of deleteFilters yields for one filter. *)
Lemma deleteFilters_single env cascade f db :
  truthy (DittoFilter.search f) = false ->
  ambiguous (filter_joins f) = false ->
  let ids :=
    map Event.id
      (apply_limit (DittoFilter.limit f)
         (sort_desc (DB.events db
                     ≫= event_rows env db (filter_joins f) (filter_wheres f)))) in
  let db' := deleteFrom_events cascade ids (deleteFrom_events_fts ids db) in
  deleteFilters env cascade [f] db
  = (Ok [(length (DB.events db) - length (DB.events db'))%nat], db').
Proof.
  intros Hsearch Hamb ids db'. unfold deleteFilters. cbn [length Nat.eqb].
  unfold transaction_returning. cbn [getFiltersQuery map fold_left bindR].
  rewrite execute_select_id_single, Hsearch, Hamb. cbn [orb bindR]. fold ids.
  rewrite execute_select_id_single, Hsearch, Hamb. cbn [orb bindR].
  assert (DB.events (deleteFrom_events_fts ids db)
          ≫= event_rows env (deleteFrom_events_fts ids db) (filter_joins f)
               (filter_wheres f)
          = DB.events db ≫= event_rows env db (filter_joins f) (filter_wheres f))
    as ->.
  { cbn [deleteFrom_events_fts DB.events]. apply bind_ext_elem. intros ev _.
    apply event_rows_ext; [|done..].
    by rewrite has_join_filter_joins. }
  done.
Qed.

(** X10. deleteFilters with one filter that has no search text removes
    what getFilters returns for that filter, limit included: the events
    table loses the events with the ids of the returned events and the
    search table loses the rows with these ids; the users table and the
    stats are untouched, and the call reports the number of events
    removed.  When the filter has no limit, the same query returns nothing
    afterwards. *)
Theorem deleteFilters_removes env cascade f db rows :
  truthy (DittoFilter.search f) = false ->
  getFilters env [f] no_opts db = Ok rows ->
  let db' := snd (deleteFilters env cascade [f] db) in
  fst (deleteFilters env cascade [f] db)
  = Ok [(length (DB.events db) - length (DB.events db'))%nat]
  /\ DB.events db'
     = filter (fun ev => Event.id ev ∉ map Event.id rows) (DB.events db)
  /\ DB.events_fts db'
     = filter (fun r => FtsRow.id r ∉ map Event.id rows) (DB.events_fts db)
  /\ DB.users db' = DB.users db
  /\ DB.pubkey_stats db' = DB.pubkey_stats db
  /\ DB.event_stats db' = DB.event_stats db
  /\ (DittoFilter.limit f = None ->
      forall opts, getFilters env [f] opts db' = Ok []).
Proof.
  intros Hsearch Hrows db'. rewrite getFilters_single in Hrows.
  destruct (ambiguous (filter_joins f)) eqn:Hamb; [done|].
  injection Hrows as Hrows. change (limit_in_force no_opts f) with (DittoFilter.limit f) in Hrows.
  unfold db'. rewrite (deleteFilters_single env cascade f db Hsearch Hamb).
  cbn zeta. rewrite Hrows. cbn [fst snd].
  repeat split.
  intros Hlimit opts. rewrite getFilters_single, Hamb.
  rewrite Hlimit in Hrows. cbn [apply_limit] in Hrows.
  rewrite bind_all_nil_elem; [by destruct (limit_in_force opts f) as [[|?]|]|].
  intros ev Hev. cbn [deleteFrom_events deleteFrom_events_fts DB.events] in Hev.
  apply list_elem_of_filter in Hev as [Hid Hev].
  rewrite event_rows_ext with (db := db).
  - destruct (event_rows env db (filter_joins f) (filter_wheres f) ev) as [|x l] eqn:Hx;
      [done|].
    exfalso. apply Hid. apply list_elem_of_fmap. exists ev. split; [done|].
    rewrite <- Hrows. apply sort_desc_elem. apply list_elem_of_bind.
    exists ev. split; [|done]. rewrite Hx.
    assert (x ∈ event_rows env db (filter_joins f) (filter_wheres f) ev) as Hin
      by (rewrite Hx; apply list_elem_of_here).
    apply event_rows_copies in Hin as ->. apply list_elem_of_here.
  - by rewrite has_join_filter_joins.
  - done.
  - cbn [deleteFrom_events deleteFrom_events_fts DB.tags].
    destruct cascade; [|done]. by apply filter_filter_other.
Qed.

(** The theorem on the store with the notes of A and B: deleting what
    [{ authors: [A, B] }] selects empties the events table. *)
Lemma deleteFilters_removes_witness :
  let db' := snd (deleteFilters example_env false [authors_a_b] store_a_local) in
  fst (deleteFilters example_env false [authors_a_b] store_a_local)
  = Ok [(length (DB.events store_a_local) - length (DB.events db'))%nat]
  /\ DB.events db'
     = filter (fun ev => Event.id ev ∉ map Event.id [note_by_a; note_by_b])
         (DB.events store_a_local)
  /\ DB.events_fts db'
     = filter (fun r => FtsRow.id r ∉ map Event.id [note_by_a; note_by_b])
         (DB.events_fts store_a_local)
  /\ DB.users db' = DB.users store_a_local
  /\ DB.pubkey_stats db' = DB.pubkey_stats store_a_local
  /\ DB.event_stats db' = DB.event_stats store_a_local
  /\ (DittoFilter.limit authors_a_b = None ->
      forall opts, getFilters example_env [authors_a_b] opts db' = Ok []).
Proof.
  apply (deleteFilters_removes example_env false authors_a_b store_a_local
           [note_by_a; note_by_b]); reflexivity.
Defined.

Lemma getFiltersQuery_unions f g gs :
  exists joins wheres limit u us,
    getFiltersQuery (f :: g :: gs) = Ok (Select joins wheres limit (u :: us)).
Proof.
  unfold getFiltersQuery. cbn [map]. rewrite (getFilterQuery_shape f).
  cbn [fold_left union_ app]. rewrite fold_left_union. eauto 10.
Qed.



Lemma sort_desc_length l : length (sort_desc l) = length l.
Proof. apply Permutation_length, sort_desc_perm. Qed.

(** X12. countFilters with one filter that has no search text counts the
    rows the query of the filter yields without its limit: the limit of
    the filter does not lower the count, and an event counts once per tag
    row that matches.  When the limit of the filter is 0 the call throws a
    TypeError instead of returning 0. *)
Theorem countFilters_counts env f db rows :
  truthy (DittoFilter.search f) = false ->
  getFilters env [without_limit f] no_opts db = Ok rows ->
  (DittoFilter.limit f <> Some 0%nat -> countFilters env [f] db = Ok (length rows))
  /\ (DittoFilter.limit f = Some 0%nat ->
      exists msg, countFilters env [f] db = Err (TypeError msg)).
Proof.
  intros Hsearch Hrows. rewrite getFilters_single in Hrows.
  change (filter_joins (without_limit f)) with (filter_joins f) in Hrows.
  change (filter_wheres (without_limit f)) with (filter_wheres f) in Hrows.
  destruct (ambiguous (filter_joins f)) eqn:Hamb; [done|].
  injection Hrows as <-. cbn [limit_in_force no_opts GetFiltersOpts.limit without_limit
                                DittoFilter.limit apply_limit].
  rewrite sort_desc_length.
  unfold countFilters. cbn [length Nat.eqb getFiltersQuery map fold_left bindR].
  rewrite execute_select_count_single, Hsearch, Hamb. cbn [orb bindR].
  destruct (DittoFilter.limit f) as [[|n]|]; cbn [apply_limit take]; split;
    try done; eauto.
Qed.

(** The theorem on the store with the notes of A and B and the filter
    [{ authors: [A, B], limit: 1 }]: the query returns one event and the
    count is 2; with [limit: 0] the count throws. *)
Lemma countFilters_counts_witness :
  (DittoFilter.limit authors_a_b_limit_1 <> Some 0%nat ->
   countFilters example_env [authors_a_b_limit_1] store_a_local
   = Ok (length [note_by_a; note_by_b]))
  /\ (DittoFilter.limit authors_a_b_limit_1 = Some 0%nat ->
      exists msg,
        countFilters example_env [authors_a_b_limit_1] store_a_local
        = Err (TypeError msg)).
Proof.
  apply (countFilters_counts example_env authors_a_b_limit_1 store_a_local
           [note_by_a; note_by_b]); reflexivity.
Defined.

Example countFilters_and_getFilters_differ :
  getFilters example_env [authors_a_b_limit_1] no_opts store_a_local = Ok [note_by_a]
  /\ countFilters example_env [authors_a_b_limit_1] store_a_local = Ok 2%nat
  /\ getFilters example_env [authors_a_b_limit_0] no_opts store_a_local = Ok []
  /\ countFilters example_env [authors_a_b_limit_0] store_a_local
     = Err (TypeError "Cannot destructure property 'count' of undefined")
  /\ countFilters example_env [hashtag_filter] store_with_hashtags = Ok 2%nat.
Proof. repeat split; reflexivity. Qed.

(** ** Stats: runs of updateStats and the stats of reachable stores *)

Lemma pubkey_row_eta (c : PubkeyStatsRow.t) :
  PubkeyStatsRow.mk (PubkeyStatsRow.followers_count c)
    (PubkeyStatsRow.following_count c) (PubkeyStatsRow.notes_count c + 0) = c.
Proof. destruct c. simpl. f_equal. lia. Qed.

Lemma event_row_eta (c : EventStatsRow.t) :
  EventStatsRow.mk (EventStatsRow.replies_count c)
    (EventStatsRow.reposts_count c + 0) (EventStatsRow.reactions_count c + 0) = c.
Proof. destruct c. simpl. f_equal; lia. Qed.

Lemma updateStats_pubkey_counters event db pubkey :
  pubkey_counters (updateStats event db) pubkey
  = PubkeyStatsRow.mk
      (PubkeyStatsRow.followers_count (pubkey_counters db pubkey))
      (PubkeyStatsRow.following_count (pubkey_counters db pubkey))
      (PubkeyStatsRow.notes_count (pubkey_counters db pubkey)
       + (if is_note_by pubkey event then 1 else 0)).
Proof.
  unfold updateStats, updateStatsQuery, is_note_by.
  destruct (Event.kind event =? 1).
  - cbn [andb].
    destruct (execute_pubkey_stat (Event.pubkey event) PubkeyStat.notes_count 1 db)
      as (Hrow & Hother & _).
    destruct (String.eqb_spec (Event.pubkey event) pubkey) as [<-|Hne].
    + unfold pubkey_counters at 1. by rewrite Hrow.
    + unfold pubkey_counters at 1. rewrite Hother by done.
      symmetry. apply pubkey_row_eta.
  - cbn [andb]. rewrite pubkey_row_eta.
    destruct (Event.kind event =? 6), (Event.kind event =? 7),
      (findFirstTag event "e") as [v|]; try done;
      simpl truthy; destruct (negb (String.eqb v "")); done.
Qed.

Lemma updateStats_event_counters event db eventId :
  event_counters (updateStats event db) eventId
  = EventStatsRow.mk
      (EventStatsRow.replies_count (event_counters db eventId))
      (EventStatsRow.reposts_count (event_counters db eventId)
       + (if refers_to 6 eventId event then 1 else 0))
      (EventStatsRow.reactions_count (event_counters db eventId)
       + (if refers_to 7 eventId event then 1 else 0)).
Proof.
  unfold updateStats, updateStatsQuery, refers_to.
  destruct (Z.eqb_spec (Event.kind event) 1) as [H1|H1].
  { rewrite H1. cbn [Z.eqb Pos.eqb andb]. by rewrite event_row_eta. }
  destruct (Z.eqb_spec (Event.kind event) 6) as [H6|H6].
  { rewrite H6. cbn [Z.eqb Pos.eqb andb].
    destruct (findFirstTag event "e") as [v|] eqn:Hfirst.
    - simpl truthy. destruct (String.eqb_spec v "") as [->|Hne]; simpl negb; cbv iota.
      + rewrite <- (event_row_eta (event_counters db eventId)) at 1.
        destruct (decide (Some "" = Some eventId)) as [[= <-]|Hne'].
        * by rewrite andb_false_r.
        * by rewrite bool_decide_eq_false_2.
      + destruct (execute_event_stat v EventStat.reposts_count 1 db)
          as (Hrow & Hother & _).
        destruct (decide (v = eventId)) as [<-|Hne'].
        * rewrite bool_decide_eq_true_2 by done.
          apply String.eqb_neq in Hne. rewrite Hne. cbn [negb andb].
          unfold event_counters at 1. rewrite Hrow. simpl. f_equal. lia.
        * rewrite bool_decide_eq_false_2 by (by intros [= ?]). cbn [andb].
          unfold event_counters at 1. rewrite Hother by done.
          symmetry. apply event_row_eta.
    - rewrite bool_decide_eq_false_2 by done. cbn [andb].
      by rewrite event_row_eta. }
  destruct (Z.eqb_spec (Event.kind event) 7) as [H7|H7].
  { cbn [andb].
    destruct (findFirstTag event "e") as [v|] eqn:Hfirst.
    - simpl truthy. destruct (String.eqb_spec v "") as [->|Hne]; simpl negb; cbv iota.
      + rewrite <- (event_row_eta (event_counters db eventId)) at 1.
        destruct (decide (Some "" = Some eventId)) as [[= <-]|Hne'].
        * by rewrite andb_false_r.
        * by rewrite bool_decide_eq_false_2.
      + destruct (execute_event_stat v EventStat.reactions_count 1 db)
          as (Hrow & Hother & _).
        destruct (decide (v = eventId)) as [<-|Hne'].
        * rewrite bool_decide_eq_true_2 by done.
          apply String.eqb_neq in Hne. rewrite Hne. cbn [negb andb].
          unfold event_counters at 1. rewrite Hrow. simpl. f_equal. lia.
        * rewrite bool_decide_eq_false_2 by (by intros [= ?]). cbn [andb].
          unfold event_counters at 1. rewrite Hother by done.
          symmetry. apply event_row_eta.
    - rewrite bool_decide_eq_false_2 by done. cbn [andb].
      by rewrite event_row_eta. }
  cbn [andb]. by rewrite event_row_eta.
Qed.

Lemma updateStats_same_store event db : same_store db (updateStats event db).
Proof.
  unfold updateStats. destruct (updateStatsQuery event) as [[? ? ? ?|? ? ? ?]|]; done.
Qed.

Lemma count_of_cons {A : Type} (test : A -> bool) (x : A) (l : list A) :
  count_of test (x :: l) = (if test x then 1 else 0) + count_of test l.
Proof.
  unfold count_of. rewrite filter_cons.
  destruct (test x); [rewrite decide_True by done|rewrite decide_False by done];
    simpl length; lia.
Qed.

(** X13. A run of updateStats over a list of events adds to the
    notes_count of every author the number of kind-1 events of the list
    by that author, to the reposts_count of every event id the number of
    kind-6 events whose first [e] tag carries that id, and to its
    reactions_count the number of such kind-7 events; an empty id counts
    for nothing.  The run changes no followers_count, following_count or
    replies_count and no other table. *)
Theorem updateStats_each_counts events db pubkey eventId :
  let db' := updateStats_each events db in
  pubkey_counters db' pubkey
  = PubkeyStatsRow.mk
      (PubkeyStatsRow.followers_count (pubkey_counters db pubkey))
      (PubkeyStatsRow.following_count (pubkey_counters db pubkey))
      (PubkeyStatsRow.notes_count (pubkey_counters db pubkey)
       + count_of (is_note_by pubkey) events)
  /\ event_counters db' eventId
     = EventStatsRow.mk
         (EventStatsRow.replies_count (event_counters db eventId))
         (EventStatsRow.reposts_count (event_counters db eventId)
          + count_of (refers_to 6 eventId) events)
         (EventStatsRow.reactions_count (event_counters db eventId)
          + count_of (refers_to 7 eventId) events)
  /\ same_store db db'.
Proof.
  cbn zeta. revert db. induction events as [|event events IH]; intros db.
  - cbn [updateStats_each fold_left]. unfold count_of. cbn [filter length].
    change (Z.of_nat 0) with 0.
    rewrite pubkey_row_eta, event_row_eta. done.
  - cbn [updateStats_each fold_left]. fold (updateStats_each events (updateStats event db)).
    destruct (IH (updateStats event db)) as (Hp & He & Hs).
    rewrite Hp, He, updateStats_pubkey_counters, updateStats_event_counters.
    rewrite !count_of_cons. cbn [PubkeyStatsRow.followers_count
      PubkeyStatsRow.following_count PubkeyStatsRow.notes_count
      EventStatsRow.replies_count EventStatsRow.reposts_count
      EventStatsRow.reactions_count].
    split; [f_equal; lia|]. split; [f_equal; lia|].
    destruct (updateStats_same_store event db) as (H1 & H2 & H3 & H4).
    destruct Hs as (H1' & H2' & H3' & H4').
    unfold same_store. by rewrite H1', H2', H3', H4'.
Qed.

Lemma insertEvent_stats env faults event data db :
  DB.pubkey_stats (snd (insertEvent env faults event data db)) = DB.pubkey_stats db
  /\ DB.event_stats (snd (insertEvent env faults event data db)) = DB.event_stats db.
Proof.
  rewrite insertEvent_unfold.
  destruct (insertEvent_body env faults event data db) as [db'|e] eqn:Hbody; [|done].
  apply insertEvent_body_Ok in Hbody as (tags & searchContent & _ & _ & _ & ->).
  done.
Qed.

(** X14. In every reachable store a row of pubkey_stats has
    followers_count 0, following_count 0 and a notes_count of at least 1,
    and a row of event_stats belongs to a non-empty event id and has
    replies_count 0, and reposts_count and reactions_count that are not
    negative and not both 0: the stats module counts notes, reposts and
    reactions only, and creates a row with the first count. *)
Theorem reachable_stats_rows env allowed db :
  reachable env allowed db ->
  (forall pubkey row,
     DB.pubkey_stats db !! pubkey = Some row ->
     PubkeyStatsRow.followers_count row = 0
     /\ PubkeyStatsRow.following_count row = 0
     /\ 1 <= PubkeyStatsRow.notes_count row)
  /\ (forall eventId row,
        DB.event_stats db !! eventId = Some row ->
        eventId <> ""
        /\ EventStatsRow.replies_count row = 0
        /\ 0 <= EventStatsRow.reposts_count row
        /\ 0 <= EventStatsRow.reactions_count row
        /\ 1 <= EventStatsRow.reposts_count row + EventStatsRow.reactions_count row).
Proof.
  induction 1 as [|faults event data db Hreach [IHp IHe] Hallowed
                  |event db Hreach [IHp IHe]].
  - split; intros k row Hrow; cbn in Hrow; by rewrite lookup_empty in Hrow.
  - destruct (insertEvent_stats env faults event data db) as [-> ->]. done.
  - unfold updateStats, updateStatsQuery.
    destruct (Event.kind event =? 1).
    { split; [|done]. intros pubkey row. cbn [execute_stats incrementPubkeyStatQuery DB.pubkey_stats].
      destruct (decide (pubkey = Event.pubkey event)) as [->|Hne].
      - rewrite lookup_insert_eq. intros [= <-].
        destruct (DB.pubkey_stats db !! Event.pubkey event) as [old|] eqn:Hold.
        + destruct (IHp _ _ Hold) as (Hf & Hg & Hn). simpl. lia.
        + simpl. lia.
      - rewrite lookup_insert_ne by done. apply IHp. }
    assert (forall stat,
              (stat = EventStat.reposts_count \/ stat = EventStat.reactions_count) ->
              forall v, v <> "" ->
              forall eventId row,
                DB.event_stats (execute_stats (incrementEventStatQuery v stat 1) db)
                  !! eventId = Some row ->
                eventId <> ""
                /\ EventStatsRow.replies_count row = 0
                /\ 0 <= EventStatsRow.reposts_count row
                /\ 0 <= EventStatsRow.reactions_count row
                /\ 1 <= EventStatsRow.reposts_count row
                        + EventStatsRow.reactions_count row) as Hstep.
    { intros stat Hstat v Hv eventId row.
      cbn [execute_stats incrementEventStatQuery DB.event_stats].
      destruct (decide (eventId = v)) as [->|Hne].
      - rewrite lookup_insert_eq. intros [= <-]. split; [done|].
        destruct (DB.event_stats db !! v) as [old|] eqn:Hold.
        + destruct (IHe _ _ Hold) as (_ & Hr & Hp & Ha & Hsum).
          destruct Hstat as [-> | ->]; simpl; lia.
        + destruct Hstat as [-> | ->]; simpl; lia.
      - rewrite lookup_insert_ne by done. apply IHe. }
    destruct (Event.kind event =? 6).
    { destruct (findFirstTag event "e") as [v|]; [|done]. simpl truthy.
      destruct (String.eqb_spec v "") as [->|Hne]; simpl negb; cbv iota; [done|].
      split; [done|]. apply Hstep; auto. }
    destruct (Event.kind event =? 7); [|done].
    destruct (findFirstTag event "e") as [v|]; [|done]. simpl truthy.
    destruct (String.eqb_spec v "") as [->|Hne]; simpl negb; cbv iota; [done|].
    split; [done|]. apply Hstep; auto.
Qed.

Lemma reachable_stats_rows_witness :
  (forall pubkey row,
     DB.pubkey_stats store_with_reaction !! pubkey = Some row ->
     PubkeyStatsRow.followers_count row = 0
     /\ PubkeyStatsRow.following_count row = 0
     /\ 1 <= PubkeyStatsRow.notes_count row)
  /\ (forall eventId row,
        DB.event_stats store_with_reaction !! eventId = Some row ->
        eventId <> ""
        /\ EventStatsRow.replies_count row = 0
        /\ 0 <= EventStatsRow.reposts_count row
        /\ 0 <= EventStatsRow.reactions_count row
        /\ 1 <= EventStatsRow.reposts_count row + EventStatsRow.reactions_count row).
Proof.
  apply (reachable_stats_rows example_env any_data store_with_reaction).
  unfold store_with_reaction. apply reachable_stats, store_with_note_e_reachable.
Defined.

(** X15. findFirstTag returns the second element of the first tag whose
    first element is the name: it returns a value exactly when the tags
    split into tags of other names, then a tag of that name which carries
    the value, then the rest.  Tags after the first one of the name are
    never consulted, also when that first one has no value. *)
Theorem findFirstTag_spec event name v :
  findFirstTag event name = Some v <->
  exists pre tag post,
    Event.tags event = pre ++ tag :: post
    /\ Forall (fun t => head t <> Some name) pre
    /\ head tag = Some name
    /\ tag !! 1%nat = Some v.
Proof.
  unfold findFirstTag. generalize (Event.tags event). intros tags.
  induction tags as [|t tags IH].
  - split; [done|]. intros (pre & tag & post & Heq & _). by destruct pre.
  - cbn [find]. destruct (decide (head t = Some name)) as [Hhead|Hhead].
    + rewrite bool_decide_eq_true_2 by done. split.
      * intros Hv. exists [], t, tags. by repeat split.
      * intros (pre & tag & post & Heq & Hpre & Htag & Hv).
        destruct pre as [|t' pre].
        -- injection Heq as -> ->. done.
        -- injection Heq as <- ->. by apply Forall_cons in Hpre as [Hne _].
    + rewrite bool_decide_eq_false_2 by done. rewrite IH. split.
      * intros (pre & tag & post & -> & Hpre & Htag & Hv).
        exists (t :: pre), tag, post. repeat split; try done.
        by apply Forall_cons.
      * intros (pre & tag & post & Heq & Hpre & Htag & Hv).
        destruct pre as [|t' pre].
        -- injection Heq as -> ->. done.
        -- injection Heq as <- ->. apply Forall_cons in Hpre as [_ Hpre].
           by exists pre, tag, post.
Qed.

(** A reaction whose first [e] tag has no value counts for nothing, though
    a later [e] tag names an event. *)
Example first_e_tag_shadows :
  findFirstTag reaction_first_e_bare "e" = None
  /\ updateStats reaction_first_e_bare DB.empty = DB.empty.
Proof. by split. Qed.

(** ** Users: building the user event and reading it back *)

Lemma found_user_template (event : Event.t) pubkey admin origin alt t :
  Event.tags event = [["d"; pubkey]; ["role"; role_of admin]; ["origin"; origin];
                      ["alt"; alt]] ->
  Event.created_at event = t / 1000 ->
  Z.abs t <= max_time ->
  found_user event = FoundUser.mk (Some pubkey) (Some (t / 1000 * 1000)) admin.
Proof.
  intros Htags Hcreated Ht. unfold found_user, findFirstTag.
  rewrite Htags, Hcreated. cbn [find head bool_decide decide_rel].
  rewrite bool_decide_eq_true_2 by done.
  rewrite (bool_decide_eq_false_2 (Some "d" = Some "role")) by done.
  rewrite (bool_decide_eq_true_2 (Some "role" = Some "role")) by done.
  cbn [lookup list_lookup]. unfold new_Date.
  assert ((Z.abs (t / 1000 * 1000) <=? max_time) = true) as ->.
  { apply Z.leb_le. unfold max_time in *.
    pose proof (Z.mul_div_le t 1000 ltac:(lia)).
    pose proof (Z.mul_succ_div_gt t 1000 ltac:(lia)). lia. }
  f_equal. destruct admin.
  - by rewrite bool_decide_eq_true_2.
  - by rewrite bool_decide_eq_false_2.
Qed.

(** X16. Building the event of a user and reading a user back from it is a
    round trip up to the second: for a signer that signs what it is given
    and a user with a valid date, findUser, when the store answers with
    the event buildUserEvent built, returns the pubkey and the admin flag of
    the user, and as inserted_at the date of the user rounded down to a
    whole second. *)
Theorem findUser_buildUserEvent conf uenv user t event :
  signs_template uenv ->
  Users.inserted_at user = Some t ->
  Z.abs t <= max_time ->
  buildUserEvent conf uenv user = Ok event ->
  found_user event
  = FoundUser.mk (Some (Users.pubkey user)) (Some (t / 1000 * 1000)) (Users.admin user)
  /\ t - 999 <= t / 1000 * 1000 <= t
  /\ (forall entries rest,
        db_query uenv [findUser_filter conf entries] = Ok (event :: rest) ->
        findUser conf uenv entries
        = Ok (Some (FoundUser.mk (Some (Users.pubkey user)) (Some (t / 1000 * 1000))
                      (Users.admin user)))).
Proof.
  intros Hsigns Hdate Ht Hbuild. unfold buildUserEvent in Hbuild.
  apply Hsigns in Hbuild as (_ & Htags & _ & Hcreated).
  cbn [EventTemplate.tags EventTemplate.created_at] in Htags, Hcreated.
  rewrite Hdate in Hcreated. injection Hcreated as Hcreated.
  pose proof (found_user_template event _ _ _ _ t Htags Hcreated Ht) as Hfound.
  split; [done|]. split.
  { pose proof (Z.mul_div_le t 1000 ltac:(lia)).
    pose proof (Z.mul_succ_div_gt t 1000 ltac:(lia)). lia. }
  intros entries rest Hquery. unfold findUser. rewrite Hquery. cbn [bindR].
  by rewrite Hfound.
Qed.

Lemma example_signEvent_signs stored : signs_template (example_uenv stored).
Proof.
  intros template event. cbn [example_uenv signEvent]. unfold example_signEvent.
  destruct (EventTemplate.created_at template) as [created_at|]; [|done].
  intros [= <-]. done.
Qed.

(** The theorem on an administrator registered at 1700000000123 ms: the
    date read back is 1700000000000 ms. *)
Lemma findUser_buildUserEvent_witness :
  found_user admin_alex_event
  = FoundUser.mk (Some (Users.pubkey admin_alex))
      (Some (1700000000123 / 1000 * 1000)) (Users.admin admin_alex)
  /\ 1700000000123 - 999 <= 1700000000123 / 1000 * 1000 <= 1700000000123
  /\ (forall entries rest,
        db_query (example_uenv [admin_alex_event])
          [findUser_filter example_conf entries] = Ok (admin_alex_event :: rest) ->
        findUser example_conf (example_uenv [admin_alex_event]) entries
        = Ok (Some (FoundUser.mk (Some (Users.pubkey admin_alex))
                      (Some (1700000000123 / 1000 * 1000)) (Users.admin admin_alex)))).
Proof.
  apply (findUser_buildUserEvent example_conf (example_uenv [admin_alex_event])
           admin_alex 1700000000123 admin_alex_event).
  - apply example_signEvent_signs.
  - reflexivity.
  - by vm_compute.
  - reflexivity.
Defined.

Lemma set_tag_key_elem key value keys k v :
  (k, v) ∈ set_tag_key key value keys -> (k, v) ∈ keys \/ (k = key /\ v = value).
Proof.
  induction keys as [|[k' v'] keys IH]; cbn [set_tag_key].
  - intros H. apply list_elem_of_singleton in H as [= -> ->]. auto.
  - destruct (String.eqb_spec k' key) as [->|Hne]; intros H.
    + apply elem_of_cons in H as [[= -> ->]|H]; [auto|].
      left. by apply elem_of_cons; right.
    + apply elem_of_cons in H as [[= -> ->]|H].
      * left. apply list_elem_of_here.
      * destruct (IH H) as [Hin|Heq]; [|auto]. left. by apply elem_of_cons; right.
Qed.

(** X17. Whatever properties findUser is given, the filter it queries the
    store with asks for events of kind 30361 signed by the key of the
    server, with limit 1 and no other constraint than tag keys: [#d] with
    one value when a pubkey is given, [#role] with [admin] or [user] when
    an admin flag is given.  A given inserted_at never constrains the
    query. *)
Theorem findUser_filter_shape conf entries :
  let f := findUser_filter conf entries in
  DittoFilter.ids f = None
  /\ DittoFilter.kinds f = Some [30361]
  /\ DittoFilter.authors f = Some [Conf.pubkey conf]
  /\ DittoFilter.since f = None
  /\ DittoFilter.until f = None
  /\ DittoFilter.limit f = Some 1%nat
  /\ DittoFilter.local f = None
  /\ DittoFilter.search f = None
  /\ (forall key values,
        (key, values) ∈ DittoFilter.tag_keys f ->
        (key = "d" /\ exists value, (entry_pubkey value ∈ entries)
                                     /\ values = [default "undefined" value])
        \/ (key = "role" /\ exists value, (entry_admin value ∈ entries)
                                          /\ values = [role_of (default false value)])).
Proof.
  cbn zeta. unfold findUser_filter.
  set (f0 := DittoFilter.mk None (Some [30361]) (Some [Conf.pubkey conf]) None None
               (Some 1%nat) [] None None).
  assert (forall entries f,
            let f' := fold_left findUser_entry entries f in
            DittoFilter.ids f' = DittoFilter.ids f
            /\ DittoFilter.kinds f' = DittoFilter.kinds f
            /\ DittoFilter.authors f' = DittoFilter.authors f
            /\ DittoFilter.since f' = DittoFilter.since f
            /\ DittoFilter.until f' = DittoFilter.until f
            /\ DittoFilter.limit f' = DittoFilter.limit f
            /\ DittoFilter.local f' = DittoFilter.local f
            /\ DittoFilter.search f' = DittoFilter.search f
            /\ (forall key values,
                  (key, values) ∈ DittoFilter.tag_keys f' ->
                  (key, values) ∈ DittoFilter.tag_keys f
                  \/ (key = "d" /\ exists value, (entry_pubkey value ∈ entries)
                                     /\ values = [default "undefined" value])
                  \/ (key = "role" /\ exists value, (entry_admin value ∈ entries)
                                     /\ values = [role_of (default false value)])))
    as Hfold.
  { clear. induction entries as [|entry entries IH]; intros f; cbn zeta.
    - cbn [fold_left]. repeat split; auto.
    - cbn [fold_left].
      destruct (IH (findUser_entry f entry))
        as (H1 & H2 & H3 & H4 & H5 & H6 & H7 & H8 & Hkeys).
      rewrite H1, H2, H3, H4, H5, H6, H7, H8.
      assert (forall value, value ∈ entries -> value ∈ entry :: entries) as Hin
        by (intros; by apply elem_of_cons; right).
      destruct entry as [value|value|value]; cbn [findUser_entry with_tag_key
        DittoFilter.ids DittoFilter.kinds DittoFilter.authors DittoFilter.since
        DittoFilter.until DittoFilter.limit DittoFilter.local DittoFilter.search];
        repeat split; try done; intros key values Hkv;
        (destruct (Hkeys key values Hkv) as [Hold|[(-> & v & Hv & ->)|(-> & v & Hv & ->)]];
         [|right; left; eauto|right; right; eauto]).
      + cbn [findUser_entry with_tag_key DittoFilter.tag_keys] in Hold.
        apply set_tag_key_elem in Hold as [Hold|[-> ->]]; [auto|].
        right. left. split; [done|]. exists value. split; [apply list_elem_of_here|done].
      + cbn [findUser_entry] in Hold. auto.
      + cbn [findUser_entry with_tag_key DittoFilter.tag_keys] in Hold.
        apply set_tag_key_elem in Hold as [Hold|[-> ->]]; [auto|].
        right. right. split; [done|]. exists value. split; [apply list_elem_of_here|done]. }
  destruct (Hfold entries f0) as (H1 & H2 & H3 & H4 & H5 & H6 & H7 & H8 & Hkeys).
  rewrite H1, H2, H3, H4, H5, H6, H7, H8. repeat split; try done.
  intros key values Hkv. destruct (Hkeys key values Hkv) as [Hold|H]; [|done].
  by apply elem_of_nil in Hold.
Qed.

(** ** Streaming topics *)

(** X18. topicToFilter yields a filter for five of the twelve stream names
    only ([public], [public:local], [hashtag], [hashtag:local], [user]);
    for the seven others it yields none, whatever the query and the viewer.
    Every filter it yields asks for kinds 1 and 6 and sets no ids, since,
    until, limit or local flag; a tag key it sets is [#t] with the one,
    non-empty tag of the query as given; a search text it sets is
    [domain:] followed by the host of the server; authors it sets are the
    feed of the viewer, who is then known. *)
Theorem topicToFilter_served conf getFeedPubkeys topic query_tag pubkey :
  ((topic ∉ served_streams) ->
   topicToFilter conf getFeedPubkeys topic query_tag pubkey = Ok None)
  /\ (forall f,
        topicToFilter conf getFeedPubkeys topic query_tag pubkey = Ok (Some f) ->
        DittoFilter.kinds f = Some [1; 6]
        /\ DittoFilter.ids f = None
        /\ DittoFilter.since f = None
        /\ DittoFilter.until f = None
        /\ DittoFilter.limit f = None
        /\ DittoFilter.local f = None
        /\ (forall key values,
              (key, values) ∈ DittoFilter.tag_keys f ->
              (topic = Stream.hashtag \/ topic = Stream.hashtag_local)
              /\ key = "t"
              /\ exists tag, query_tag = Some tag /\ tag <> "" /\ values = [tag])
        /\ (forall text,
              DittoFilter.search f = Some text ->
              (topic = Stream.public_local \/ topic = Stream.hashtag_local)
              /\ text = "domain:" +:+ Conf.url_host conf)
        /\ (forall authors,
              DittoFilter.authors f = Some authors ->
              topic = Stream.user
              /\ exists pk, pubkey = Some pk /\ pk <> ""
                            /\ getFeedPubkeys pk = Ok authors)).
Proof.
  assert (forall tag : string, (tag =? "")%string = false -> tag <> "") as Hne
    by (intros tag H; by apply String.eqb_neq).
  split.
  - intros Hdead. destruct topic; try done; exfalso; apply Hdead;
      unfold served_streams; apply list_elem_of_In; simpl; tauto.
  - intros f Hf.
    assert (exists f', f = f' /\ Ok (Some f')
                       = topicToFilter conf getFeedPubkeys topic query_tag pubkey)
      as (f' & -> & Hf') by eauto.
    clear Hf.
    destruct topic; cbn [topicToFilter] in Hf'; try done;
      try (destruct query_tag as [tag|]; [|done]; cbn [truthy] in Hf';
           destruct (String.eqb tag "") eqn:Htag; cbn [negb] in Hf'; [done|]);
      try (destruct pubkey as [pk|]; [|done]; cbn [truthy] in Hf';
           destruct (String.eqb pk "") eqn:Hpk; cbn [negb] in Hf'; [done|];
           destruct (getFeedPubkeys pk) as [authors|e] eqn:Hfeed; [|done];
           cbn [bindR] in Hf');
      injection Hf' as ->;
      repeat match goal with |- _ /\ _ => split end;
      try done;
      try (intros key values Hin; cbn in Hin;
           first [by apply elem_of_nil in Hin
                 |apply list_elem_of_singleton in Hin as [= -> ->]; eauto 8]);
      try (intros text [= <-]; eauto 8).
Qed.

Lemma parse_stream_name name topic :
  parse_stream (Some name) = Some topic -> name = stream_name topic.
Proof.
  unfold parse_stream, streams. cbn [find].
  repeat match goal with
         | |- context [String.eqb ?a ?b] =>
             destruct (String.eqb_spec a b) as [<-|?]; [by intros [= <-]|]
         end.
  done.
Qed.

(** X19. A socket subscribes only when the [stream] parameter of the
    request is one of [public], [public:local], [hashtag], [hashtag:local]
    and [user]: for an absent parameter, for a name the schema does not
    know and for the seven other names it knows, the handler returns
    before it subscribes. *)
Theorem onopen_filter_served conf getFeedPubkeys stream query_tag pubkey f :
  onopen_filter conf getFeedPubkeys stream query_tag pubkey = Ok (Some f) ->
  exists name,
    stream = Some name
    /\ name ∈ ["public"; "public:local"; "hashtag"; "hashtag:local"; "user"].
Proof.
  unfold onopen_filter. destruct stream as [name|]; [|done].
  destruct (parse_stream (Some name)) as [topic|] eqn:Hparse; [|done].
  apply parse_stream_name in Hparse as ->. intros Hf. eexists. split; [done|].
  destruct topic; try done; apply list_elem_of_In; simpl; tauto.
Qed.

(** The theorem on the stream [hashtag] with the tag [nostr]. *)
Lemma onopen_filter_served_witness :
  exists name,
    Some "hashtag" = Some name
    /\ name ∈ ["public"; "public:local"; "hashtag"; "hashtag:local"; "user"].
Proof.
  apply (onopen_filter_served example_conf example_feed (Some "hashtag")
           (Some "nostr") None (stream_filter None [("t", ["nostr"])] None)).
  reflexivity.
Defined.

Example dead_streams :
  onopen_filter example_conf example_feed (Some "public:media") None (Some id_a)
  = Ok None
  /\ onopen_filter example_conf example_feed (Some "user:notification") None (Some id_a)
     = Ok None
  /\ onopen_filter example_conf example_feed (Some "hashtag") (Some "") (Some id_a)
     = Ok None
  /\ onopen_filter example_conf example_feed (Some "user") None (Some id_a)
     = Ok (Some (stream_filter (Some [id_a; id_b]) [] None)).
Proof. repeat split; reflexivity. Qed.

(** ** The search store, the configured uploader and the relay document *)

(** X20. SearchStore.query answers in this order: an aborted signal
    rejects with the abort error, whatever the filters; filters that
    normalize to none resolve to no events; with an open relay the answer
    is that of the relay, hydrated, and a failure of the relay is the
    failure of the call (the fallback is not asked); a store made without
    a relay URL, or with an empty one, answers with the fallback store
    asked with the normalized filters.  SearchStore.event always
    rejects. *)
Theorem SearchStore_query_cases senv store filters opts :
  (QueryOpts.aborted opts = true ->
   SearchStore_query senv store filters opts = Err (abortError senv))
  /\ (QueryOpts.aborted opts = false ->
      normalizeFilters senv filters = [] ->
      SearchStore_query senv store filters opts = Ok [])
  /\ (forall relay,
        QueryOpts.aborted opts = false ->
        normalizeFilters senv filters <> [] ->
        SearchStore.relay store = Some relay ->
        socket_open relay = true ->
        SearchStore_query senv store filters opts
        = match relay_query relay (normalizeFilters senv filters) opts with
          | Ok events => hydrateEvents senv events (SearchStore.hydrator store)
          | Err e => Err e
          end)
  /\ (forall sopts,
        truthy (SearchStoreOpts.relay sopts) = false ->
        QueryOpts.aborted opts = false ->
        normalizeFilters senv filters <> [] ->
        SearchStore_query senv (SearchStore_new senv sopts) filters opts
        = store_query (SearchStoreOpts.fallback sopts)
            (normalizeFilters senv filters) opts)
  /\ (forall event, exists msg, SearchStore_event store event = Err (OtherError msg)).
Proof.
  unfold SearchStore_query. repeat match goal with |- _ /\ _ => split end.
  - by intros ->.
  - by intros -> ->.
  - intros relay -> Hne -> ->.
    by destruct (normalizeFilters senv filters).
  - intros sopts Hrelay -> Hne. unfold SearchStore_new.
    cbn [SearchStore.relay SearchStore.fallback]. rewrite Hrelay.
    destruct (normalizeFilters senv filters); [done|].
    by destruct (SearchStoreOpts.relay sopts).
  - intros event. by eexists.
Qed.

(** X21. The configured uploader hands uploads and deletions to the
    backend that [Conf.uploader] names: [s3], [ipfs] or [local].  For any
    other setting, an unset one included, both operations fail with the
    same error, whatever the three backends are. *)
Theorem configUploader_dispatch {File Opts Upload : Type} (conf : Conf.t)
    (s3Uploader ipfsUploader localUploader : Uploader File Opts Upload) :
  let configured := configUploader conf s3Uploader ipfsUploader localUploader in
  (forall chosen,
     (Conf.uploader conf = Some "s3" /\ chosen = s3Uploader)
     \/ (Conf.uploader conf = Some "ipfs" /\ chosen = ipfsUploader)
     \/ (Conf.uploader conf = Some "local" /\ chosen = localUploader) ->
     (forall file opts, upload configured file opts = upload chosen file opts)
     /\ (forall id opts, delete configured id opts = delete chosen id opts))
  /\ ((Conf.uploader conf ∉ [Some "s3"; Some "ipfs"; Some "local"]) ->
      exists msg,
        (forall file opts, upload configured file opts = Err (OtherError msg))
        /\ (forall id opts, delete configured id opts = Err (OtherError msg))).
Proof.
  cbn zeta. unfold configUploader, uploader. cbn [upload delete]. split.
  - intros chosen [[-> ->]|[[-> ->]|[-> ->]]]; done.
  - intros Hnone. eexists.
    destruct (Conf.uploader conf) as [name|]; [|done].
    destruct (String.eqb_spec name "s3") as [->|_].
    { exfalso. apply Hnone, list_elem_of_In. simpl. tauto. }
    destruct (String.eqb_spec name "ipfs") as [->|_].
    { exfalso. apply Hnone, list_elem_of_In. simpl. tauto. }
    destruct (String.eqb_spec name "local") as [->|_].
    { exfalso. apply Hnone, list_elem_of_In. simpl. tauto. }
    done.
Qed.

(** X22. The relay information document: its contact is always a
    [mailto:] address and its pubkey that of the server; the store is
    asked for one kind-0 event of the server and only the first event of
    the answer is read.  Without such an event, or when its content does
    not parse, the document carries the defaults: the name [Ditto], the
    description [Nostr and the Fediverse.] and the contact [postmaster]
    at the host of the server.  A field the profile sets is used as it is,
    an empty string included. *)
Theorem relayInfoController_document conf db_query serverMetaSchema_parse events :
  db_query [DittoFilter.mk None (Some [0]) (Some [Conf.pubkey conf]) None None
              (Some 1%nat) [] None None] = Ok events ->
  let meta := parse_server_meta serverMetaSchema_parse (Event.content <$> head events) in
  exists info,
    relayInfoController conf db_query serverMetaSchema_parse = Ok info
    /\ RelayInfo.pubkey info = Conf.pubkey conf
    /\ RelayInfo.supported_nips info = [1; 5; 9; 11; 16; 45; 50; 46; 98]
    /\ (exists address, RelayInfo.contact info = "mailto:" +:+ address)
    /\ (forall v, ServerMeta.name meta = Some v -> RelayInfo.name info = v)
    /\ (forall v, ServerMeta.about meta = Some v -> RelayInfo.description info = v)
    /\ (forall v, ServerMeta.email meta = Some v ->
          RelayInfo.contact info = "mailto:" +:+ v)
    /\ ((events = []
         \/ exists event rest,
              events = event :: rest
              /\ serverMetaSchema_parse (Event.content event) = None) ->
        info = RelayInfo.mk "Ditto" "Nostr and the Fediverse." (Conf.pubkey conf)
                 ("mailto:" +:+ ("postmaster@" +:+ Conf.url_host conf))
                 [1; 5; 9; 11; 16; 45; 50; 46; 98] "Ditto" "0.0.0").
Proof.
  intros Hquery meta. unfold relayInfoController. rewrite Hquery. cbn [bindR].
  fold meta. eexists. split; [reflexivity|].
  cbn [RelayInfo.pubkey RelayInfo.supported_nips RelayInfo.contact RelayInfo.name
       RelayInfo.description].
  repeat match goal with |- _ /\ _ => split end; try done.
  - by eexists.
  - by intros v ->.
  - by intros v ->.
  - by intros v ->.
  - intros Hnone.
    assert (meta = ServerMeta.empty) as ->; [|done].
    unfold meta, parse_server_meta.
    destruct Hnone as [->|(event & rest & -> & Hparse)]; [done|].
    cbn. by rewrite Hparse.
Qed.

(** The theorem on a store that answers with a profile whose name is the
    empty string: the document has that name, and the default contact. *)
Lemma relayInfoController_document_witness :
  let meta :=
    parse_server_meta parse_flat_server_meta
      (Event.content <$> head [profile_empty_name]) in
  exists info,
    relayInfoController example_conf (fun _ => Ok [profile_empty_name])
      parse_flat_server_meta = Ok info
    /\ RelayInfo.pubkey info = Conf.pubkey example_conf
    /\ RelayInfo.supported_nips info = [1; 5; 9; 11; 16; 45; 50; 46; 98]
    /\ (exists address, RelayInfo.contact info = "mailto:" +:+ address)
    /\ (forall v, ServerMeta.name meta = Some v -> RelayInfo.name info = v)
    /\ (forall v, ServerMeta.about meta = Some v -> RelayInfo.description info = v)
    /\ (forall v, ServerMeta.email meta = Some v ->
          RelayInfo.contact info = "mailto:" +:+ v)
    /\ (([profile_empty_name] = []
         \/ exists event rest,
              [profile_empty_name] = event :: rest
              /\ parse_flat_server_meta (Event.content event) = None) ->
        info = RelayInfo.mk "Ditto" "Nostr and the Fediverse."
                 (Conf.pubkey example_conf)
                 ("mailto:" +:+ ("postmaster@" +:+ Conf.url_host example_conf))
                 [1; 5; 9; 11; 16; 45; 50; 46; 98] "Ditto" "0.0.0").
Proof.
  apply (relayInfoController_document example_conf (fun _ => Ok [profile_empty_name])
           parse_flat_server_meta [profile_empty_name]).
  reflexivity.
Defined.

Example relay_document_keeps_empty_name :
  relayInfoController example_conf (fun _ => Ok [profile_empty_name])
    parse_flat_server_meta
  = Ok (RelayInfo.mk "" "x" id_a "mailto:postmaster@ditto.example"
          [1; 5; 9; 11; 16; 45; 50; 46; 98] "Ditto" "0.0.0").
Proof. reflexivity. Qed.

(** ** What insertEvent and deleteFilters leave alone *)

(** X23. insertEvent only ever appends: whatever the event and whatever
    the storage engine raises, the rows that the events, tags and search
    tables held before the call are still there, in their order and at the
    head of the tables, and the users table and the two stats tables are
    untouched. *)
Theorem insertEvent_appends env faults event data db :
  let db' := snd (insertEvent env faults event data db) in
  DB.events db `prefix_of` DB.events db'
  /\ DB.tags db `prefix_of` DB.tags db'
  /\ DB.events_fts db `prefix_of` DB.events_fts db'
  /\ DB.users db' = DB.users db
  /\ DB.pubkey_stats db' = DB.pubkey_stats db
  /\ DB.event_stats db' = DB.event_stats db.
Proof.
  cbn zeta. rewrite insertEvent_unfold.
  destruct (insertEvent_body env faults event data db) as [db'|e] eqn:Hbody.
  - apply insertEvent_body_Ok in Hbody as (tags & searchContent & _ & _ & _ & ->).
    cbn [snd written DB.events DB.tags DB.events_fts DB.users DB.pubkey_stats
         DB.event_stats].
    repeat split; apply prefix_app_r; done.
  - cbn [snd]. done.
Qed.

(** X24. filterIndexableTags throws nothing but a TypeError, and it
    returns whenever every [t] tag of the event has a value and no tag is
    named [__proto__], [__defineGetter__] or [__defineSetter__]. *)
Theorem filterIndexableTags_errors env event data :
  (tags_are_safe (Event.tags event) = true ->
   exists tags, filterIndexableTags env event data = Ok tags)
  /\ (forall e,
        filterIndexableTags env event data = Err e ->
        (exists msg, e = TypeError msg)
        /\ exists tag,
             tag ∈ Event.tags event
             /\ ((tag_name tag = "t" /\ tag_value tag = None)
                 \/ tag_name tag ∈ inherited_throwing)).
Proof.
  unfold filterIndexableTags. split; [apply reduce_tags_safe|].
  intros e Herr. split; [by eapply reduce_tags_throws|].
  destruct (tags_are_safe (Event.tags event)) eqn:Hsafe.
  { destruct (reduce_tags_safe env event data _ ∅ Hsafe) as [rows Hrows].
    by rewrite Hrows in Herr. }
  unfold tags_are_safe in Hsafe.
  assert (exists tag, tag ∈ Event.tags event /\ tag_is_safe tag = false)
    as (tag & Hin & Htag).
  { clear Herr. induction (Event.tags event) as [|t l IH]; [done|].
    cbn [forallb] in Hsafe. apply andb_false_iff in Hsafe as [Ht|Hl].
    - exists t. split; [apply list_elem_of_here|done].
    - destruct (IH Hl) as (tag & Hin & Htag). exists tag.
      split; [by apply elem_of_cons; right|done]. }
  exists tag. split; [done|]. unfold tag_is_safe in Htag.
  apply andb_false_iff in Htag as [Hname|Hvalue].
  - right. apply negb_false_iff in Hname. by apply mem_elem_of.
  - left. apply orb_false_iff in Hvalue as [Hname Hvalue].
    apply negb_false_iff, String.eqb_eq in Hname.
    apply bool_decide_eq_false in Hvalue. split; [done|].
    destruct (tag_value tag); [|done]. exfalso. by apply Hvalue.
Qed.

Lemma deleteFilters_cases env cascade filters db :
  snd (deleteFilters env cascade filters db) = db
  \/ exists ids,
       snd (deleteFilters env cascade filters db)
       = deleteFrom_events cascade ids (deleteFrom_events_fts ids db).
Proof.
  destruct filters as [|f [|g gs]].
  - by left.
  - destruct (truthy (DittoFilter.search f) || ambiguous (filter_joins f)) eqn:Hrej.
    + left. unfold deleteFilters, transaction_returning.
      cbn [length Nat.eqb getFiltersQuery map fold_left bindR].
      by rewrite execute_select_id_single, Hrej.
    + apply orb_false_iff in Hrej as [Hsearch Hamb]. right.
      rewrite (deleteFilters_single env cascade f db Hsearch Hamb). eauto.
  - left.
    destruct (getFiltersQuery_unions f g gs) as (joins & wheres & limit & u & us & Hq).
    unfold deleteFilters, transaction_returning.
    cbn [length Nat.eqb]. by rewrite Hq.
Qed.

(** X25. Whatever filters deleteFilters is given, and whether it succeeds
    or fails, it leaves the ids of the stored events distinct and no
    search row without its event when that held before; it leaves the
    users table and the stats as they were; and under a schema that
    deletes the tag rows of a deleted event it leaves no tag row without
    its event either. *)
Theorem deleteFilters_keeps env cascade filters db :
  let db' := snd (deleteFilters env cascade filters db) in
  (NoDup (map Event.id (DB.events db)) -> NoDup (map Event.id (DB.events db')))
  /\ ((forall r, r ∈ DB.events_fts db -> FtsRow.id r ∈ map Event.id (DB.events db)) ->
      forall r, r ∈ DB.events_fts db' -> FtsRow.id r ∈ map Event.id (DB.events db'))
  /\ (cascade = true ->
      (forall r, r ∈ DB.tags db -> TagRow.event_id r ∈ map Event.id (DB.events db)) ->
      forall r, r ∈ DB.tags db' -> TagRow.event_id r ∈ map Event.id (DB.events db'))
  /\ DB.users db' = DB.users db
  /\ DB.pubkey_stats db' = DB.pubkey_stats db
  /\ DB.event_stats db' = DB.event_stats db.
Proof.
  cbn zeta.
  destruct (deleteFilters_cases env cascade filters db) as [->|[ids ->]]; [done|].
  cbn [deleteFrom_events deleteFrom_events_fts DB.events DB.events_fts DB.tags
       DB.users DB.pubkey_stats DB.event_stats].
  assert (forall id, id ∈ map Event.id (DB.events db) -> id ∉ ids ->
                     id ∈ map Event.id (filter (fun ev => Event.id ev ∉ ids) (DB.events db)))
    as Hkept.
  { intros id Hid Hnot. apply list_elem_of_fmap in Hid as (ev & -> & Hev).
    apply list_elem_of_fmap. exists ev. split; [done|].
    by apply list_elem_of_filter. }
  repeat match goal with |- _ /\ _ => split end; try done.
  - intros Hnodup. apply (sublist_NoDup _ (map Event.id (DB.events db))); [done|].
    apply fmap_sublist, sublist_filter.
  - intros Hfts r Hr. apply list_elem_of_filter in Hr as [Hnot Hr]. auto.
  - intros -> Htags r Hr. apply list_elem_of_filter in Hr as [Hnot Hr]. auto.
Qed.

(** ** The earlier revision: concatenated answers and local followers *)

Lemma collect_app (run : Query -> Result (list Event.t)) (qs1 qs2 : list Query) :
  collect run (qs1 ++ qs2)
  = (let* r := collect run qs1 in
     let* s := collect run qs2 in
     Ok (r ++ s)).
Proof.
  induction qs1 as [|q qs1 IH].
  - cbn [app collect bindR]. by destruct (collect run qs2).
  - cbn [app collect]. rewrite IH.
    destruct (run q) as [r|e]; [|done]. cbn [bindR].
    destruct (collect run qs1) as [r1|e]; [|done]. cbn [bindR].
    destruct (collect run qs2) as [r2|e]; [|done]. cbn [bindR].
    by rewrite app_assoc.
Qed.

(** X26. In the earlier revision the answer to several filters is the
    concatenation of the answers to each of them, in the order of the
    filters: what one filter yields is ordered newest first and cut at the
    limit of that filter, and an event that two filters match is answered
    twice. *)
Theorem legacy_getFilters_concat fs gs db :
  Legacy.getFilters (fs ++ gs) db
  = (let* r := Legacy.getFilters fs db in
     let* s := Legacy.getFilters gs db in
     Ok (r ++ s))
  /\ (forall f rows,
        Legacy.getFilter f db = Ok rows ->
        sorted_desc rows
        /\ forall n, DittoFilter.limit f = Some n -> (length rows <= n)%nat).
Proof.
  split.
  - unfold Legacy.getFilters. rewrite map_app. apply collect_app.
  - intros f rows. unfold Legacy.getFilter, Legacy.getFilters.
    cbn [map collect].
    destruct (Legacy.execute db (Legacy.getFilterQuery f)) as [r|e] eqn:Hex; [|done].
    cbn [bindR]. rewrite app_nil_r. intros [= <-].
    unfold Legacy.getFilterQuery, selectFrom_events in Hex.
    rewrite !when_where, when_limit, fold_tag_keys in Hex.
    assert (forall joins wheres limit unions,
              Legacy.execute db (Select joins wheres limit unions) = Ok r ->
              sorted_desc r
              /\ forall n, limit = Some n -> (length r <= n)%nat) as Hshape.
    { intros joins wheres limit unions. cbn [Legacy.execute].
      destruct (Nat.leb 2 _); [done|]. intros [= <-]. split.
      - apply apply_limit_sorted, sort_desc_sorted.
      - intros n ->. apply apply_limit_length. }
    destruct (DittoFilter.local f) as [[|]|], (DittoFilter.limit f) as [m|];
      cbn [join_] in Hex; apply Hshape in Hex as [Hsorted Hlen];
      (split; [done|]); intros n [= <-]; auto; done.
Qed.

Example legacy_getFilters_repeats :
  Legacy.getFilters [authors_a; kinds_1] legacy_store
  = Ok [note_by_a; note_by_a; note_by_b].
Proof. reflexivity. Qed.

Lemma sort_desc_nil l : sort_desc l = [] <-> l = [].
Proof.
  split; [|by intros ->]. intros H.
  apply (f_equal length) in H. rewrite sort_desc_length in H.
  by destruct l.
Qed.

Lemma legacy_joined_rows_elem db joins ev row :
  row ∈ Legacy.joined_rows db joins ev <->
  exists t u,
    row = Legacy.mkJoinedRow ev t u
    /\ t ∈ Legacy.tags_side db joins ev
    /\ u ∈ Legacy.users_side db joins ev.
Proof.
  unfold Legacy.joined_rows. rewrite list_elem_of_bind. split.
  - intros (t & Hrow & Ht). apply list_elem_of_bind in Hrow as (u & Hrow & Hu).
    apply list_elem_of_singleton in Hrow. eauto 10.
  - intros (t & u & -> & Ht & Hu). exists t. split; [|done].
    apply list_elem_of_bind. exists u. split; [|done].
    apply list_elem_of_here.
Qed.

(** X27. In the earlier revision isLocallyFollowed never fails, and it
    answers true exactly when the store holds an event of kind 3 whose
    author is in the users table and which has a tag row named [p] whose
    first value is the pubkey. *)
Theorem isLocallyFollowed_spec pubkey db :
  exists b,
    Legacy.isLocallyFollowed pubkey db = Ok b
    /\ (b = true <->
        exists ev r,
          ev ∈ Legacy.DB.events db
          /\ Event.kind ev = 3
          /\ Event.pubkey ev ∈ Legacy.DB.users db
          /\ r ∈ Legacy.DB.tags db
          /\ Legacy.TagRow.event_id r = Event.id ev
          /\ Legacy.TagRow.tag r = "p"
          /\ Legacy.TagRow.value_1 r = Some pubkey).
Proof.
  unfold Legacy.isLocallyFollowed.
  change (Legacy.getFilterQuery _)
    with (Select [LeftJoin_tags; InnerJoin_users]
            [Kind_in [3]; Tag_eq "p"; TagValue_in [pubkey]] (Some 1%nat) []).
  cbn [Legacy.execute]. rewrite filter_cons_True by done.
  rewrite filter_cons_False by done. cbn [filter length Nat.leb bindR apply_limit].
  set (rows := map Legacy.jr_event _).
  eexists. split; [reflexivity|].
  rewrite bool_decide_eq_true.
  assert (is_Some (head (take 1 (sort_desc rows))) <-> exists ev, ev ∈ rows) as ->.
  { destruct (sort_desc rows) as [|x l] eqn:Hsort.
    - apply sort_desc_nil in Hsort as ->. cbn. split.
      + by intros [? ?].
      + intros [ev Hev]. by apply elem_of_nil in Hev.
    - cbn. split; [|eauto]. intros _. exists x. apply sort_desc_elem.
      rewrite Hsort. apply list_elem_of_here. }
  unfold rows. split.
  - intros (ev & Hev). apply list_elem_of_fmap in Hev as (row & -> & Hrow).
    apply list_elem_of_filter in Hrow as [Hpass Hrow].
    apply list_elem_of_bind in Hrow as (ev & Hrow & Hev).
    apply legacy_joined_rows_elem in Hrow as (t & u & -> & Ht & Hu).
    cbn [forallb Legacy.eval_where Legacy.jr_event Legacy.jr_tag existsb] in Hpass.
    rewrite andb_true_r in Hpass.
    apply andb_true_iff in Hpass as [Hkind Hpass].
    apply andb_true_iff in Hpass as [Htag Hvalue].
    rewrite orb_false_r in Hkind. apply Z.eqb_eq in Hkind.
    destruct t as [r|]; [|done]. apply String.eqb_eq in Htag.
    destruct (Legacy.TagRow.value_1 r) as [v|] eqn:Hv; [|done].
    cbn in Hvalue. rewrite orb_false_r in Hvalue. apply String.eqb_eq in Hvalue as ->.
    unfold Legacy.tags_side in Ht. cbn in Ht.
    apply left_side_elem in Ht as [[? _]|(r' & [= <-] & Hr)]; [done|].
    apply list_elem_of_filter in Hr as [Hid Hr].
    unfold Legacy.users_side in Hu. cbn in Hu.
    apply list_elem_of_fmap in Hu as (p & -> & Hp).
    apply list_elem_of_filter in Hp as [-> Hp].
    exists ev, r. done.
  - intros (ev & r & Hev & Hkind & Huser & Hr & Hid & Htag & Hv).
    exists ev. apply list_elem_of_fmap.
    exists (Legacy.mkJoinedRow ev (Some r) (Some (Event.pubkey ev))).
    split; [done|]. apply list_elem_of_filter. split.
    + cbn [forallb Legacy.eval_where Legacy.jr_event Legacy.jr_tag].
      rewrite Hkind, Htag, Hv. cbn. by rewrite String.eqb_refl.
    + apply list_elem_of_bind. exists ev. split; [|done].
      apply legacy_joined_rows_elem. eexists _, _. split; [done|]. split.
      * unfold Legacy.tags_side. cbn. apply left_side_elem. right.
        exists r. split; [done|]. by apply list_elem_of_filter.
      * unfold Legacy.users_side. cbn. apply list_elem_of_fmap.
        exists (Event.pubkey ev). split; [done|]. by apply list_elem_of_filter.
Qed.

Example legacy_follow :
  Legacy.isLocallyFollowed id_b legacy_follow_store = Ok true
  /\ Legacy.isLocallyFollowed id_a legacy_follow_store = Ok false.
Proof. by split. Qed.

(** ** Which events a query with one filter returns *)

Lemma tag_keys_cases f :
  ambiguous (filter_joins f) = false ->
  DittoFilter.tag_keys f = []
  \/ exists name values, DittoFilter.tag_keys f = [(name, values)].
Proof.
  rewrite ambiguous_filter_joins.
  destruct (DittoFilter.tag_keys f) as [|[name values] [|k keys]]; [auto|eauto|done].
Qed.

Lemma is_local_spec db ev : is_local db ev = true <-> Event.pubkey ev ∈ DB.users db.
Proof. unfold is_local. apply bool_decide_eq_true. Qed.

Lemma filter_users_nil db ev :
  is_local db ev = false ->
  filter (fun p => p = Event.pubkey ev) (DB.users db) = [].
Proof.
  intros Hlocal.
  destruct (filter (fun p => p = Event.pubkey ev) (DB.users db)) as [|p l] eqn:Hf; [done|].
  assert (p ∈ filter (fun p => p = Event.pubkey ev) (DB.users db)) as Hp
    by (rewrite Hf; apply list_elem_of_here).
  apply list_elem_of_filter in Hp as [-> Hp].
  apply is_local_spec in Hp. congruence.
Qed.

(** X28. Which events a query with one filter and no limit returns: an
    event is in the answer exactly when it is stored, meets the constraints
    of the filter on ids, kinds, authors, since, until and local, has, for
    the tag key of the filter, a row in the tags table with that name and
    one of the asked values, and has, for the search text of the filter, a
    row in the search table whose content matches it. *)
Theorem getFilters_membership env f opts db rows ev :
  limit_in_force opts f = None ->
  getFilters env [f] opts db = Ok rows ->
  (ev ∈ rows <->
   ev ∈ DB.events db
   /\ passes db f ev = true
   /\ (forall name values,
         (name, values) ∈ DittoFilter.tag_keys f ->
         exists r,
           r ∈ DB.tags db /\ TagRow.event_id r = Event.id ev
           /\ TagRow.tag r = name /\ TagRow.value r ∈ values)
   /\ (truthy (DittoFilter.search f) = true ->
       exists r,
         r ∈ DB.events_fts db /\ FtsRow.id r = Event.id ev
         /\ fts_match env (default "" (DittoFilter.search f)) (FtsRow.content r) = true)).
Proof.
  intros Hlimit Hrows. split.
  - intros Hev.
    destruct (getFilters_single_elem _ _ _ _ _ _ Hrows Hev)
      as (Hstored & t & u & s & Ht & Hu & Hs & Hpass).
    assert (passes db f ev = true) as Hpasses.
    { eapply (event_rows_sound env db f ev ev). apply event_rows_elem.
      split; [done|]. eauto 10. }
    rewrite getFilters_single in Hrows.
    destruct (ambiguous (filter_joins f)) eqn:Hamb; [done|].
    rewrite forallb_filter_wheres in Hpass.
    apply andb_true_iff in Hpass as [Hpass Hsearch].
    apply andb_true_iff in Hpass as [Hpass _].
    apply andb_true_iff in Hpass as [_ Htag].
    repeat match goal with |- _ /\ _ => split end; try done.
    + intros name values Hkey.
      destruct (tag_keys_cases f Hamb) as [Hkeys|(name' & values' & Hkeys)];
        rewrite Hkeys in Hkey, Htag.
      { by apply elem_of_nil in Hkey. }
      apply list_elem_of_singleton in Hkey as [= -> ->].
      cbn [tag_wheres flat_map app forallb eval_where jr_tag fst snd] in Htag.
      destruct t as [r|]; [|done].
      rewrite andb_true_r in Htag. apply andb_true_iff in Htag as [Hname Hvalue].
      apply String.eqb_eq in Hname. apply mem_elem_of in Hvalue.
      unfold tags_side in Ht. rewrite has_join_filter_joins, Hkeys in Ht.
      change (has_join LeftJoin_tags (tag_joins [(name', values')])) with true in Ht.
      cbv iota in Ht.
      apply left_side_elem in Ht as [[? _]|(r' & [= <-] & Hr)]; [done|].
      apply list_elem_of_filter in Hr as [Hid Hr]. by exists r.
    + intros Htruthy. unfold search_wheres in Hsearch. rewrite Htruthy in Hsearch.
      cbn [forallb eval_where jr_fts] in Hsearch. rewrite andb_true_r in Hsearch.
      unfold fts_side in Hs. rewrite has_join_filter_joins, Htruthy in Hs.
      apply list_elem_of_fmap in Hs as (r & -> & Hr).
      apply list_elem_of_filter in Hr as [Hid Hr]. by exists r.
  - intros (Hstored & Hpasses & Htag & Hsearch).
    rewrite getFilters_single in Hrows.
    destruct (ambiguous (filter_joins f)) eqn:Hamb; [done|].
    injection Hrows as <-. rewrite Hlimit. cbn [apply_limit].
    apply sort_desc_elem. apply list_elem_of_bind. exists ev. split; [|done].
    apply event_rows_elem. split; [done|].
    rewrite passes_local in Hpasses. apply andb_true_iff in Hpasses as [Hbase Hlocal].
    assert (exists t,
              t ∈ tags_side db (filter_joins f) ev
              /\ forall u s,
                   forallb (eval_where env (mkJoinedRow ev t u s))
                     (tag_wheres (DittoFilter.tag_keys f)) = true) as (t & Ht & Htagw).
    { unfold tags_side. rewrite has_join_filter_joins.
      destruct (tag_keys_cases f Hamb) as [Hkeys|(name & values & Hkeys)];
        rewrite Hkeys.
      - exists None. split; [apply list_elem_of_here|done].
      - destruct (Htag name values) as (r & Hr & Hid & Hname & Hvalue).
        { rewrite Hkeys. apply list_elem_of_here. }
        exists (Some r). split.
        + change (has_join LeftJoin_tags (tag_joins [(name, values)])) with true.
          cbv iota. apply left_side_elem. right. exists r. split; [done|].
          by apply list_elem_of_filter.
        + intros u s.
          cbn [tag_wheres flat_map app forallb eval_where jr_tag fst snd].
          rewrite Hname, String.eqb_refl. apply mem_elem_of in Hvalue.
          by rewrite Hvalue. }
    assert (exists u,
              u ∈ users_side db (filter_joins f) ev
              /\ forall t s,
                   forallb (eval_where env (mkJoinedRow ev t u s))
                     (local_wheres (DittoFilter.local f)) = true) as (u & Hu & Hlocalw).
    { unfold users_side. rewrite !has_join_filter_joins.
      destruct (DittoFilter.local f) as [[|]|].
      - apply eqb_prop in Hlocal. apply is_local_spec in Hlocal.
        exists (Some (Event.pubkey ev)). split; [|done].
        rewrite bool_decide_eq_true_2 by done. apply list_elem_of_fmap.
        exists (Event.pubkey ev). split; [done|]. by apply list_elem_of_filter.
      - apply eqb_prop in Hlocal.
        exists None. split; [|done].
        rewrite bool_decide_eq_false_2 by done.
        rewrite bool_decide_eq_true_2 by done.
        rewrite filter_users_nil by done. apply list_elem_of_here.
      - exists None. split; [|done].
        rewrite !bool_decide_eq_false_2 by done. apply list_elem_of_here. }
    assert (exists s,
              s ∈ fts_side db (filter_joins f) ev
              /\ forall t u,
                   forallb (eval_where env (mkJoinedRow ev t u s))
                     (search_wheres f) = true) as (s & Hs & Hsearchw).
    { unfold fts_side, search_wheres. rewrite has_join_filter_joins.
      destruct (truthy (DittoFilter.search f)) eqn:Htruthy.
      - destruct (Hsearch eq_refl) as (r & Hr & Hid & Hmatch).
        exists (Some r). split.
        + apply list_elem_of_fmap. exists r. split; [done|].
          by apply list_elem_of_filter.
        + intros t' u'. cbn [forallb eval_where jr_fts]. by rewrite Hmatch.
      - exists None. split; [apply list_elem_of_here|done]. }
    exists t, u, s. repeat split; try done.
    rewrite forallb_filter_wheres, (base_wheres_passes env db), Hbase.
    by rewrite Htagw, Hlocalw, Hsearchw.
Qed.

(** The theorem on the store with the note with two hashtags and the
    filter of the hashtag timeline. *)
Lemma getFilters_membership_witness :
  note_two_hashtags ∈ [note_two_hashtags; note_two_hashtags] <->
  note_two_hashtags ∈ DB.events store_with_hashtags
  /\ passes store_with_hashtags hashtag_filter note_two_hashtags = true
  /\ (forall name values,
        (name, values) ∈ DittoFilter.tag_keys hashtag_filter ->
        exists r,
          r ∈ DB.tags store_with_hashtags
          /\ TagRow.event_id r = Event.id note_two_hashtags
          /\ TagRow.tag r = name /\ TagRow.value r ∈ values)
  /\ (truthy (DittoFilter.search hashtag_filter) = true ->
      exists r,
        r ∈ DB.events_fts store_with_hashtags
        /\ FtsRow.id r = Event.id note_two_hashtags
        /\ fts_match example_env (default "" (DittoFilter.search hashtag_filter))
             (FtsRow.content r) = true).
Proof.
  apply (getFilters_membership example_env hashtag_filter no_opts store_with_hashtags
           [note_two_hashtags; note_two_hashtags] note_two_hashtags); reflexivity.
Defined.

(** ** When insertEvent raises *)

(** X29. What insertEvent raises is never an engine error of code 19, and
    it is the TypeError the tag filter threw, or the error of the profile
    parser for a kind-0 event whose content does not parse, or the error
    the storage engine raised on one of the three inserts.  When the engine
    raises nothing, every [t] tag has a value, no tag is named after one of
    the three throwing inherited properties, and the event is not a
    profile that does not parse, insertEvent raises nothing. *)
Theorem insertEvent_raises env faults event data db :
  (forall e,
     fst (insertEvent env faults event data db) = Err e ->
     is_constraint_error e = false
     /\ ((filterIndexableTags env event data = Err e /\ exists msg, e = TypeError msg)
         \/ (Event.kind event = 0
             /\ exists msg,
                  jsonMetaContentSchema_parse env (Event.content event) = inl msg
                  /\ e = ZodError msg)
         \/ fault_events faults = Some e
         \/ fault_tags faults = Some e
         \/ fault_fts faults = Some e))
  /\ (faults = no_faults ->
      tags_are_safe (Event.tags event) = true ->
      (Event.kind event <> 0
       \/ exists meta, jsonMetaContentSchema_parse env (Event.content event) = inr meta) ->
      fst (insertEvent env faults event data db) = Ok tt).
Proof.
  rewrite insertEvent_unfold.
  destruct (insertEvent_body env faults event data db) as [db'|e'] eqn:Hbody.
  { split; [done|]. done. }
  pose proof (insertEvent_body_errors _ _ _ _ _ _ Hbody) as Hcases.
  cbn [fst catch_duplicate]. split.
  - intros e He. destruct (is_constraint_error e') eqn:Hcode; [done|].
    injection He as <-. split; [done|].
    destruct Hcases as [Htags|[Hsearch|[[-> _]|Hfault]]].
    + left. split; [done|]. unfold filterIndexableTags in Htags.
      by eapply reduce_tags_throws.
    + right. left. by apply buildSearchContent_throws.
    + done.
    + right. right. done.
  - intros -> Hsafe Hparse.
    destruct Hcases as [Htags|[Hsearch|[[-> _]|[Hfault|[Hfault|Hfault]]]]]; try done.
    + unfold filterIndexableTags in Htags.
      destruct (reduce_tags_safe env event data _ ∅ Hsafe) as [rows Hrows].
      by rewrite Hrows in Htags.
    + apply buildSearchContent_throws in Hsearch as (Hkind & msg & Hmsg & _).
      destruct Hparse as [Hne|[meta Hmeta]]; [done|]. by rewrite Hmeta in Hmsg.
Qed.

(** ** Deleting what was inserted *)

Lemma filter_all {A : Type} (P : A -> Prop) `{forall x, Decision (P x)} (l : list A) :
  (forall x, x ∈ l -> P x) -> filter P l = l.
Proof.
  induction l as [|x l IH]; intros Hall; [done|].
  rewrite filter_cons_True by (apply Hall, list_elem_of_here).
  rewrite IH; [done|]. intros y Hy. apply Hall. by apply elem_of_cons; right.
Qed.

Lemma filter_none {A : Type} (P : A -> Prop) `{forall x, Decision (P x)} (l : list A) :
  (forall x, x ∈ l -> ~ P x) -> filter P l = [].
Proof.
  induction l as [|x l IH]; intros Hnone; [done|].
  rewrite filter_cons_False by (apply Hnone, list_elem_of_here).
  apply IH. intros y Hy. apply Hnone. by apply elem_of_cons; right.
Qed.

(** X30. deleteFilters undoes insertEvent: when an event for whose id no
    table holds a row is inserted (the engine raising nothing, tag
    filtering and search extraction not throwing) and deleteFilters is then
    asked to delete that id, the events table and the search table are as
    they were before the insert, the call reports one row removed, and
    under a schema that cascades deletes to the tags table that table is as
    before too. *)
Theorem deleteFilters_undoes_insertEvent env cascade event data db tags searchContent :
  no_rows_for (Event.id event) db ->
  filterIndexableTags env event data = Ok tags ->
  buildSearchContent env event = Ok searchContent ->
  let db1 := snd (insertEvent env no_faults event data db) in
  let db2 := snd (deleteFilters env cascade [ids_filter [Event.id event]] db1) in
  fst (deleteFilters env cascade [ids_filter [Event.id event]] db1) = Ok [1%nat]
  /\ DB.events db2 = DB.events db
  /\ DB.events_fts db2 = DB.events_fts db
  /\ (cascade = true -> DB.tags db2 = DB.tags db)
  /\ DB.users db2 = DB.users db
  /\ DB.pubkey_stats db2 = DB.pubkey_stats db
  /\ DB.event_stats db2 = DB.event_stats db.
Proof.
  intros (Hev & Htg & Hfts) Htags Hsearch db1 db2.
  assert (id_stored (Event.id event) db = false) as Hnew by (by apply id_stored_false).
  assert (db1 = written db event tags searchContent) as Hdb1.
  { unfold db1. rewrite insertEvent_unfold.
    by rewrite (insertEvent_body_succeeds _ _ _ _ _ tags searchContent). }
  assert (map Event.id
            (apply_limit (DittoFilter.limit (ids_filter [Event.id event]))
               (sort_desc
                  (DB.events db1
                   ≫= event_rows env db1 (filter_joins (ids_filter [Event.id event]))
                        (filter_wheres (ids_filter [Event.id event])))))
          = [Event.id event]) as Hids.
  { rewrite bind_ids_filter.
    rewrite Hdb1. cbn [written DB.events].
    rewrite filter_app, filter_passes_ids by done.
    rewrite filter_cons_True; [done|].
    unfold passes, ids_filter, among. cbn. by rewrite String.eqb_refl. }
  unfold db2. rewrite (deleteFilters_single env cascade _ db1) by done.
  cbn zeta. rewrite Hids. cbn [fst snd]. rewrite Hdb1.
  cbn [deleteFrom_events deleteFrom_events_fts written DB.events DB.events_fts
       DB.tags DB.users DB.pubkey_stats DB.event_stats].
  assert (filter (fun ev => Event.id ev ∉ [Event.id event]) (DB.events db ++ [event])
          = DB.events db) as Hevents.
  { rewrite filter_app, filter_all, filter_none.
    - apply app_nil_r.
    - intros x Hx Hnot. apply list_elem_of_singleton in Hx as ->.
      apply Hnot, list_elem_of_here.
    - intros x Hx Hin. apply list_elem_of_singleton in Hin.
      apply Hev. rewrite <- Hin. by apply list_elem_of_fmap_2. }
  rewrite Hevents.
  repeat match goal with |- _ /\ _ => split end; try done.
  - rewrite length_app. cbn [length]. do 2 f_equal. lia.
  - rewrite filter_app, filter_all, filter_none.
    + apply app_nil_r.
    + intros r Hr Hnot. apply Hnot.
      destruct (String.eqb searchContent ""); [by apply elem_of_nil in Hr|].
      apply list_elem_of_singleton in Hr as ->. apply list_elem_of_here.
    + intros r Hr Hin. apply list_elem_of_singleton in Hin.
      apply Hfts. rewrite <- Hin. by apply list_elem_of_fmap_2.
  - intros ->. rewrite filter_app, filter_all, filter_none.
    + apply app_nil_r.
    + intros r Hr Hnot. apply Hnot.
      apply list_elem_of_fmap in Hr as (tag & -> & _). apply list_elem_of_here.
    + intros r Hr Hin. apply list_elem_of_singleton in Hin.
      apply Htg. rewrite <- Hin. by apply list_elem_of_fmap_2.
Qed.

Lemma deleteFilters_undoes_insertEvent_witness :
  let db1 := snd (insertEvent example_env no_faults note_e remote DB.empty) in
  let db2 := snd (deleteFilters example_env true [ids_filter [Event.id note_e]] db1) in
  fst (deleteFilters example_env true [ids_filter [Event.id note_e]] db1) = Ok [1%nat]
  /\ DB.events db2 = DB.events DB.empty
  /\ DB.events_fts db2 = DB.events_fts DB.empty
  /\ (true = true -> DB.tags db2 = DB.tags DB.empty)
  /\ DB.users db2 = DB.users DB.empty
  /\ DB.pubkey_stats db2 = DB.pubkey_stats DB.empty
  /\ DB.event_stats db2 = DB.event_stats DB.empty.
Proof.
  apply (deleteFilters_undoes_insertEvent example_env true note_e remote DB.empty
           [["e"; id_b]] "hello").
  - repeat split; apply not_elem_of_nil.
  - reflexivity.
  - reflexivity.
Defined.
